(** * Win32 back-end of the VLC threading layer ([src/win32/thread.c])

    A shallow embedding of the calling thread's view of the back-end.
    The state of the process as one thread sees it is a [world]; every C
    function becomes a computation in a small state monad whose outcomes
    are: normal return, termination of the calling thread
    ([_endthreadex]), termination of the process ([abort], a failed
    [assert], an invalid pointer) and exhaustion of the fuel that bounds
    loops and call depth.  What the operating system and the other
    threads of the process do is read from an [environment].
    Assertions are compiled in.

    - Pointers and handles are integers, [NULL] is 0.  Mutexes and
      thread records are kept by address; condition variables, keys and
      timers are passed by value.  The cleanup stack and the list of the
      keys are lists: the stack from its top, the keys from
      [vlc_threadvar_last] along [prev].
    - [mtime_t] arithmetic is the arithmetic of [Z] (signed overflow is
      undefined in C); division truncates ([Z.quot]); [DWORD] and
      [unsigned long] values wrap at [2^32].  The statements on the time
      left to a deadline are made for dates and deadlines that are
      values of [mtime_t] and whose difference is one ([no_overflow]),
      where the arithmetic of [Z] is that of the code.
    - An alertable wait on an event that is set returns at once; any
      other wait is ended by the next answer of the environment.  What
      other threads did to the static mutexes shows when the caller
      enters a critical section that it does not hold yet.
    - Callbacks (cleanup handlers, destructors, entry functions) are
      known by their address; their effect on the calling thread's
      thread-specific values is given by the environment.
    - The read/write lock is described by its critical sections, see
      below.
    - The try-lock, the creation of threads and the performance counter
      read further answers of the operating system from a [system].
      The list of the keys is given a second time in [KeyList], with
      its nodes in memory and their [prev] and [next] pointers. *)

From stdpp Require Import base gmap list.
From Stdlib Require Import ZArith Lia.

Local Open Scope Z_scope.

(** ** Constants of the platform headers *)

Definition NULL : Z := 0.
Definition INFINITE : Z := 0xFFFFFFFF.
Definition WAIT_OBJECT_0 : Z := 0.
Definition WAIT_ABANDONED_0 : Z := 0x80.
Definition WAIT_IO_COMPLETION : Z := 0xC0.
Definition WAIT_TIMEOUT : Z := 0x102.
Definition WAIT_FAILED : Z := 0xFFFFFFFF.
Definition TLS_OUT_OF_INDEXES : Z := 0xFFFFFFFF.
Definition INVALID_HANDLE_VALUE : Z := -1.
Definition ULONG_MAX : Z := 0xFFFFFFFF.
Definition EAGAIN : Z := 11.
Definition ENOMEM : Z := 12.
Definition EBUSY : Z := 16.
Definition ETIMEDOUT : Z := 138.

(** [CLOCK_FREQ] of [vlc_common.h]: the core counts time in microseconds. *)
Definition CLOCK_FREQ : Z := 1000000.

(** The [enum] of clock identifiers. *)
Definition CLOCK_REALTIME : Z := 0.
Definition CLOCK_MONOTONIC : Z := 1.

(** Conversion to [DWORD] / [unsigned long] (32 bits on Win32). *)
Definition to_DWORD (x : Z) : Z := x mod 2 ^ 32.

(** ** Data *)

(** [vlc_mutex_t]: [dynamic] selects the critical section; [locked] and
    [contention] are the static flavour.  [RecursionCount] is the
    critical section's count of acquisitions by the calling thread. *)
Record vlc_mutex_t := Mutex {
  dynamic : bool;
  locked : bool;
  contention : Z;
  RecursionCount : Z
}.

Record vlc_cond_t := Cond {
  handle : Z;
  clock : Z
}.

(** A node of the cleanup stack; [next] is the tail of the list. *)
Record vlc_cleanup_t := Cleanup {
  proc : Z;
  cl_data : Z
}.

Record vlc_thread := Thread {
  th_id : Z;
  detached : bool;
  killable : bool;
  killed : bool;
  cleaners : list vlc_cleanup_t;
  entry : Z;
  data : Z
}.

(** [struct vlc_threadvar]; [prev] and [next] are the list structure. *)
Record vlc_threadvar := Threadvar {
  tv_id : Z;
  destroy : Z
}.

Inductive event :=
| EvEnter (cs : Z)
| EvLeave (cs : Z)
| EvSetEvent (h : Z)
| EvResetEvent (h : Z)
| EvWait (handles : list Z) (delay : Z) (ret : Z)
| EvSleep (delay : Z) (ret : Z)
| EvTlsSet (index value : Z) (ok : bool)
| EvCall (fn arg : Z)
| EvCloseHandle (h : Z)
| EvFree (p : Z)
| EvEndThread (code : Z)
| EvDeleteTimer (h : Z)
| EvCreateTimer (due period : Z) (h : Z).

(** The process as seen by the calling thread. *)
Record world := World {
  events : gmap Z bool;             (* manual-reset events: handle to signalled *)
  mutexes : gmap Z vlc_mutex_t;     (* vlc_mutex_t objects by address *)
  tls : gmap Z Z;                   (* the thread's value in each allocated TLS index *)
  threads : gmap Z vlc_thread;      (* struct vlc_thread records by address *)
  vlc_threadvar_last : list vlc_threadvar; (* from the last key along prev *)
  thread_key : vlc_threadvar;
  super_variable : vlc_cond_t;
  now : nat;                        (* answers of the environment used so far *)
  trace : list event
}.

(** The address of the file-scope [super_mutex]. *)
Definition super_mutex : Z := 1.

Definition set_events (f : gmap Z bool → gmap Z bool) (w : world) : world :=
  World (f (events w)) (mutexes w) (tls w) (threads w) (vlc_threadvar_last w)
        (thread_key w) (super_variable w) (now w) (trace w).
Definition set_mutexes (f : gmap Z vlc_mutex_t → gmap Z vlc_mutex_t) (w : world) : world :=
  World (events w) (f (mutexes w)) (tls w) (threads w) (vlc_threadvar_last w)
        (thread_key w) (super_variable w) (now w) (trace w).
Definition set_tls (f : gmap Z Z → gmap Z Z) (w : world) : world :=
  World (events w) (mutexes w) (f (tls w)) (threads w) (vlc_threadvar_last w)
        (thread_key w) (super_variable w) (now w) (trace w).
Definition set_threads (f : gmap Z vlc_thread → gmap Z vlc_thread) (w : world) : world :=
  World (events w) (mutexes w) (tls w) (f (threads w)) (vlc_threadvar_last w)
        (thread_key w) (super_variable w) (now w) (trace w).
Definition set_keys (f : list vlc_threadvar → list vlc_threadvar) (w : world) : world :=
  World (events w) (mutexes w) (tls w) (threads w) (f (vlc_threadvar_last w))
        (thread_key w) (super_variable w) (now w) (trace w).
Definition tick (w : world) : world :=
  World (events w) (mutexes w) (tls w) (threads w) (vlc_threadvar_last w)
        (thread_key w) (super_variable w) (S (now w)) (trace w).
Definition log (e : event) (w : world) : world :=
  World (events w) (mutexes w) (tls w) (threads w) (vlc_threadvar_last w)
        (thread_key w) (super_variable w) (now w) (trace w ++ [e]).

(** ** Outcomes and the monad *)

Inductive outcome (A : Type) :=
| Ret (a : A) (w : world)     (* the call returns *)
| Exit (w : world)            (* the calling thread has ended *)
| Abort                       (* the process has been terminated *)
| OutOfFuel.
Arguments Ret {A}.
Arguments Exit {A}.
Arguments Abort {A}.
Arguments OutOfFuel {A}.

Definition M (A : Type) : Type := world → outcome A.

Definition ret {A} (a : A) : M A := λ w, Ret a w.
Definition bind {A B} (m : M A) (k : A → M B) : M B :=
  λ w, match m w with
       | Ret a w' => k a w'
       | Exit w' => Exit w'
       | Abort => Abort
       | OutOfFuel => OutOfFuel
       end.
Definition gets {A} (f : world → A) : M A := λ w, Ret (f w) w.
Definition modify (f : world → world) : M unit := λ w, Ret tt (f w).
Definition abort {A} : M A := λ _, Abort.
Definition out_of_fuel {A} : M A := λ _, OutOfFuel.
Definition assert (b : bool) : M unit := if b then ret tt else abort.
Definition unlikely (b : bool) : bool := b.
Definition likely (b : bool) : bool := b.

Declare Scope vlc_scope.
Delimit Scope vlc_scope with vlc.
Notation "'let!' x ':=' m 'in' k" := (bind m (λ x, k))
  (at level 10, x pattern, m at level 100, k at level 200) : vlc_scope.
Notation "m ';;' k" := (bind m (λ _, k))
  (at level 100, k at level 200, right associativity) : vlc_scope.
Local Open Scope vlc_scope.

(** What ends an alertable wait that has to block. *)
Inductive wait_answer :=
| Signalled (i : nat)        (* the i-th object became signalled *)
| Abandoned (i : nat)
| IoCompletion (self : Z)    (* a queued [vlc_cancel_self (self)] ran *)
| Expired
| Failed.

(** The operating system, the other threads and the user's callbacks.
    Answer [n] is used by the [n]-th consultation. *)
Record environment := Environment {
  env_wait : nat → wait_answer;
  env_static : nat → Z → option (bool * Z); (* static mutexes rewritten by other holders of the super lock *)
  env_ticks : nat → option Z;               (* QueryUnbiasedInterruptTime *)
  env_time : nat → Z;                       (* time (NULL) *)
  env_alloc : nat → Z;                      (* malloc, TlsAlloc, CreateEvent, CreateTimerQueueTimer *)
  user_code : Z → Z → gmap Z Z → gmap Z Z;  (* a callback's effect on the thread's TLS values *)
  user_result : Z → Z → Z                   (* what a thread's entry function returns *)
}.

Section Backend.

Variable E : environment.

(** ** The operating system *)

(** Other threads change [locked] and [contention] of static mutexes
    only while they hold the super lock. *)
Definition interfere (f : Z → option (bool * Z)) (ms : gmap Z vlc_mutex_t)
  : gmap Z vlc_mutex_t :=
  map_imap (λ a m,
    Some (if dynamic m then m else
            match f a with
            | Some (l, c) => Mutex false l c (RecursionCount m)
            | None => m
            end)) ms.

Definition load_mutex (p : Z) : M vlc_mutex_t :=
  λ w, match mutexes w !! p with Some m => Ret m w | None => Abort end.
Definition store_mutex (p : Z) (m : vlc_mutex_t) : M unit :=
  modify (set_mutexes <[p := m]>).
Definition load_thread (p : Z) : M vlc_thread :=
  λ w, match threads w !! p with Some t => Ret t w | None => Abort end.
Definition store_thread (p : Z) (t : vlc_thread) : M unit :=
  modify (set_threads <[p := t]>).

Definition InitializeCriticalSection (p : Z) : M unit :=
  modify (set_mutexes (λ ms,
    <[p := match ms !! p with
           | Some m => Mutex (dynamic m) (locked m) (contention m) 0
           | None => Mutex false false 0 0
           end]> ms)).

Definition EnterCriticalSection (p : Z) : M unit :=
  let! m := load_mutex p in
  (if RecursionCount m =? 0
   then let! n := gets now in
        modify (set_mutexes (interfere (env_static E n)));; modify tick
   else ret tt);;
  let! m := load_mutex p in
  store_mutex p (Mutex (dynamic m) (locked m) (contention m) (RecursionCount m + 1));;
  modify (log (EvEnter p)).

Definition LeaveCriticalSection (p : Z) : M unit :=
  let! m := load_mutex p in
  store_mutex p (Mutex (dynamic m) (locked m) (contention m) (RecursionCount m - 1));;
  modify (log (EvLeave p)).

Definition CreateEvent : M Z :=
  let! n := gets now in
  modify tick;;
  let h := env_alloc E n in
  if h =? NULL then ret NULL
  else modify (set_events <[h := false]>);; ret h.

Definition SetEvent (h : Z) : M unit :=
  modify (set_events (alter (λ _, true) h));; modify (log (EvSetEvent h)).

Definition ResetEvent (h : Z) : M unit :=
  modify (set_events (alter (λ _, false) h));; modify (log (EvResetEvent h)).

Definition CloseHandle (h : Z) : M unit :=
  modify (set_events (delete h));; modify (log (EvCloseHandle h)).

Definition free (p : Z) : M unit :=
  modify (set_threads (delete p));; modify (log (EvFree p)).

Definition _endthreadex {A} (code : Z) : M A :=
  λ w, Exit (log (EvEndThread code) w).

Definition TlsGetValue (index : Z) : M Z :=
  gets (λ w, default NULL (tls w !! index)).

Definition TlsSetValue (index value : Z) : M bool :=
  let! allocated := gets (λ w, bool_decide (is_Some (tls w !! index))) in
  (if allocated then modify (set_tls <[index := value]>) else ret tt);;
  modify (log (EvTlsSet index value allocated));;
  ret allocated.

(** Running a user callback [fn (arg)]. *)
Definition call (fn arg : Z) : M unit :=
  modify (log (EvCall fn arg));; modify (set_tls (user_code E fn arg)).

(** [malloc]; a record is represented by its address alone. *)
Definition malloc : M Z :=
  let! n := gets now in
  modify tick;; ret (env_alloc E n).

Definition TlsAlloc : M Z :=
  let! n := gets now in
  modify tick;;
  let index := to_DWORD (env_alloc E n) in
  if index =? TLS_OUT_OF_INDEXES then ret TLS_OUT_OF_INDEXES
  else modify (set_tls <[index := NULL]>);; ret index.

Definition QueryUnbiasedInterruptTime : M (option Z) :=
  let! n := gets now in
  modify tick;; ret (env_ticks E n).

Definition time : M Z :=
  let! n := gets now in
  modify tick;; ret (env_time E n).

(** ** Thread-specific variables: get and set *)

Definition vlc_threadvar_set (key : vlc_threadvar) (value : Z) : M Z :=
  let! ok := TlsSetValue (tv_id key) value in
  ret (if ok : bool then ENOMEM else 0).

Definition vlc_threadvar_get (key : vlc_threadvar) : M Z :=
  TlsGetValue (tv_id key).

(** ** Cancellation state *)

Definition set_killable (b : bool) (t : vlc_thread) : vlc_thread :=
  Thread (th_id t) (detached t) b (killed t) (cleaners t) (entry t) (data t).
Definition set_killed (b : bool) (t : vlc_thread) : vlc_thread :=
  Thread (th_id t) (detached t) (killable t) b (cleaners t) (entry t) (data t).
Definition set_cleaners (l : list vlc_cleanup_t) (t : vlc_thread) : vlc_thread :=
  Thread (th_id t) (detached t) (killable t) (killed t) l (entry t) (data t).
Definition set_data (d : Z) (t : vlc_thread) : vlc_thread :=
  Thread (th_id t) (detached t) (killable t) (killed t) (cleaners t) (entry t) d.

(** The APC procedure queued by [vlc_cancel]. *)
Definition vlc_cancel_self (self : Z) : M unit :=
  let th := self in
  if likely (negb (th =? NULL))
  then let! t := load_thread th in store_thread th (set_killed true t)
  else ret tt.

Definition vlc_savecancel : M Z :=
  let! key := gets thread_key in
  let! th := vlc_threadvar_get key in
  if th =? NULL then ret 0
  else
    let! t := load_thread th in
    let state := Z.b2z (killable t) in
    store_thread th (set_killable false t);;
    ret state.

Definition vlc_restorecancel (state : Z) : M unit :=
  let! key := gets thread_key in
  let! th := vlc_threadvar_get key in
  assert ((state =? 0) || (state =? 1));;
  if th =? NULL then ret tt
  else
    let! t := load_thread th in
    assert (negb (killable t));;
    store_thread th (set_killable (negb (state =? 0)) t).

Inductive cancel_cmd :=
| VLC_CLEANUP_PUSH (cleaner : vlc_cleanup_t)
| VLC_CLEANUP_POP.

Definition vlc_control_cancel (cmd : cancel_cmd) : M unit :=
  let! key := gets thread_key in
  let! th := vlc_threadvar_get key in
  if th =? NULL then ret tt
  else
    let! t := load_thread th in
    match cmd with
    | VLC_CLEANUP_PUSH cleaner =>
        store_thread th (set_cleaners (cleaner :: cleaners t) t)
    | VLC_CLEANUP_POP =>
        match cleaners t with
        | _ :: next => store_thread th (set_cleaners next t)
        | [] => abort
        end
    end.

(** The loop of [vlc_testcancel] over the cleanup stack, from its top. *)
Fixpoint run_cleaners (p : list vlc_cleanup_t) : M unit :=
  match p with
  | [] => ret tt
  | c :: next => call (proc c) (cl_data c);; run_cleaners next
  end.

(** ** Alertable waits *)

Definition WaitForMultipleObjectsEx (handles : list Z) (delay : Z) : M Z :=
  let! evs := gets events in
  let! r :=
    if existsb (λ h, bool_decide (evs !! h = None)) handles then ret WAIT_FAILED
    else match list_find (λ h, evs !! h = Some true) handles with
         | Some (i, _) => ret (WAIT_OBJECT_0 + Z.of_nat i)
         | None =>
             let! n := gets now in
             modify tick;;
             match env_wait E n with
             | Signalled i =>
                 match handles !! i with
                 | Some h => modify (set_events <[h := true]>);;
                             ret (WAIT_OBJECT_0 + Z.of_nat i)
                 | None => ret WAIT_FAILED
                 end
             | Abandoned i =>
                 match handles !! i with
                 | Some _ => ret (WAIT_ABANDONED_0 + Z.of_nat i)
                 | None => ret WAIT_FAILED
                 end
             | IoCompletion self => vlc_cancel_self self;; ret WAIT_IO_COMPLETION
             | Expired => ret WAIT_TIMEOUT
             | Failed => ret WAIT_FAILED
             end
         end in
  modify (log (EvWait handles delay r));; ret r.

Definition SleepEx (delay : Z) : M Z :=
  let! n := gets now in
  modify tick;;
  let! r := match env_wait E n with
            | IoCompletion self => vlc_cancel_self self;; ret WAIT_IO_COMPLETION
            | _ => ret 0
            end in
  modify (log (EvSleep delay r));; ret r.

Definition vlc_WaitForMultipleObjects (count : Z) (handles : list Z) (delay : Z) : M Z :=
  let! r :=
    if count =? 0
    then let! r := SleepEx delay in
         ret (if r =? 0 then WAIT_TIMEOUT else r)
    else WaitForMultipleObjectsEx handles delay in
  assert ((r <? WAIT_ABANDONED_0) || (to_DWORD (WAIT_ABANDONED_0 + count - 1) <? r));;
  if unlikely (r =? WAIT_FAILED) then abort else ret r.

Definition vlc_WaitForSingleObject (h : Z) (delay : Z) : M Z :=
  vlc_WaitForMultipleObjects 1 [h] delay.

Definition vlc_Sleep (delay : Z) : M Z :=
  let! r := vlc_WaitForMultipleObjects 0 [] delay in
  ret (if negb (r =? WAIT_TIMEOUT) then r else 0).

(** ** Clock *)

(** [mdate], in the variant for [_WIN32_WINNT >= 0x0601]. *)
Definition mdate : M Z :=
  let! ts := QueryUnbiasedInterruptTime in
  match ts with
  | None => abort
  | Some ts => ret (Z.quot (ts mod 2 ^ 64) (Z.quot 10000000 CLOCK_FREQ))
  end.

(** ** Condition variables: creation, signal and broadcast *)

Definition vlc_cond_init_common (clk : Z) : M vlc_cond_t :=
  let! h := CreateEvent in
  if h =? NULL then abort else ret (Cond h clk).

Definition vlc_cond_init : M vlc_cond_t := vlc_cond_init_common CLOCK_MONOTONIC.
Definition vlc_cond_init_daytime : M vlc_cond_t := vlc_cond_init_common CLOCK_REALTIME.

Definition vlc_cond_destroy (p_condvar : vlc_cond_t) : M unit :=
  CloseHandle (handle p_condvar).

Definition vlc_cond_broadcast (p_condvar : vlc_cond_t) : M unit :=
  if handle p_condvar =? NULL then ret tt
  else SetEvent (handle p_condvar).

Definition vlc_cond_signal (p_condvar : vlc_cond_t) : M unit :=
  if handle p_condvar =? NULL then ret tt
  else vlc_cond_broadcast p_condvar.

(** ** Mutexes *)

Definition set_dynamic (b : bool) (m : vlc_mutex_t) : vlc_mutex_t :=
  Mutex b (locked m) (contention m) (RecursionCount m).
Definition set_locked (b : bool) (m : vlc_mutex_t) : vlc_mutex_t :=
  Mutex (dynamic m) b (contention m) (RecursionCount m).
Definition set_contention (c : Z) (m : vlc_mutex_t) : vlc_mutex_t :=
  Mutex (dynamic m) (locked m) c (RecursionCount m).

Definition vlc_mutex_init (p_mutex : Z) : M unit :=
  InitializeCriticalSection p_mutex;;
  let! m := load_mutex p_mutex in
  store_mutex p_mutex (set_dynamic true m).

Definition vlc_mutex_init_recursive (p_mutex : Z) : M unit :=
  InitializeCriticalSection p_mutex;;
  let! m := load_mutex p_mutex in
  store_mutex p_mutex (set_dynamic true m).

(** The [for] loop of [vlc_thread_cleanup]: the first key, from
    [vlc_threadvar_last] along [prev], with a value and a destructor. *)
Fixpoint scan_keys (keys : list vlc_threadvar) : M (option (vlc_threadvar * Z)) :=
  match keys with
  | [] => ret None
  | key :: prev =>
      let! value := vlc_threadvar_get key in
      if negb (value =? NULL) && negb (destroy key =? NULL)
      then ret (Some (key, value))
      else scan_keys prev
  end.

(** ** The mutually recursive core

    [vlc_mutex_lock] on a static mutex waits on the super condition
    variable, [vlc_cond_wait] is a cancellation point and sleeps when the
    condition variable has no event, and a cancelled thread tears itself
    down under the super lock.  [fuel] bounds the loops and the depth of
    calls. *)
Fixpoint vlc_mutex_lock (fuel : nat) (p_mutex : Z) : M unit :=
  match fuel with
  | O => out_of_fuel
  | S fuel =>
      let! m := load_mutex p_mutex in
      if negb (dynamic m) then
        let! canc := vlc_savecancel in
        assert (negb (p_mutex =? super_mutex));;
        vlc_mutex_lock fuel super_mutex;;
        lock_wait fuel p_mutex;;
        let! m := load_mutex p_mutex in
        store_mutex p_mutex (set_locked true m);;
        vlc_mutex_unlock fuel super_mutex;;
        vlc_restorecancel canc
      else EnterCriticalSection p_mutex
  end

(** [while (p_mutex->locked)] of [vlc_mutex_lock]. *)
with lock_wait (fuel : nat) (p_mutex : Z) : M unit :=
  match fuel with
  | O => out_of_fuel
  | S fuel =>
      let! m := load_mutex p_mutex in
      if locked m then
        store_mutex p_mutex (set_contention (to_DWORD (contention m + 1)) m);;
        let! sv := gets super_variable in
        vlc_cond_wait fuel sv super_mutex;;
        let! m := load_mutex p_mutex in
        store_mutex p_mutex (set_contention (to_DWORD (contention m - 1)) m);;
        lock_wait fuel p_mutex
      else ret tt
  end

with vlc_mutex_unlock (fuel : nat) (p_mutex : Z) : M unit :=
  match fuel with
  | O => out_of_fuel
  | S fuel =>
      let! m := load_mutex p_mutex in
      if negb (dynamic m) then
        assert (negb (p_mutex =? super_mutex));;
        vlc_mutex_lock fuel super_mutex;;
        let! m := load_mutex p_mutex in
        assert (locked m);;
        store_mutex p_mutex (set_locked false m);;
        (if negb (contention m =? 0)
         then let! sv := gets super_variable in vlc_cond_broadcast sv
         else ret tt);;
        vlc_mutex_unlock fuel super_mutex
      else LeaveCriticalSection p_mutex
  end

with vlc_cond_wait (fuel : nat) (p_condvar : vlc_cond_t) (p_mutex : Z) : M unit :=
  match fuel with
  | O => out_of_fuel
  | S fuel =>
      if handle p_condvar =? NULL then msleep fuel 50000
      else cond_wait_loop fuel p_condvar p_mutex;;
           ResetEvent (handle p_condvar)
  end

(** [do ... while (result == WAIT_IO_COMPLETION)] of [vlc_cond_wait]. *)
with cond_wait_loop (fuel : nat) (p_condvar : vlc_cond_t) (p_mutex : Z) : M unit :=
  match fuel with
  | O => out_of_fuel
  | S fuel =>
      vlc_testcancel fuel;;
      vlc_mutex_unlock fuel p_mutex;;
      let! result := vlc_WaitForSingleObject (handle p_condvar) INFINITE in
      vlc_mutex_lock fuel p_mutex;;
      if result =? WAIT_IO_COMPLETION
      then cond_wait_loop fuel p_condvar p_mutex
      else ret tt
  end

with vlc_thread_cleanup (fuel : nat) (th : Z) : M unit :=
  match fuel with
  | O => out_of_fuel
  | S fuel =>
      vlc_mutex_lock fuel super_mutex;;
      let! keys := gets vlc_threadvar_last in
      let! found := scan_keys keys in
      match found with
      | Some (key, value) =>
          vlc_mutex_unlock fuel super_mutex;;
          vlc_threadvar_set key NULL;;
          call (destroy key) value;;
          vlc_thread_cleanup fuel th      (* goto retry *)
      | None =>
          vlc_mutex_unlock fuel super_mutex;;
          let! t := load_thread th in
          if detached t
          then CloseHandle (th_id t);; free th
          else ret tt
      end
  end

with vlc_testcancel (fuel : nat) : M unit :=
  match fuel with
  | O => out_of_fuel
  | S fuel =>
      let! key := gets thread_key in
      let! th := vlc_threadvar_get key in
      if th =? NULL then ret tt
      else
        let! t := load_thread th in
        if killable t && killed t then
          run_cleaners (cleaners t);;
          let! t := load_thread th in
          store_thread th (set_data NULL t);;
          vlc_thread_cleanup fuel th;;
          _endthreadex 0
        else ret tt
  end

with mwait (fuel : nat) (deadline : Z) : M unit :=
  match fuel with
  | O => out_of_fuel
  | S fuel =>
      vlc_testcancel fuel;;
      mwait_loop fuel deadline
  end

(** [while ((delay = (deadline - mdate())) > 0)] of [mwait]. *)
with mwait_loop (fuel : nat) (deadline : Z) : M unit :=
  match fuel with
  | O => out_of_fuel
  | S fuel =>
      let! t := mdate in
      let delay := deadline - t in
      if 0 <? delay then
        let delay := Z.quot delay 1000 in
        let delay := if unlikely (0x7fffffff <? delay) then 0x7fffffff else delay in
        vlc_Sleep delay;;
        vlc_testcancel fuel;;
        mwait_loop fuel deadline
      else ret tt
  end

with msleep (fuel : nat) (delay : Z) : M unit :=
  match fuel with
  | O => out_of_fuel
  | S fuel =>
      let! t := mdate in
      mwait fuel (t + delay)
  end.

(** ** Timed wait on a condition variable *)

(** [do ... while (result == WAIT_IO_COMPLETION)] of [vlc_cond_timedwait]. *)
Fixpoint timedwait_loop (fuel : nat) (p_condvar : vlc_cond_t) (p_mutex : Z)
    (deadline : Z) : M Z :=
  match fuel with
  | O => out_of_fuel
  | S fuel =>
      vlc_testcancel fuel;;
      let! total :=
        if clock p_condvar =? CLOCK_REALTIME
        then let! t := time in ret (CLOCK_FREQ * t)
        else assert (clock p_condvar =? CLOCK_MONOTONIC);; mdate in
      let total := Z.quot (deadline - total) 1000 in
      let total := if total <? 0 then 0 else total in
      let delay := if 0x7fffffff <? total then 0x7fffffff else total in
      vlc_mutex_unlock fuel p_mutex;;
      let! result := vlc_WaitForSingleObject (handle p_condvar) delay in
      vlc_mutex_lock fuel p_mutex;;
      if result =? WAIT_IO_COMPLETION
      then timedwait_loop fuel p_condvar p_mutex deadline
      else ret result
  end.

Definition vlc_cond_timedwait (fuel : nat) (p_condvar : vlc_cond_t) (p_mutex : Z)
    (deadline : Z) : M Z :=
  if handle p_condvar =? NULL then msleep fuel 50000;; ret 0
  else
    let! result := timedwait_loop fuel p_condvar p_mutex deadline in
    ResetEvent (handle p_condvar);;
    ret (if result =? WAIT_OBJECT_0 then 0 else ETIMEDOUT).

(** ** Thread-specific variables: creation *)

(** Returns the error code and, on success, the key stored in [*p_tls]. *)
Definition vlc_threadvar_create (fuel : nat) (destr : Z) : M (Z * option vlc_threadvar) :=
  let! var := malloc in
  if unlikely (var =? NULL) then ret (ENOMEM, None)      (* errno *)
  else
    let! index := TlsAlloc in
    if index =? TLS_OUT_OF_INDEXES then ret (EAGAIN, None)
    else
      let key := Threadvar index destr in
      vlc_mutex_lock fuel super_mutex;;
      modify (set_keys (cons key));;
      vlc_mutex_unlock fuel super_mutex;;
      ret (0, Some key).

(** ** Thread entry *)

Definition vlc_entry (fuel : nat) (p : Z) : M Z :=
  let th := p in
  let! key := gets thread_key in
  vlc_threadvar_set key th;;
  let! t := load_thread th in
  store_thread th (set_killable true t);;
  let! t := load_thread th in
  call (entry t) (data t);;
  let! t := load_thread th in
  store_thread th (set_data (user_result E (entry t) (data t)) t);;
  vlc_thread_cleanup fuel th;;
  ret 0.

(** ** Timers *)

Record vlc_timer := Timer {
  tm_handle : Z;
  func : Z;
  tm_data : Z
}.

Definition DeleteTimerQueueTimer (h : Z) : M unit :=
  modify (log (EvDeleteTimer h)).

(** [DueTime] and [Period] are [DWORD] parameters; the result is the new
    handle, or [NULL] when the call fails. *)
Definition CreateTimerQueueTimer (due period : Z) : M Z :=
  let! n := gets now in
  modify tick;;
  let h := env_alloc E n in
  modify (log (EvCreateTimer (to_DWORD due) (to_DWORD period) h));;
  ret h.

Definition vlc_timer_create (fn dat : Z) : M (Z * option vlc_timer) :=
  let! timer := malloc in
  if timer =? NULL then ret (ENOMEM, None)
  else ret (0, Some (Timer INVALID_HANDLE_VALUE fn dat)).

Definition vlc_timer_schedule (timer : vlc_timer) (absolute : bool)
    (value interval : Z) : M vlc_timer :=
  let! timer :=
    if negb (tm_handle timer =? INVALID_HANDLE_VALUE)
    then DeleteTimerQueueTimer (tm_handle timer);;
         ret (Timer INVALID_HANDLE_VALUE (func timer) (tm_data timer))
    else ret timer in
  if value =? 0 then ret timer      (* Disarm *)
  else
    let! value := if absolute then let! t := mdate in ret (value - t)
                  else ret value in
    let value := Z.quot (value + 999) 1000 in
    let interval := Z.quot (interval + 999) 1000 in
    let! h := CreateTimerQueueTimer value interval in
    if h =? NULL then abort
    else ret (Timer h (func timer) (tm_data timer)).

Definition vlc_timer_getoverrun (timer : vlc_timer) : Z := 0.

(** ** Read/write locks

    The fields [readers] and [writer] are shared by the threads of the
    process and are only touched under [lock->mutex].  Each operation is
    given as what one thread does from taking [lock->mutex] to releasing
    it: either it completes ([Done], with the new fields), or it reaches
    [vlc_cond_wait], which releases the mutex with the fields as they are
    ([Waiting]); the thread repeats the loop test when it is woken up, in
    the state the other threads have left.  [self] is
    [GetCurrentThreadId ()]. *)

Record vlc_rwlock_t := RWLock {
  rw_mutex : Z;
  rw_wait : vlc_cond_t;
  readers : Z;
  writer : Z
}.

Inductive rw_step :=
| Done (lock : vlc_rwlock_t)
| Waiting.

Definition set_readers (n : Z) (l : vlc_rwlock_t) : vlc_rwlock_t :=
  RWLock (rw_mutex l) (rw_wait l) n (writer l).
Definition set_writer (t : Z) (l : vlc_rwlock_t) : vlc_rwlock_t :=
  RWLock (rw_mutex l) (rw_wait l) (readers l) t.

Definition vlc_rwlock_init (p_mutex : Z) : M vlc_rwlock_t :=
  vlc_mutex_init p_mutex;;
  let! wait := vlc_cond_init in
  ret (RWLock p_mutex wait 0 0).

Definition vlc_rwlock_rdlock (lock : vlc_rwlock_t) : M rw_step :=
  if negb (writer lock =? 0) then
    assert (readers lock =? 0);;
    ret Waiting
  else if unlikely (readers lock =? ULONG_MAX) then abort
  else ret (Done (set_readers (to_DWORD (readers lock + 1)) lock)).

Definition vlc_rwlock_rdunlock (lock : vlc_rwlock_t) : M rw_step :=
  assert (0 <? readers lock);;
  let lock := set_readers (to_DWORD (readers lock - 1)) lock in
  (if readers lock =? 0 then vlc_cond_signal (rw_wait lock) else ret tt);;
  ret (Done lock).

Definition vlc_rwlock_wrlock (self : Z) (lock : vlc_rwlock_t) : M rw_step :=
  if (0 <? readers lock) || negb (writer lock =? 0) then ret Waiting
  else
    assert (writer lock =? 0);;
    ret (Done (set_writer self lock)).

Definition vlc_rwlock_wrunlock (self : Z) (lock : vlc_rwlock_t) : M rw_step :=
  assert (writer lock =? self);;
  assert (readers lock =? 0);;
  let lock := set_writer 0 lock in
  vlc_cond_broadcast (rw_wait lock);;
  ret (Done lock).

Definition vlc_rwlock_unlock (self : Z) (lock : vlc_rwlock_t) : M rw_step :=
  if negb (writer lock =? 0) then vlc_rwlock_wrunlock self lock
  else vlc_rwlock_rdunlock lock.

Inductive rw_call :=
| read_lock
| read_unlock
| write_lock
| write_unlock
| unlock.

Definition rw_exec (c : rw_call) (self : Z) (lock : vlc_rwlock_t) : M rw_step :=
  match c with
  | read_lock => vlc_rwlock_rdlock lock
  | read_unlock => vlc_rwlock_rdunlock lock
  | write_lock => vlc_rwlock_wrlock self lock
  | write_unlock => vlc_rwlock_wrunlock self lock
  | unlock => vlc_rwlock_unlock self lock
  end.

(** The states of a lock after [vlc_rwlock_init] and any number of
    operations by any threads. *)
Inductive rw_reachable : vlc_rwlock_t → Prop :=
| rw_reach_init p_mutex w lock w' :
    vlc_rwlock_init p_mutex w = Ret lock w' → rw_reachable lock
| rw_reach_step lock c self w lock' w' :
    rw_reachable lock →
    rw_exec c self lock w = Ret (Done lock') w' →
    rw_reachable lock'.

Definition rw_invariant (lock : vlc_rwlock_t) : Prop :=
  (writer lock ≠ 0 → readers lock = 0) ∧ (0 < readers lock → writer lock = 0).

End Backend.

(** ** Vocabulary of the statements *)

(** What [vlc_threadvar_get (thread_key)] yields in the calling thread. *)
Definition thread_self (w : world) : Z :=
  default NULL (tls w !! tv_id (thread_key w)).

(** The calling thread is the main thread or has a live record. *)
Definition self_ok (w : world) : Prop :=
  thread_self w = NULL ∨ is_Some (threads w !! thread_self w).

(** No cancellation can be acted upon at a cancellation point. *)
Definition not_cancelled (w : world) : Prop :=
  thread_self w = NULL
  ∨ ∃ t, threads w !! thread_self w = Some t ∧ killable t && killed t = false.

(** The mutex at [p] has been set up by [vlc_mutex_init]. *)
Definition dynamic_mutex (p : Z) (w : world) : Prop :=
  ∃ m, mutexes w !! p = Some m ∧ dynamic m = true.

(** [super_mutex] has been set up, as [DllMain] does. *)
Definition super_ready (w : world) : Prop := dynamic_mutex super_mutex w.

(** The mutex at [p] is one that the calling thread uses without
    contention: a dynamic mutex, or a static mutex with [locked] equal to
    [l] that no other thread takes or waits for. *)
Definition caller_mutex (E : environment) (l : bool) (p : Z) (w : world) : Prop :=
  ∃ m, mutexes w !! p = Some m
    ∧ (dynamic m = true
       ∨ (dynamic m = false ∧ locked m = l ∧ p ≠ super_mutex ∧ super_ready w
          ∧ ∀ n, env_static E n p = None)).

(** [readers] is an [unsigned long]. *)
Definition rw_typed (lock : vlc_rwlock_t) : Prop := 0 ≤ readers lock ≤ ULONG_MAX.

(** The ceiling of [a / b], for [0 < b]. *)
Definition ceil_div (a b : Z) : Z := - ((- a) / b).

(** The time to the first expiry that [vlc_timer_schedule] converts. *)
Definition first_fire (E : environment) (absolute : bool) (value : Z) (w : world)
  : option Z :=
  if absolute
  then (λ ts, value - Z.quot (ts mod 2 ^ 64) (Z.quot 10000000 CLOCK_FREQ))
         <$> env_ticks E (now w)
  else Some value.

(** The calls made for a cleanup stack, from its top. *)
Definition handler_calls (l : list vlc_cleanup_t) : list event :=
  map (λ c, EvCall (proc c) (cl_data c)) l.

(** The keys with a value in the slots [s] and a destructor, in the
    order of the scan. *)
Definition pending (s : gmap Z Z) (keys : list vlc_threadvar) : list vlc_threadvar :=
  filter (λ key, default NULL (s !! tv_id key) ≠ NULL ∧ destroy key ≠ NULL) keys.

(** One round of [vlc_thread_cleanup] for a key: scan under the super
    lock, release it, clear the value, call the destructor. *)
Definition drain_one (s : gmap Z Z) (key : vlc_threadvar) : list event :=
  [EvEnter super_mutex; EvLeave super_mutex;
   EvTlsSet (tv_id key) NULL true;
   EvCall (destroy key) (default NULL (s !! tv_id key))].

Definition drain_events (s : gmap Z Z) (keys : list vlc_threadvar) : list event :=
  flat_map (drain_one s) (pending s keys).

(** The destructors of the keys leave the thread's values alone. *)
Definition quiet_destructors (E : environment) (keys : list vlc_threadvar) : Prop :=
  ∀ key v s, key ∈ keys → user_code E (destroy key) v s = s.

(** The timeout and the result of each wait on the event [h] alone. *)
Definition waits_on (h : Z) (tr : list event) : list (Z * Z) :=
  omap (λ e, match e with
             | EvWait [h'] delay r => if decide (h' = h) then Some (delay, r) else None
             | _ => None
             end) tr.

(** What [mdate] returns when it uses answer [n] of the environment. *)
Definition mdate_reading (E : environment) (n : nat) : option Z :=
  (λ ts, Z.quot (ts mod 2 ^ 64) (Z.quot 10000000 CLOCK_FREQ)) <$> env_ticks E n.

(** The date read by [vlc_cond_timedwait] from answer [n] of the
    environment, on the clock of [p_condvar]. *)
Definition clock_reading (E : environment) (p_condvar : vlc_cond_t) (n : nat)
  : option Z :=
  if clock p_condvar =? CLOCK_REALTIME then Some (CLOCK_FREQ * env_time E n)
  else mdate_reading E n.

(** [deadline] is not after any date that is read from [w] on. *)
Definition deadline_passed (E : environment) (p_condvar : vlc_cond_t)
    (deadline : Z) (w : world) : Prop :=
  ∀ n t, (now w ≤ n)%nat → clock_reading E p_condvar n = Some t → deadline ≤ t.

(** The values of [mtime_t], a signed integer of 64 bits. *)
Definition INT64_MIN : Z := - 2 ^ 63.
Definition INT64_MAX : Z := 2 ^ 63 - 1.
Definition mtime_t_ok (x : Z) : Prop := INT64_MIN ≤ x ≤ INT64_MAX.

(** [deadline] and the dates that [read] gives from [w] on are values
    of [mtime_t], and so is the time from each of these dates to
    [deadline]: no subtraction [deadline - t] of the code overflows. *)
Definition no_overflow (read : nat → option Z) (deadline : Z) (w : world) : Prop :=
  mtime_t_ok deadline
  ∧ ∀ n t, (now w ≤ n)%nat → read n = Some t → mtime_t_ok t ∧ mtime_t_ok (deadline - t).

(** A step from [w] to [w'] that, when the super condition variable is
    not on the event [h], keeps the super condition variable and the
    state of [h], and does not wait on [h]. *)
Definition grows (h : Z) (w w' : world) : Prop :=
  handle (super_variable w) ≠ h →
  super_variable w' = super_variable w
  ∧ (now w ≤ now w')%nat
  ∧ events w' !! h = events w !! h
  ∧ ∃ tr, trace w' = trace w ++ tr ∧ waits_on h tr = [].

Definition quiet_on (h : Z) {A} (m : M A) : Prop :=
  ∀ w, match m w with Ret _ w' => grows h w w' | _ => True end.

(** A computation that never returns to its caller. *)
Definition no_ret {A} (m : M A) : Prop := ∀ w a w', m w ≠ Ret a w'.

(** A step that leaves everything but the mutexes, the position in the
    environment and the trace as they are. *)
Definition only_mutexes (w w' : world) : Prop :=
  events w' = events w ∧ tls w' = tls w ∧ threads w' = threads w
  ∧ vlc_threadvar_last w' = vlc_threadvar_last w
  ∧ thread_key w' = thread_key w ∧ super_variable w' = super_variable w.

(** * The rest of the back-end

    Creation and destruction of the objects, the try-lock, the deletion
    of keys, the creation and the joining of threads, the timers' life
    cycle, the other clocks and the initialisation of the library. *)

Definition TRUE : Z := 1.
Definition DLL_PROCESS_DETACH : Z := 0.
Definition DLL_PROCESS_ATTACH : Z := 1.

(** Further answers of the operating system, read like those of the
    [environment]: answer [n] is used by the [n]-th consultation. *)
Record system := System {
  sys_try : nat → Z → bool;     (* TryEnterCriticalSection: no other thread owns the section *)
  sys_thread : nat → Z;         (* _beginthreadex: the handle of the new thread, 0 on failure *)
  sys_errno : nat → Z;          (* errno after the call *)
  sys_counter : nat → option Z  (* QueryPerformanceCounter *)
}.

Definition set_thread_key (key : vlc_threadvar) (w : world) : world :=
  World (events w) (mutexes w) (tls w) (threads w) (vlc_threadvar_last w)
        key (super_variable w) (now w) (trace w).
Definition set_super_variable (c : vlc_cond_t) (w : world) : world :=
  World (events w) (mutexes w) (tls w) (threads w) (vlc_threadvar_last w)
        (thread_key w) c (now w) (trace w).

Definition set_th_id (h : Z) (t : vlc_thread) : vlc_thread :=
  Thread h (detached t) (killable t) (killed t) (cleaners t) (entry t) (data t).

#[global] Instance vlc_threadvar_eq_dec : EqDecision vlc_threadvar.
Proof. solve_decision. Defined.

(** The list of the keys without the node of [var]. *)
Fixpoint unlink (var : vlc_threadvar) (keys : list vlc_threadvar) : list vlc_threadvar :=
  match keys with
  | [] => []
  | key :: prev => if decide (key = var) then prev else key :: unlink var prev
  end.

Section Lifecycle.

Variable E : environment.
Variable Sys : system.

(** ** Mutexes: destruction and try-lock *)

(** An object that has been destroyed is no longer in the store. *)
Definition DeleteCriticalSection (p : Z) : M unit :=
  modify (set_mutexes (delete p)).

(** [TryEnterCriticalSection] succeeds when the caller owns the section
    already or no other thread does. *)
Definition TryEnterCriticalSection (p : Z) : M bool :=
  let! m := load_mutex p in
  if RecursionCount m =? 0 then
    let! n := gets now in
    modify tick;;
    if sys_try Sys n p then
      modify (set_mutexes (interfere (env_static E n)));;
      let! m := load_mutex p in
      store_mutex p (Mutex (dynamic m) (locked m) (contention m) (RecursionCount m + 1));;
      modify (log (EvEnter p));;
      ret true
    else ret false
  else
    store_mutex p (Mutex (dynamic m) (locked m) (contention m) (RecursionCount m + 1));;
    modify (log (EvEnter p));;
    ret true.

Definition vlc_mutex_destroy (p_mutex : Z) : M unit :=
  let! m := load_mutex p_mutex in
  assert (dynamic m);;
  DeleteCriticalSection p_mutex.

Definition vlc_mutex_trylock (fuel : nat) (p_mutex : Z) : M Z :=
  let! m := load_mutex p_mutex in
  if negb (dynamic m) then
    let r := EBUSY in
    assert (negb (p_mutex =? super_mutex));;
    vlc_mutex_lock E fuel super_mutex;;
    let! m := load_mutex p_mutex in
    let! r := if negb (locked m)
              then store_mutex p_mutex (set_locked true m);; ret 0
              else ret r in
    vlc_mutex_unlock E fuel super_mutex;;
    ret r
  else
    let! ok := TryEnterCriticalSection p_mutex in
    ret (if ok : bool then 0 else EBUSY).

(** ** Read/write locks: destruction *)

Definition vlc_rwlock_destroy (lock : vlc_rwlock_t) : M unit :=
  vlc_cond_destroy (rw_wait lock);;
  vlc_mutex_destroy (rw_mutex lock).

(** ** Thread-specific variables: deletion *)

Definition TlsFree (index : Z) : M unit :=
  modify (set_tls (delete index)).

(** The key is passed by value, so that [free (var)] has no counterpart. *)
Definition vlc_threadvar_delete (fuel : nat) (var : vlc_threadvar) : M unit :=
  vlc_mutex_lock E fuel super_mutex;;
  modify (set_keys (unlink var));;
  vlc_mutex_unlock E fuel super_mutex;;
  TlsFree (tv_id var).

(** ** Threads: creation and joining *)

(** The handle of a thread is a waitable object, signalled once the
    thread has ended.  The result is the handle and [errno]. *)
Definition _beginthreadex : M (Z * Z) :=
  let! n := gets now in
  modify tick;;
  let h := sys_thread Sys n in
  if h =? 0 then ret (0, sys_errno Sys n)
  else modify (set_events <[h := false]>);; ret (h, sys_errno Sys n).

(** Scheduling is not part of the state. *)
Definition SetThreadPriority (hThread priority : Z) : M unit := ret tt.
Definition ResumeThread (hThread : Z) : M unit := ret tt.

(** [p_handle] tells whether the pointer is not null; the second
    component of the result is what is stored in [*p_handle]. *)
Definition vlc_clone_attr (p_handle is_detached : bool) (entry_point arg priority : Z)
  : M (Z * option Z) :=
  let! th := malloc E in
  if unlikely (th =? NULL) then ret (ENOMEM, None)
  else
    (* th->id is set below *)
    store_thread th (Thread NULL is_detached false false [] entry_point arg);;
    let! r := _beginthreadex in
    let h := r.1 in
    if h =? 0 then
      let err := r.2 in
      free th;;
      ret (err, None)
    else
      let hThread := h in
      let! t := load_thread th in
      store_thread th (set_th_id hThread t);;
      (if negb (priority =? 0) then SetThreadPriority hThread priority else ret tt);;
      ResumeThread hThread;;
      ret (0, if p_handle then Some th else None).

Definition vlc_clone (p_handle : bool) (entry_point arg priority : Z)
  : M (Z * option Z) :=
  vlc_clone_attr p_handle false entry_point arg priority.

(** With a null [p_handle] the record's address is stored in a local
    variable of [vlc_clone_detach]. *)
Definition vlc_clone_detach (p_handle : bool) (entry_point arg priority : Z)
  : M (Z * option Z) :=
  let! r := vlc_clone_attr true true entry_point arg priority in
  ret (r.1, if p_handle then r.2 else None).

(** [do vlc_testcancel (); while (... == WAIT_IO_COMPLETION)] of [vlc_join]. *)
Fixpoint join_loop (fuel : nat) (th : Z) : M unit :=
  match fuel with
  | O => out_of_fuel
  | S fuel =>
      vlc_testcancel E fuel;;
      let! t := load_thread th in
      let! r := vlc_WaitForSingleObject E (th_id t) INFINITE in
      if r =? WAIT_IO_COMPLETION then join_loop fuel th else ret tt
  end.

(** [result] tells whether the pointer is not null; the result is what
    is stored in [*result]. *)
Definition vlc_join (fuel : nat) (th : Z) (result : bool) : M (option Z) :=
  join_loop fuel th;;
  let! t := load_thread th in
  let res := if result then Some (data t) else None in
  CloseHandle (th_id t);;
  free th;;
  ret res.

(** ** Timers: expiry and destruction *)

Definition vlc_timer_do (val : vlc_timer) (timeout : bool) : M unit :=
  let timer := val in
  assert timeout;;
  call E (func timer) (tm_data timer).

(** The timer is passed by value, so that [free (timer)] has no
    counterpart. *)
Definition vlc_timer_destroy (timer : vlc_timer) : M unit :=
  if negb (tm_handle timer =? INVALID_HANDLE_VALUE)
  then DeleteTimerQueueTimer (tm_handle timer)
  else ret tt.

(** ** Clock: the other variants of [mdate] *)

Definition lldiv (numer denom : Z) : Z * Z := (Z.quot numer denom, Z.rem numer denom).

(** The conversion for [_WIN32_WINNT < 0x0600], from a performance
    counter at [freq] counts per second. *)
Definition mdate_counter (freq counter : Z) : Z :=
  let d := lldiv counter freq in
  (d.1 * 1000000) + Z.quot (d.2 * 1000000) freq.

Definition QueryPerformanceCounter : M (option Z) :=
  let! n := gets now in
  modify tick;; ret (sys_counter Sys n).

Definition mdate_QueryPerformanceCounter (freq : Z) : M Z :=
  let! counter := QueryPerformanceCounter in
  match counter with
  | None => abort
  | Some counter => ret (mdate_counter freq counter)
  end.

(** ** Initialisation of the library *)

(** As compiled for [_WIN32_WINNT >= 0x0600], like [mdate]: without the
    call of [QueryPerformanceFrequency].  [config_lock] and [msg_lock]
    are defined elsewhere and are passed and returned here;
    [vlc_CPU_init] is defined elsewhere and touches none of the objects
    of this file. *)
Definition DllMain (fuel : nat) (fdwReason : Z) (config_lock msg_lock : vlc_rwlock_t)
  : M (Z * (vlc_rwlock_t * vlc_rwlock_t)) :=
  if fdwReason =? DLL_PROCESS_ATTACH then
    vlc_mutex_init super_mutex;;
    let! sv := vlc_cond_init E in
    modify (set_super_variable sv);;
    let! r := vlc_threadvar_create E fuel NULL in
    (match r.2 with
     | Some key => modify (set_thread_key key)
     | None => ret tt
     end);;
    let! config_lock := vlc_rwlock_init E (rw_mutex config_lock) in
    let! msg_lock := vlc_rwlock_init E (rw_mutex msg_lock) in
    ret (TRUE, (config_lock, msg_lock))
  else if fdwReason =? DLL_PROCESS_DETACH then
    vlc_rwlock_destroy msg_lock;;
    vlc_rwlock_destroy config_lock;;
    let! key := gets thread_key in
    vlc_threadvar_delete fuel key;;
    let! sv := gets super_variable in
    vlc_cond_destroy sv;;
    vlc_mutex_destroy super_mutex;;
    ret (TRUE, (config_lock, msg_lock))
  else ret (TRUE, (config_lock, msg_lock)).

End Lifecycle.

(** * The list of the keys, with its pointers

    [struct vlc_threadvar] in memory: the nodes by address, linked by
    [prev] and [next], and the variable [vlc_threadvar_last]. *)

Module KeyList.

Record node := Node {
  id : Z;
  destroy : Z;
  prev : Z;
  next : Z
}.

Record state := State {
  heap : gmap Z node;
  vlc_threadvar_last : Z
}.

Definition set_prev (p : Z) (v : node) : node := Node (id v) (destroy v) p (next v).
Definition set_next (n : Z) (v : node) : node := Node (id v) (destroy v) (prev v) n.

(** The linking of [vlc_threadvar_create], for the node [var] that
    [malloc] has returned and the index [index] of [TlsAlloc]; [None]
    stands for an access through an invalid pointer. *)
Definition vlc_threadvar_create (var index destr : Z) (s : state) : option state :=
  let h := <[var := Node index destr NULL NULL]> (heap s) in
  (* var->prev = vlc_threadvar_last *)
  let h := <[var := Node index destr (vlc_threadvar_last s) NULL]> h in
  h ← (if negb (vlc_threadvar_last s =? NULL)
       then p ← h !! vlc_threadvar_last s;
            Some (<[vlc_threadvar_last s := set_next var p]> h)
       else Some h);
  Some (State h var).

Definition vlc_threadvar_delete (var : Z) (s : state) : option state :=
  v ← heap s !! var;
  h ← (if negb (prev v =? NULL)
       then p ← heap s !! prev v;
            Some (<[prev v := set_next (next v) p]> (heap s))
       else Some (heap s));
  r ← (if negb (next v =? NULL)
       then n ← h !! next v;
            Some (<[next v := set_prev (prev v) n]> h, vlc_threadvar_last s)
       else Some (h, prev v));
  (* free (var) *)
  Some (State (delete var r.1) r.2).

(** The loop [for (key = vlc_threadvar_last; key != NULL; key = key->prev)]
    of [vlc_thread_cleanup], for at most [n] nodes. *)
Fixpoint walk (h : gmap Z node) (n : nat) (key : Z) : list Z :=
  match n with
  | O => []
  | S n =>
      if key =? NULL then []
      else match h !! key with
           | Some v => key :: walk h n (prev v)
           | None => []
           end
  end.

(** The nodes [l], from [p] along [prev], are linked in both
    directions; [nxt] is what the first one has as [next]. *)
Fixpoint linked (h : gmap Z node) (nxt : Z) (l : list Z) (p : Z) : Prop :=
  match l with
  | [] => p = NULL
  | a :: l => p = a ∧ a ≠ NULL
              ∧ ∃ v, h !! a = Some v ∧ next v = nxt ∧ linked h a l (prev v)
  end.

(** The list of the keys is [l], from the last one. *)
Definition keys (s : state) (l : list Z) : Prop :=
  linked (heap s) NULL l (vlc_threadvar_last s) ∧ NoDup l.

(** The key at an address, as [vlc_thread_cleanup] reads it. *)
Definition key_at (s : state) (a : Z) : option vlc_threadvar :=
  (λ v, Threadvar (id v) (destroy v)) <$> heap s !! a.


(** The memory after the two assignments of [vlc_threadvar_delete] and
    [free], for the node [v] at [var]. *)
Definition unlinked (var : Z) (v : node) (h : gmap Z node) : gmap Z node :=
  let h1 := if negb (prev v =? NULL)
            then match h !! prev v with
                 | Some p => <[prev v := set_next (next v) p]> h
                 | None => h
                 end
            else h in
  let h2 := if negb (next v =? NULL)
            then match h1 !! next v with
                 | Some n => <[next v := set_prev (prev v) n]> h1
                 | None => h1
                 end
            else h1 in
  delete var h2.

End KeyList.

(** ** Vocabulary of the further statements *)

(** When [m] is run in a state with [P], it returns in a state with
    [Q] and ends the thread in a state with [X]. *)
Definition triple {A} (P : world → Prop) (m : M A) (Q : A → world → Prop)
    (X : world → Prop) : Prop :=
  ∀ w, P w → match m w with Ret a w' => Q a w' | Exit w' => X w' | _ => True end.

(** The thread [th] is the calling thread and cannot be cancelled now. *)
Definition cancel_off (th : Z) (w : world) : Prop :=
  thread_self w = th
  ∧ (th = NULL ∨ ∃ t, threads w !! th = Some t ∧ killable t = false).

(** Postconditions for the end of the thread: no end, any end. *)
Definition never : world → Prop := λ _, False.
Definition anyhow : world → Prop := λ _, True.

(** The static mutex at [p] is locked. *)
Definition static_locked (p : Z) (w : world) : Prop :=
  ∃ m, mutexes w !! p = Some m ∧ dynamic m = false ∧ locked m = true.

(** The timeout that [mwait] passes to the sleep when it reads the
    date [t]. *)
Definition mwait_delay (deadline t : Z) : Z :=
  Z.min (Z.quot (deadline - t) 1000) 0x7fffffff.

(** What a run of [mwait] that returns has done: a list of sleeps, each
    after a reading of the clock before [deadline], and a last reading
    that is not before [deadline]. *)
Definition slept_until (E : environment) (deadline : Z) (w w' : world) (ds : list (Z * Z)) : Prop :=
  trace w' = trace w ++ map (λ x, EvSleep x.1 x.2) ds
  ∧ now w' = S (now w + 2 * length ds)
  ∧ (∃ t, mdate_reading E (now w + 2 * length ds) = Some t ∧ deadline ≤ t)
  ∧ ∀ (i : nat) d r, ds !! i = Some (d, r) →
      ∃ t, mdate_reading E (now w + 2 * i) = Some t ∧ t < deadline
        ∧ d = mwait_delay deadline t.

(** The timeout that [vlc_cond_timedwait] passes to the wait when it
    reads the date [t]. *)
Definition timedwait_delay (deadline t : Z) : Z :=
  Z.min (Z.max (Z.quot (deadline - t) 1000) 0) 0x7fffffff.

(** The static mutex at [p] holds [m], is not the super lock, which
    has been set up, and no other thread touches it. *)
Definition static_mutex (E : environment) (p : Z) (m : vlc_mutex_t) (w : world) : Prop :=
  mutexes w !! p = Some m ∧ dynamic m = false ∧ p ≠ super_mutex ∧ super_ready w
  ∧ ∀ n, env_static E n p = None.

(** The list [l] without the first [h]. *)
Fixpoint remove_first (h : Z) (l : list Z) : list Z :=
  match l with
  | [] => []
  | x :: l => if decide (x = h) then l else x :: remove_first h l
  end.

(** The timers that a trace has put in the timer queue and not taken
    out, from the latest. *)
Definition queue_timers (tr : list event) : list Z :=
  fold_left (λ live e,
    match e with
    | EvCreateTimer _ _ h => h :: live
    | EvDeleteTimer h => remove_first h live
    | _ => live
    end) tr [].

(** The timer of the queue that a [vlc_timer] owns. *)
Definition armed (timer : vlc_timer) : list Z :=
  if tm_handle timer =? INVALID_HANDLE_VALUE then [] else [tm_handle timer].

(** A series of calls of [vlc_timer_schedule] on one timer, each with
    [absolute], [value] and [interval]. *)
Fixpoint timer_run (E : environment) (calls : list (bool * Z * Z)) (timer : vlc_timer)
  : M vlc_timer :=
  match calls with
  | [] => ret timer
  | (absolute, value, interval) :: calls =>
      let! timer := vlc_timer_schedule E timer absolute value interval in
      timer_run E calls timer
  end.

(** What links a timer to the trace of a state: besides the [rest],
    the queue holds the timer that [timer] owns, if any. *)
Definition owns (rest : list Z) (timer : vlc_timer) (w : world) : Prop :=
  queue_timers (trace w) = armed timer ++ rest.

(** ** Example inputs *)

(** An environment in which every wait that has to block runs into its
    timeout, no other thread touches a static mutex, the clocks stand
    still, handles are allocated from 100 on, and callbacks set no
    thread-specific value. *)
Definition env0 : environment :=
  Environment (λ _, Expired) (λ _ _, None) (λ _, Some 0) (λ _, 0)
              (λ n, 100 + Z.of_nat n) (λ _ _ s, s) (λ _ _, 0).

(** As [env0], with a monotonic clock that jumps by 50 ms at its fourth
    reading. *)
Definition env_sleep : environment :=
  Environment (λ _, Expired) (λ _ _, None)
              (λ n, Some (if (n <? 3)%nat then 0 else 500000)) (λ _, 0)
              (λ n, 100 + Z.of_nat n) (λ _ _ s, s) (λ _ _, 0).

(** The main thread after [DllMain]: the super lock and its condition
    variable exist, [thread_key] is the only key and holds no thread
    record; the caller holds the dynamic mutex at address 2. *)
Definition w_main : world :=
  World {[ 99 := false ]}
        {[ super_mutex := Mutex true false 0 0; 2 := Mutex true false 0 1 ]}
        {[ 0 := NULL ]} ∅ [Threadvar 0 NULL] (Threadvar 0 NULL)
        (Cond 99 CLOCK_MONOTONIC) 0 [].

(** [w_main] with a condition variable on the event 100 that has been
    signalled and not waited for. *)
Definition w_signalled : world :=
  World {[ 99 := false; 100 := true ]}
        {[ super_mutex := Mutex true false 0 0; 2 := Mutex true false 0 1 ]}
        {[ 0 := NULL ]} ∅ [Threadvar 0 NULL] (Threadvar 0 NULL)
        (Cond 99 CLOCK_MONOTONIC) 1 [EvSetEvent 100].

(** A joinable worker thread with the record at address 500, cancelled
    while killable, with two cleanup handlers (42 pushed first, then 41)
    and three keys with destructors, of which the keys on the indexes 1
    and 3 hold a value. *)
Definition w_worker : world :=
  World {[ 99 := false ]}
        {[ super_mutex := Mutex true false 0 0 ]}
        {[ 0 := 500; 1 := 7; 2 := NULL; 3 := 9 ]}
        {[ 500 := Thread 77 false true true [Cleanup 41 1; Cleanup 42 2] 0 5 ]}
        [Threadvar 3 33; Threadvar 2 22; Threadvar 1 11; Threadvar 0 NULL]
        (Threadvar 0 NULL) (Cond 99 CLOCK_MONOTONIC) 0 [].

(** [w_main] whose caller holds the static mutex at address 3. *)
Definition w_static : world :=
  World {[ 99 := false; 100 := false ]}
        {[ super_mutex := Mutex true false 0 0; 3 := Mutex false true 0 0 ]}
        {[ 0 := NULL ]} ∅ [Threadvar 0 NULL] (Threadvar 0 NULL)
        (Cond 99 CLOCK_MONOTONIC) 1 [].

Definition timer0 : vlc_timer := Timer INVALID_HANDLE_VALUE 61 0.

(** An operating system that gives every critical section that is
    tried, starts threads with handles from 200 on, and has a
    performance counter that stands still. *)
Definition sys0 : system :=
  System (λ _ _, true) (λ n, 200 + Z.of_nat n) (λ _, EAGAIN) (λ _, Some 0).

(** As [env0], with a procedure call that cancels the thread at 500
    during every wait. *)
Definition env_cancel : environment :=
  Environment (λ _, IoCompletion 500) (λ _ _, None) (λ _, Some 0) (λ _, 0)
              (λ n, 100 + Z.of_nat n) (λ _ _ s, s) (λ _ _, 0).

(** As [env0], with handles and indexes between 100 and 1099. *)
Definition env_small : environment :=
  Environment (λ _, Expired) (λ _ _, None) (λ _, Some 0) (λ _, 0)
              (λ n, 100 + Z.of_nat (n mod 1000)) (λ _ _ s, s) (λ _ _, 0).

(** [w_worker] with the free static mutex at address 3. *)
Definition w_worker_static : world :=
  World {[ 99 := false ]}
        {[ super_mutex := Mutex true false 0 0; 3 := Mutex false false 0 0 ]}
        {[ 0 := 500; 1 := 7; 2 := NULL; 3 := 9 ]}
        {[ 500 := Thread 77 false true true [Cleanup 41 1; Cleanup 42 2] 0 5 ]}
        [Threadvar 3 33; Threadvar 2 22; Threadvar 1 11; Threadvar 0 NULL]
        (Threadvar 0 NULL) (Cond 99 CLOCK_MONOTONIC) 0 [].

(** The worker thread of [w_worker], not cancelled, which holds the
    dynamic mutex at address 2 and is about to wait on the event 100. *)
Definition w_waiting : world :=
  World {[ 99 := false; 100 := false ]}
        {[ super_mutex := Mutex true false 0 0; 2 := Mutex true false 0 1 ]}
        {[ 0 := 500; 1 := 7; 2 := NULL; 3 := 9 ]}
        {[ 500 := Thread 77 false true false [Cleanup 41 1; Cleanup 42 2] 0 5 ]}
        [Threadvar 3 33; Threadvar 2 22; Threadvar 1 11; Threadvar 0 NULL]
        (Threadvar 0 NULL) (Cond 99 CLOCK_MONOTONIC) 0 [].

(** [w_static] with the static mutex free. *)
Definition w_static_free : world :=
  World {[ 99 := false; 100 := false ]}
        {[ super_mutex := Mutex true false 0 0; 3 := Mutex false false 0 0 ]}
        {[ 0 := NULL ]} ∅ [Threadvar 0 NULL] (Threadvar 0 NULL)
        (Cond 99 CLOCK_MONOTONIC) 1 [].

(** The main thread and a joinable thread, with the record at 500 and
    the handle 77, that has ended with the result 5. *)
Definition w_joiner : world :=
  World {[ 99 := false; 77 := true ]}
        {[ super_mutex := Mutex true false 0 0 ]}
        {[ 0 := NULL ]}
        {[ 500 := Thread 77 false true false [] 0 5 ]}
        [Threadvar 0 NULL] (Threadvar 0 NULL) (Cond 99 CLOCK_MONOTONIC) 0 [].




(** The state in which the library is loaded: no object exists yet. *)
Definition w_load : world :=
  World ∅ ∅ ∅ ∅ [] (Threadvar 0 NULL) (Cond NULL CLOCK_MONOTONIC) 0 [].

(** * Properties *)

(** Unfolding of the monad and of the accessors of the state. *)
Ltac mred :=
  cbv beta iota delta [bind ret gets modify abort assert out_of_fuel likely
                       unlikely store_thread store_mutex load_thread load_mutex];
  cbn [events mutexes tls threads vlc_threadvar_last thread_key super_variable
       now trace set_events set_mutexes set_tls set_threads set_keys tick log
       negb andb orb].

(** Case analysis on the next outcome or test of a computation. *)
Ltac mcase :=
  match goal with
  | |- context [match ?x with Ret _ _ => _ | Exit _ => _ | Abort => _ | OutOfFuel => _ end] =>
      destruct x eqn:?
  | |- context [if ?b then _ else _] => destruct b eqn:?
  end; mred.

(** ** The monad *)

Lemma bind_Ret {A B} (m : M A) (k : A → M B) w a w' :
  m w = Ret a w' → bind m k w = k a w'.
Proof. unfold bind. intros ->. reflexivity. Qed.

Lemma bind_gets {A B} (f : world → A) (k : A → M B) w :
  bind (gets f) k w = k (f w) w.
Proof. reflexivity. Qed.

Lemma bind_modify {B} (f : world → world) (k : unit → M B) w :
  bind (modify f) k w = k tt (f w).
Proof. reflexivity. Qed.

Lemma bind_ret {A B} (a : A) (k : A → M B) w : bind (ret a) k w = k a w.
Proof. reflexivity. Qed.

Lemma bind_inv {A B} (m : M A) (k : A → M B) w b w'' :
  bind m k w = Ret b w'' → ∃ a w', m w = Ret a w' ∧ k a w' = Ret b w''.
Proof. unfold bind. destruct (m w); try discriminate. eauto. Qed.

(** ** Condition variables, cancellation state, keys, locks and timers *)

Section Props.
Variable E : environment.


Lemma cond_broadcast_run (c : vlc_cond_t) (w : world) :
  vlc_cond_broadcast c w =
    Ret tt (if handle c =? NULL then w
            else log (EvSetEvent (handle c))
                     (set_events (alter (λ _, true) (handle c)) w)).
Proof. unfold vlc_cond_broadcast. destruct (handle c =? NULL); reflexivity. Qed.

(** C3: [vlc_cond_signal] has the effect of [vlc_cond_broadcast] on every
    condition variable and in every state: both return at once when there
    is no event, and otherwise both set the manual-reset event, which
    wakes every waiter. *)
Theorem signal_is_broadcast (c : vlc_cond_t) (w : world) :
  vlc_cond_signal c w = vlc_cond_broadcast c w
  ∧ vlc_cond_broadcast c w =
      Ret tt (if handle c =? NULL then w
              else log (EvSetEvent (handle c))
                       (set_events (alter (λ _, true) (handle c)) w)).
Proof.
  split; [|apply cond_broadcast_run].
  unfold vlc_cond_signal. rewrite cond_broadcast_run.
  destruct (handle c =? NULL) eqn:Hh; [reflexivity|].
  unfold vlc_cond_broadcast. rewrite Hh. reflexivity.
Qed.

Lemma set_killable_restore t :
  set_killable (negb (Z.b2z (killable t) =? 0)) (set_killable false t) = t.
Proof. destruct t as [? ? [] ? ? ? ?]; reflexivity. Qed.

(** C6: [vlc_savecancel] followed at once by [vlc_restorecancel] of the
    value it returned leaves the whole state of the thread, its
    [killable] flag included, as it was; this holds for a worker thread
    in either state of cancellability and for the main thread, which has
    no thread record. *)
Theorem savecancel_restorecancel w :
  self_ok w →
  (let! state := vlc_savecancel in vlc_restorecancel state) w = Ret tt w.
Proof.
  unfold self_ok, thread_self, vlc_savecancel, vlc_restorecancel, vlc_threadvar_get,
    TlsGetValue.
  mred.
  set (th := default NULL (tls w !! tv_id (thread_key w))).
  destruct (th =? NULL) eqn:Hn.
  - intros _. mred. fold th. rewrite Hn. reflexivity.
  - intros [H0 | [t Ht]]; [rewrite H0 in Hn; discriminate|].
    rewrite Ht. mred.
    assert (Hs : (Z.b2z (killable t) =? 0) || (Z.b2z (killable t) =? 1) = true)
      by (destruct (killable t); reflexivity).
    rewrite Hs. mred. fold th. rewrite Hn. mred.
    rewrite lookup_insert_eq. mred. cbn [killable set_killable negb].
    rewrite set_killable_restore.
    destruct w; unfold set_threads; cbn in *. rewrite insert_insert_eq, insert_id by exact Ht. reflexivity.
Qed.


Lemma threadvar_create_code fuel destr w r k w' :
  vlc_threadvar_create E fuel destr w = Ret (r, k) w' → r = 0 ↔ is_Some k.
Proof.
  unfold vlc_threadvar_create. mred. repeat mcase; try discriminate;
    intros [= <- <- _]; split; eauto; try discriminate; intros [? [=]].
Qed.

(** C8: [vlc_threadvar_set] returns [ENOMEM], which is not 0, exactly
    when [TlsSetValue] succeeds, that is for a live key, and 0 exactly
    when [TlsSetValue] fails; [vlc_threadvar_create] returns 0 exactly
    when it succeeds. *)
Theorem threadvar_set_inverted (key : vlc_threadvar) (value : Z) (w : world) :
  ∃ ok w',
    TlsSetValue (tv_id key) value w = Ret ok w'
    ∧ vlc_threadvar_set key value w = Ret (if ok then ENOMEM else 0) w'
    ∧ ENOMEM ≠ 0
    ∧ (ok = true ↔ is_Some (tls w !! tv_id key))
    ∧ (∀ fuel destr w1 r k w2,
         vlc_threadvar_create E fuel destr w1 = Ret (r, k) w2 → r = 0 ↔ is_Some k).
Proof.
  unfold vlc_threadvar_set, TlsSetValue. mred.
  destruct (bool_decide (is_Some (tls w !! tv_id key))) eqn:Hok; mred;
    eexists _, _; (split; [reflexivity|]); (split; [reflexivity|]);
    (split; [discriminate|]); (split; [|apply threadvar_create_code]).
  - apply bool_decide_eq_true in Hok. tauto.
  - apply bool_decide_eq_false in Hok. split; [discriminate | tauto].
Qed.

Lemma to_DWORD_small x : 0 ≤ x < 2 ^ 32 → to_DWORD x = x.
Proof. intros. unfold to_DWORD. apply Z.mod_small. lia. Qed.

(** C10: [vlc_rwlock_rdlock] does not wrap [readers]: with [readers] at
    [ULONG_MAX] it terminates the process, and with [readers] below
    [ULONG_MAX] it neither aborts nor fails an assertion: it adds exactly
    one to [readers] when there is no writer and waits when there is
    one. *)
Theorem rdlock_no_wrap (lock : vlc_rwlock_t) (w : world) :
  0 ≤ readers lock ≤ ULONG_MAX →
  (readers lock = ULONG_MAX → vlc_rwlock_rdlock lock w = Abort)
  ∧ (readers lock < ULONG_MAX → rw_invariant lock →
     vlc_rwlock_rdlock lock w =
       Ret (if writer lock =? 0
            then Done (set_readers (readers lock + 1) lock) else Waiting) w).
Proof.
  intros Hr. unfold vlc_rwlock_rdlock, rw_invariant. mred. split.
  - intros Hmax. rewrite Hmax. destruct (writer lock =? 0); reflexivity.
  - intros Hlt [Hw _].
    destruct (writer lock =? 0) eqn:Hwz; cbn [negb].
    + assert ((readers lock =? ULONG_MAX) = false) as -> by (unfold ULONG_MAX in *; lia).
      rewrite to_DWORD_small by (unfold ULONG_MAX in *; lia). reflexivity.
    + rewrite Hw by lia. reflexivity.
Qed.


Lemma rw_exec_preserves c self lock w lock' w' :
  rw_typed lock → rw_invariant lock →
  rw_exec c self lock w = Ret (Done lock') w' →
  rw_typed lock' ∧ rw_invariant lock'.
Proof.
  unfold rw_typed, rw_invariant, ULONG_MAX. intros Ht [Hw Hr].
  destruct c; cbn [rw_exec];
    unfold vlc_rwlock_unlock, vlc_rwlock_rdlock, vlc_rwlock_rdunlock,
      vlc_rwlock_wrlock, vlc_rwlock_wrunlock, ULONG_MAX; mred;
    repeat match goal with
    | |- context [if ?b then _ else _] => destruct b eqn:?; mred
    | |- context [match vlc_cond_signal ?c ?w with _ => _ end] =>
        destruct (vlc_cond_signal c w); mred
    | |- context [match vlc_cond_broadcast ?c ?w with _ => _ end] =>
        destruct (vlc_cond_broadcast c w); mred
    end;
    try discriminate; intros [= <- _]; cbn [readers writer set_readers set_writer];
    rewrite ?to_DWORD_small by lia; lia.
Qed.

Lemma rw_init_invariant p_mutex w lock w' :
  vlc_rwlock_init E p_mutex w = Ret lock w' → rw_typed lock ∧ rw_invariant lock.
Proof.
  unfold vlc_rwlock_init. intros H.
  apply bind_inv in H as (? & ? & _ & H).
  apply bind_inv in H as (? & ? & _ & H).
  injection H as <- _. unfold rw_typed, rw_invariant, ULONG_MAX. cbn. lia.
Qed.

(** C5: in every state of a lock reached from [vlc_rwlock_init] by
    read-lock, read-unlock, write-lock, write-unlock and unlock
    operations of any threads, a writer implies no readers and readers
    imply no writer; and each operation preserves this invariant. *)
Theorem rwlock_invariant :
  (∀ lock, rw_reachable E lock → rw_invariant lock)
  ∧ (∀ c self lock w lock' w',
       0 ≤ readers lock ≤ ULONG_MAX → rw_invariant lock →
       rw_exec c self lock w = Ret (Done lock') w' → rw_invariant lock').
Proof.
  split.
  - intros lock H. enough (rw_typed lock ∧ rw_invariant lock) by tauto.
    induction H as [p w lock w' Hi | lock c self w lock' w' _ [IHt IHi] Hs].
    + eapply rw_init_invariant; eauto.
    + eapply rw_exec_preserves; eauto.
  - intros c self lock w lock' w' Ht Hi Hs.
    eapply rw_exec_preserves; eauto.
Qed.


Lemma quot_round_up v : 0 ≤ v → Z.quot (v + 999) 1000 = ceil_div v 1000.
Proof.
  intros Hv. unfold ceil_div. rewrite Z.quot_div_nonneg by lia.
  enough (- v / 1000 = - ((v + 999) / 1000)) by lia.
  symmetry. apply Z.div_unique with ((v + 999) / 1000 * 1000 - v).
  - left. pose proof (Z.mod_pos_bound (v + 999) 1000 ltac:(lia)).
    pose proof (Z.div_mod (v + 999) 1000 ltac:(lia)). lia.
  - lia.
Qed.

Lemma ceil_div_bounds v : v ≤ 1000 * ceil_div v 1000 < v + 1000.
Proof.
  unfold ceil_div.
  pose proof (Z.mod_pos_bound (- v) 1000 ltac:(lia)).
  pose proof (Z.div_mod (- v) 1000 ltac:(lia)). lia.
Qed.

(** C7 (as amended): when the time to the first expiry (the value, less
    the current date for an absolute one) and the interval are between 0
    and 1000 * (2^32 - 1) ticks, [vlc_timer_schedule] passes their
    ceilings in milliseconds to the timer queue, which are not below
    them. *)
Theorem timer_schedule_rounds_up timer absolute value interval w v :
  value ≠ 0 →
  first_fire E absolute value w = Some v →
  0 ≤ v ≤ 1000 * (2 ^ 32 - 1) →
  0 ≤ interval ≤ 1000 * (2 ^ 32 - 1) →
  env_alloc E (if absolute then S (now w) else now w) ≠ NULL →
  ∃ w' h,
    vlc_timer_schedule E timer absolute value interval w
      = Ret (Timer h (func timer) (tm_data timer)) w'
    ∧ trace w' = trace w
        ++ (if tm_handle timer =? INVALID_HANDLE_VALUE then []
            else [EvDeleteTimer (tm_handle timer)])
        ++ [EvCreateTimer (ceil_div v 1000) (ceil_div interval 1000) h]
    ∧ v ≤ 1000 * ceil_div v 1000 < v + 1000
    ∧ interval ≤ 1000 * ceil_div interval 1000 < interval + 1000.
Proof.
  intros Hnz Hff Hv Hi Hh.
  assert (Hcv : 0 ≤ ceil_div v 1000 < 2 ^ 32).
  { pose proof (ceil_div_bounds v). lia. }
  assert (Hci : 0 ≤ ceil_div interval 1000 < 2 ^ 32).
  { pose proof (ceil_div_bounds interval). lia. }
  unfold vlc_timer_schedule, DeleteTimerQueueTimer, CreateTimerQueueTimer, mdate,
    QueryUnbiasedInterruptTime, first_fire in *.
  apply Z.eqb_neq in Hnz, Hh.
  destruct absolute.
  - destruct (env_ticks E (now w)) as [ts|] eqn:Hts; [|discriminate].
    injection Hff as <-.
    destruct (tm_handle timer =? INVALID_HANDLE_VALUE) eqn:Ht; mred;
      rewrite Hnz; mred; rewrite Hts; mred; rewrite Hh; mred;
      rewrite !quot_round_up, !to_DWORD_small by lia;
      eexists _, _; (split; [reflexivity|]); mred;
      rewrite <- ?app_assoc; auto using ceil_div_bounds.
  - injection Hff as <-.
    destruct (tm_handle timer =? INVALID_HANDLE_VALUE) eqn:Ht; mred;
      rewrite Hnz; mred; rewrite Hh; mred;
      rewrite !quot_round_up, !to_DWORD_small by lia;
      eexists _, _; (split; [reflexivity|]); mred;
      rewrite <- ?app_assoc; auto using ceil_div_bounds.
Qed.

End Props.

(** ** Thread tear-down and cancellation points *)

Section Cleanup.
Variable E : environment.

Lemma interfere_dynamic f ms p m :
  ms !! p = Some m → dynamic m = true → interfere f ms !! p = Some m.
Proof.
  intros Hp Hd. unfold interfere. rewrite map_lookup_imap, Hp. cbn. rewrite Hd. reflexivity.
Qed.

Lemma interfere_untouched f ms p :
  f p = None → interfere f ms !! p = ms !! p.
Proof.
  intros Hf. unfold interfere. rewrite map_lookup_imap.
  destruct (ms !! p) as [m|]; [|reflexivity]. cbn. rewrite Hf.
  destruct (dynamic m); reflexivity.
Qed.

Lemma EnterCriticalSection_dynamic p w :
  dynamic_mutex p w →
  ∃ w', EnterCriticalSection E p w = Ret tt w'
        ∧ only_mutexes w w' ∧ trace w' = trace w ++ [EvEnter p]
        ∧ (now w ≤ now w')%nat
        ∧ (∀ q, dynamic_mutex q w → dynamic_mutex q w')
        ∧ (∀ q, q ≠ p → (∀ n, env_static E n q = None) →
                mutexes w' !! q = mutexes w !! q).
Proof.
  intros (m & Hm & Hd). unfold EnterCriticalSection. mred. rewrite Hm. mred.
  destruct (RecursionCount m =? 0); mred.
  - rewrite (interfere_dynamic _ _ _ _ Hm Hd). mred.
    eexists. split; [reflexivity|]. split; [repeat split|]. split; [reflexivity|].
    split; [cbn; lia|]. split.
    + intros q (mq & Hq & Hdq). unfold dynamic_mutex. cbn.
      destruct (decide (p = q)) as [->|Hne].
      * rewrite lookup_insert_eq. eauto.
      * rewrite lookup_insert_ne by assumption.
        rewrite (interfere_dynamic _ _ _ _ Hq Hdq). eauto.
    + intros q Hne Hq. cbn. rewrite lookup_insert_ne by congruence.
      apply interfere_untouched, Hq.
  - rewrite Hm. mred.
    eexists. split; [reflexivity|]. split; [repeat split|]. split; [reflexivity|].
    split; [cbn; lia|]. split.
    + intros q (mq & Hq & Hdq). unfold dynamic_mutex. cbn.
      destruct (decide (p = q)) as [->|Hne].
      * rewrite lookup_insert_eq. eauto.
      * rewrite lookup_insert_ne by assumption. eauto.
    + intros q Hne Hq. cbn. rewrite lookup_insert_ne by congruence. reflexivity.
Qed.

Lemma LeaveCriticalSection_dynamic p w :
  dynamic_mutex p w →
  ∃ w', LeaveCriticalSection p w = Ret tt w'
        ∧ only_mutexes w w' ∧ trace w' = trace w ++ [EvLeave p]
        ∧ now w' = now w
        ∧ (∀ q, dynamic_mutex q w → dynamic_mutex q w')
        ∧ (∀ q, q ≠ p → mutexes w' !! q = mutexes w !! q).
Proof.
  intros (m & Hm & Hd). unfold LeaveCriticalSection. mred. rewrite Hm. mred.
  eexists. split; [reflexivity|]. split; [repeat split|]. split; [reflexivity|].
  split; [reflexivity|]. split.
  - intros q (mq & Hq & Hdq). unfold dynamic_mutex. cbn.
    destruct (decide (p = q)) as [->|Hne].
    + rewrite lookup_insert_eq. eauto.
    + rewrite lookup_insert_ne by assumption. eauto.
  - intros q Hne. cbn. rewrite lookup_insert_ne by congruence. reflexivity.
Qed.

Lemma lock_dynamic fuel p w :
  dynamic_mutex p w →
  ∃ w', vlc_mutex_lock E (S fuel) p w = Ret tt w'
        ∧ only_mutexes w w' ∧ trace w' = trace w ++ [EvEnter p]
        ∧ (now w ≤ now w')%nat
        ∧ (∀ q, dynamic_mutex q w → dynamic_mutex q w')
        ∧ (∀ q, q ≠ p → (∀ n, env_static E n q = None) →
                mutexes w' !! q = mutexes w !! q).
Proof.
  intros Hs. destruct (EnterCriticalSection_dynamic p w Hs) as (w' & Hw' & ?).
  exists w'. split; [|assumption].
  destruct Hs as (m & Hm & Hd). cbn [vlc_mutex_lock]. mred.
  rewrite Hm, Hd. mred. exact Hw'.
Qed.

Lemma unlock_dynamic fuel p w :
  dynamic_mutex p w →
  ∃ w', vlc_mutex_unlock E (S fuel) p w = Ret tt w'
        ∧ only_mutexes w w' ∧ trace w' = trace w ++ [EvLeave p]
        ∧ now w' = now w
        ∧ (∀ q, dynamic_mutex q w → dynamic_mutex q w')
        ∧ (∀ q, q ≠ p → mutexes w' !! q = mutexes w !! q).
Proof.
  intros Hs. destruct (LeaveCriticalSection_dynamic p w Hs) as (w' & Hw' & ?).
  exists w'. split; [|assumption].
  destruct Hs as (m & Hm & Hd). cbn [vlc_mutex_unlock]. mred.
  rewrite Hm, Hd. mred. exact Hw'.
Qed.

Lemma lock_super fuel w :
  super_ready w →
  ∃ w', vlc_mutex_lock E (S fuel) super_mutex w = Ret tt w'
        ∧ only_mutexes w w' ∧ trace w' = trace w ++ [EvEnter super_mutex]
        ∧ super_ready w'.
Proof.
  intros Hs. destruct (lock_dynamic fuel _ w Hs) as (w' & ? & ? & ? & _ & Hd & _).
  exists w'. split; [assumption|]. split; [assumption|]. split; [assumption|].
  apply Hd. exact Hs.
Qed.

Lemma unlock_super fuel w :
  super_ready w →
  ∃ w', vlc_mutex_unlock E (S fuel) super_mutex w = Ret tt w'
        ∧ only_mutexes w w' ∧ trace w' = trace w ++ [EvLeave super_mutex]
        ∧ super_ready w'.
Proof.
  intros Hs. destruct (unlock_dynamic fuel _ w Hs) as (w' & ? & ? & ? & _ & Hd & _).
  exists w'. split; [assumption|]. split; [assumption|]. split; [assumption|].
  apply Hd. exact Hs.
Qed.

(** *** The scan of the keys *)

Lemma pending_cons s key keys :
  pending s (key :: keys) =
    if negb (default NULL (s !! tv_id key) =? NULL) && negb (destroy key =? NULL)
    then key :: pending s keys else pending s keys.
Proof.
  unfold pending. rewrite filter_cons.
  destruct (decide _) as [[H1 H2]|H];
    destruct (Z.eqb_spec (default NULL (s !! tv_id key)) NULL);
    destruct (Z.eqb_spec (destroy key) NULL); cbn; try reflexivity; tauto.
Qed.

Lemma scan_keys_spec keys w :
  scan_keys keys w =
    Ret ((λ key, (key, default NULL (tls w !! tv_id key)))
           <$> head (pending (tls w) keys)) w.
Proof.
  induction keys as [|key keys IH]; [reflexivity|].
  cbn [scan_keys]. unfold vlc_threadvar_get, TlsGetValue. mred.
  rewrite pending_cons.
  destruct (negb (default NULL (tls w !! tv_id key) =? NULL)
            && negb (destroy key =? NULL)); [reflexivity|exact IH].
Qed.

Lemma pending_insert_fresh s i v keys :
  i ∉ tv_id <$> keys → pending (<[i := v]> s) keys = pending s keys.
Proof.
  induction keys as [|key keys IH]; [reflexivity|].
  rewrite fmap_cons, not_elem_of_cons. intros [Hne Hnin].
  rewrite !pending_cons, lookup_insert_ne by congruence.
  rewrite IH by assumption. reflexivity.
Qed.

Lemma pending_elem s key keys : key ∈ pending s keys → key ∈ keys.
Proof. unfold pending. rewrite list_elem_of_filter. tauto. Qed.

Lemma pending_clear s key rest keys :
  NoDup (tv_id <$> keys) →
  pending s keys = key :: rest →
  pending (<[tv_id key := NULL]> s) keys = rest.
Proof.
  induction keys as [|k keys IH]; [discriminate|].
  rewrite fmap_cons, NoDup_cons. intros [Hnin Hnd].
  rewrite !pending_cons.
  destruct (negb (default NULL (s !! tv_id k) =? NULL) && negb (destroy k =? NULL)) eqn:Hk.
  - intros [= -> <-]. rewrite lookup_insert_eq. cbn.
    apply pending_insert_fresh. assumption.
  - intros Hp. assert (Hin : key ∈ keys).
    { apply (pending_elem s). rewrite Hp. left. }
    assert (tv_id key ≠ tv_id k).
    { intros Heq. apply Hnin. rewrite <- Heq. apply list_elem_of_fmap. eauto. }
    rewrite lookup_insert_ne, Hk by assumption. apply IH; assumption.
Qed.

Lemma pending_value s key keys :
  key ∈ pending s keys → is_Some (s !! tv_id key).
Proof.
  unfold pending. rewrite list_elem_of_filter. intros [[Hv _] _].
  destruct (s !! tv_id key); [eauto | contradiction].
Qed.

Lemma drain_events_step s key rest keys :
  NoDup (tv_id <$> keys) →
  pending s keys = key :: rest →
  drain_events s keys =
    drain_one s key ++ drain_events (<[tv_id key := NULL]> s) keys.
Proof.
  intros Hnd Hp. unfold drain_events.
  rewrite (pending_clear _ _ _ _ Hnd Hp), Hp. cbn [flat_map]. f_equal.
  assert (Hrest : ∀ k, k ∈ rest → tv_id k ≠ tv_id key).
  { intros k Hk Heq.
    assert (Hnd' : NoDup (tv_id <$> (key :: rest))).
    { rewrite <- Hp. unfold pending. apply (NoDup_fmap_2_strong tv_id).
      - intros x y Hx Hy Hxy. apply list_elem_of_filter in Hx as [_ Hx].
        apply list_elem_of_filter in Hy as [_ Hy].
        destruct (list_elem_of_lookup_1 _ _ Hx) as [i Hi].
        destruct (list_elem_of_lookup_1 _ _ Hy) as [j Hj].
        assert (i = j).
        { eapply NoDup_lookup; [exact Hnd| |]; rewrite list_lookup_fmap.
          - rewrite Hi. reflexivity.
          - rewrite Hj. cbn. congruence. }
        congruence.
      - apply NoDup_filter. eapply NoDup_fmap_1. exact Hnd. }
    rewrite fmap_cons, NoDup_cons in Hnd'. destruct Hnd' as [Hnin _].
    apply Hnin. rewrite <- Heq. apply list_elem_of_fmap. eauto. }
  clear Hp. induction rest as [|k rest IH]; [reflexivity|].
  cbn [flat_map]. rewrite IH by (intros; apply Hrest; right; assumption).
  f_equal. unfold drain_one. rewrite lookup_insert_ne; [reflexivity|].
  intros Heq. eapply Hrest; [left|]. congruence.
Qed.


Lemma threadvar_clear key w :
  is_Some (tls w !! tv_id key) →
  vlc_threadvar_set key NULL w =
    Ret ENOMEM (log (EvTlsSet (tv_id key) NULL true) (set_tls <[tv_id key := NULL]> w)).
Proof.
  intros Hs. unfold vlc_threadvar_set, TlsSetValue. mred.
  rewrite bool_decide_eq_true_2 by assumption. reflexivity.
Qed.

Lemma call_quiet keys key v w :
  quiet_destructors E keys → key ∈ keys →
  call E (destroy key) v w = Ret tt (log (EvCall (destroy key) v) w).
Proof.
  intros Hq Hin. unfold call. mred. f_equal.
  destruct w; unfold set_tls, log; cbn. rewrite (Hq key) by assumption. reflexivity.
Qed.

Lemma thread_cleanup_drains n : ∀ fuel w th t,
  super_ready w →
  threads w !! th = Some t →
  NoDup (tv_id <$> vlc_threadvar_last w) →
  quiet_destructors E (vlc_threadvar_last w) →
  length (pending (tls w) (vlc_threadvar_last w)) = n →
  (n + 2 ≤ fuel)%nat →
  ∃ w', vlc_thread_cleanup E fuel th w = Ret tt w'
    ∧ trace w' = trace w ++ drain_events (tls w) (vlc_threadvar_last w)
        ++ [EvEnter super_mutex; EvLeave super_mutex]
        ++ (if detached t then [EvCloseHandle (th_id t); EvFree th] else [])
    ∧ pending (tls w') (vlc_threadvar_last w) = []
    ∧ vlc_threadvar_last w' = vlc_threadvar_last w.
Proof.
  induction n as [|n IH]; intros fuel w th t Hs Ht Hnd Hq Hn Hf;
    (destruct fuel as [|fuel]; [lia|]);
    cbn [vlc_thread_cleanup];
    (destruct fuel as [|fuel]; [lia|]);
    destruct (lock_super fuel w Hs) as (w1 & Hl & (He1 & Htls1 & Hth1 & Hk1 & _) & Htr1 & Hs1);
    rewrite (bind_Ret _ _ _ _ _ Hl), bind_gets, Hk1;
    rewrite (bind_Ret _ _ _ _ _ (scan_keys_spec _ _)), Htls1;
    destruct (unlock_super fuel w1 Hs1)
      as (w2 & Hu & (He2 & Htls2 & Hth2 & Hk2 & _) & Htr2 & Hs2).
  - apply nil_length_inv in Hn. rewrite Hn. cbn [head fmap option_fmap option_map].
    rewrite (bind_Ret _ _ _ _ _ Hu). unfold drain_events. rewrite Hn. cbn [flat_map app].
    unfold load_thread at 1. unfold bind at 1. rewrite Hth2, Hth1, Ht.
    unfold CloseHandle, free. destruct (detached t); mred.
    + eexists. split; [reflexivity|]. mred.
      rewrite Htr2, Htr1, Htls2, Htls1, Hk2, Hk1, <- !app_assoc. auto.
    + eexists. split; [reflexivity|].
      rewrite Htr2, Htr1, Htls2, Htls1, Hk2, Hk1, <- !app_assoc. auto.
  - destruct (pending (tls w) (vlc_threadvar_last w)) as [|key rest] eqn:Hp;
      [discriminate|]. injection Hn as Hn.
    cbn [head fmap option_fmap option_map].
    rewrite (bind_Ret _ _ _ _ _ Hu).
    assert (Hin : key ∈ pending (tls w) (vlc_threadvar_last w)) by (rewrite Hp; left).
    assert (Hv : is_Some (tls w2 !! tv_id key)).
    { rewrite Htls2, Htls1. eapply pending_value; eassumption. }
    rewrite (bind_Ret _ _ _ _ _ (threadvar_clear key w2 Hv)).
    rewrite (bind_Ret _ _ _ _ _ (call_quiet _ key _ _ Hq (pending_elem _ _ _ Hin))).
    match goal with |- ∃ w', vlc_thread_cleanup _ _ _ ?w3 = _ ∧ _ => set (w3' := w3) end.
    destruct (IH (S fuel) w3' th t) as (w' & Hc & Htr & Hpe & Hk');
      subst w3'; mred; rewrite ?Hk2, ?Hk1, ?Hth2, ?Hth1, ?Htls2, ?Htls1;
      try assumption; try lia.
    + rewrite (pending_clear _ _ _ _ Hnd Hp). assumption.
    + exists w'. split; [exact Hc|].
      cbn [trace tls vlc_threadvar_last log set_tls] in Htr, Hpe, Hk'.
      rewrite Hk2, Hk1 in Htr, Hpe, Hk'. rewrite Htls2, Htls1 in Htr.
      split; [|split; assumption].
      rewrite Htr, Htr2, Htr1.
      rewrite (drain_events_step _ _ _ _ Hnd Hp). unfold drain_one.
      rewrite <- !app_assoc. reflexivity.
Qed.


Lemma pending_length s keys : (length (pending s keys) ≤ length keys)%nat.
Proof. unfold pending. apply length_filter. Qed.

(** C4: when the destructors set no thread-specific value,
    [vlc_thread_cleanup] returns, having called the destructor of each
    key that had a value and a destructor, once and in the order of the
    scan, each just after clearing the value of its key and outside the
    super lock, and a last full scan finds no value to destroy. *)
Theorem thread_cleanup_destructors fuel w th t :
  super_ready w →
  threads w !! th = Some t →
  NoDup (tv_id <$> vlc_threadvar_last w) →
  quiet_destructors E (vlc_threadvar_last w) →
  (length (vlc_threadvar_last w) + 2 ≤ fuel)%nat →
  ∃ w', vlc_thread_cleanup E fuel th w = Ret tt w'
    ∧ trace w' = trace w
        ++ flat_map (λ key, [EvEnter super_mutex; EvLeave super_mutex;
                             EvTlsSet (tv_id key) NULL true;
                             EvCall (destroy key) (default NULL (tls w !! tv_id key))])
             (pending (tls w) (vlc_threadvar_last w))
        ++ [EvEnter super_mutex; EvLeave super_mutex]
        ++ (if detached t then [EvCloseHandle (th_id t); EvFree th] else [])
    ∧ NoDup (pending (tls w) (vlc_threadvar_last w))
    ∧ (∀ key, key ∈ pending (tls w) (vlc_threadvar_last w)
         ↔ key ∈ vlc_threadvar_last w
           ∧ default NULL (tls w !! tv_id key) ≠ NULL ∧ destroy key ≠ NULL)
    ∧ scan_keys (vlc_threadvar_last w') w' = Ret None w'.
Proof.
  intros Hs Ht Hnd Hq Hf.
  pose proof (pending_length (tls w) (vlc_threadvar_last w)) as Hl.
  destruct (thread_cleanup_drains _ fuel w th t Hs Ht Hnd Hq eq_refl ltac:(lia))
    as (w' & Hc & Htr & Hp & Hk).
  exists w'. split; [exact Hc|]. split; [exact Htr|]. split; [|split].
  - unfold pending. apply NoDup_filter. eapply NoDup_fmap_1. exact Hnd.
  - intros key. unfold pending. rewrite list_elem_of_filter. tauto.
  - rewrite scan_keys_spec, Hk, Hp. reflexivity.
Qed.

(** *** Cancellation points *)

Lemma run_cleaners_spec l : ∀ w,
  ∃ w1, run_cleaners E l w = Ret tt w1
    ∧ trace w1 = trace w ++ handler_calls l
    ∧ threads w1 = threads w ∧ mutexes w1 = mutexes w
    ∧ vlc_threadvar_last w1 = vlc_threadvar_last w.
Proof.
  induction l as [|c l IH]; intros w.
  - exists w. cbn. rewrite app_nil_r. auto.
  - cbn [run_cleaners]. unfold call. mred.
    match goal with |- ∃ w1, run_cleaners _ _ ?w0 = _ ∧ _ => destruct (IH w0) as (w1 & Hr & Htr & Hth & Hm & Hk) end.
    exists w1. split; [exact Hr|]. cbn in Htr, Hth, Hm, Hk.
    rewrite Htr, <- app_assoc. auto.
Qed.

Lemma no_ret_bind {A B} (m : M A) (k : A → M B) :
  (∀ a, no_ret (k a)) → no_ret (bind m k).
Proof.
  intros Hk w b w'' H. apply bind_inv in H as (a & w' & _ & H). exact (Hk a _ _ _ H).
Qed.

Lemma no_ret_endthread {A} code : no_ret (@_endthreadex A code).
Proof. intros w a w'. discriminate. Qed.

(** The normal exit: once the entry function has returned and its
    result is stored, [vlc_entry] is [vlc_thread_cleanup] on the thread's
    record. *)
Lemma entry_teardown fuel th w t :
  threads w !! th = Some t →
  ∃ w0, vlc_entry E fuel th w = (vlc_thread_cleanup E fuel th;; ret 0) w0
    ∧ threads w0 !! th
      = Some (set_data (user_result E (entry t) (data t)) (set_killable true t)).
Proof.
  intros Ht. unfold vlc_entry, vlc_threadvar_set, TlsSetValue, call. mred.
  destruct (bool_decide (is_Some (tls w !! tv_id (thread_key w)))); mred;
    rewrite Ht; mred; rewrite lookup_insert_eq; mred;
    rewrite lookup_insert_eq; mred;
    (eexists; split; [reflexivity|]); mred; rewrite lookup_insert_eq;
    destruct t; reflexivity.
Qed.

Lemma testcancel_unfold fuel w th t :
  thread_self w = th → th ≠ NULL → threads w !! th = Some t →
  vlc_testcancel E (S fuel) w =
    (if killable t && killed t
     then run_cleaners E (cleaners t);;
          let! t := load_thread th in
          store_thread th (set_data NULL t);;
          vlc_thread_cleanup E fuel th;;
          @_endthreadex unit 0
     else ret tt) w.
Proof.
  intros Hself Hnn Ht. cbn [vlc_testcancel]. unfold vlc_threadvar_get, TlsGetValue.
  rewrite !bind_gets. fold (thread_self w). rewrite Hself.
  apply Z.eqb_neq in Hnn. rewrite Hnn.
  unfold load_thread at 1. unfold bind at 1. rewrite Ht. reflexivity.
Qed.

(** C2: for a worker thread with [killable] and [killed] set,
    [vlc_testcancel] never returns: it calls the cleanup handlers from
    the top of the stack, where [VLC_CLEANUP_PUSH] puts the latest one,
    clears [data], and continues as [vlc_thread_cleanup] and
    [_endthreadex], the tear-down of [vlc_entry]; the thread ends when
    the tear-down completes, which it does when the destructors set no
    thread-specific value.  With either flag clear it returns and leaves
    the state as it was. *)
Theorem testcancel_cancels fuel w th t (c : vlc_cleanup_t) :
  thread_self w = th → th ≠ NULL → threads w !! th = Some t →
  (killable t && killed t = true →
     (∀ a w', vlc_testcancel E (S fuel) w ≠ Ret a w')
     ∧ ∃ w1, run_cleaners E (cleaners t) w = Ret tt w1
         ∧ trace w1 = trace w ++ map (λ c, EvCall (proc c) (cl_data c)) (cleaners t)
         ∧ vlc_testcancel E (S fuel) w =
             (vlc_thread_cleanup E fuel th;; @_endthreadex unit 0)
               (set_threads <[th := set_data NULL t]> w1)
         ∧ (super_ready w → NoDup (tv_id <$> vlc_threadvar_last w) →
            quiet_destructors E (vlc_threadvar_last w) →
            (length (vlc_threadvar_last w) + 2 ≤ fuel)%nat →
            ∃ w2, vlc_thread_cleanup E fuel th (set_threads <[th := set_data NULL t]> w1)
                    = Ret tt w2
                  ∧ vlc_testcancel E (S fuel) w = Exit (log (EvEndThread 0) w2)
                  ∧ trace (log (EvEndThread 0) w2) =
                      trace w
                      ++ map (λ c, EvCall (proc c) (cl_data c)) (cleaners t)
                      ++ drain_events (tls w1) (vlc_threadvar_last w)
                      ++ [EvEnter super_mutex; EvLeave super_mutex]
                      ++ (if detached t then [EvCloseHandle (th_id t); EvFree th]
                          else [])
                      ++ [EvEndThread 0]))
  ∧ (killable t && killed t = false → vlc_testcancel E (S fuel) w = Ret tt w)
  ∧ vlc_control_cancel (VLC_CLEANUP_PUSH c) w
      = Ret tt (set_threads <[th := set_cleaners (c :: cleaners t) t]> w)
  ∧ ∃ w0, vlc_entry E fuel th w = (vlc_thread_cleanup E fuel th;; ret 0) w0.
Proof.
  intros Hself Hnn Ht.
  rewrite (testcancel_unfold fuel w th t Hself Hnn Ht).
  split; [|split; [|split]];
    [| | |destruct (entry_teardown fuel th w t Ht) as (w0 & H0 & _); eauto].
  - intros Hk. rewrite Hk. split.
    { apply no_ret_bind. intros _. apply no_ret_bind. intros t'.
      apply no_ret_bind. intros _. apply no_ret_bind. intros _. apply no_ret_endthread. }
    destruct (run_cleaners_spec (cleaners t) w) as (w1 & Hr & Htr & Hth & Hm & Hkeys).
    exists w1. split; [exact Hr|]. split; [exact Htr|].
    assert (Heq : (run_cleaners E (cleaners t);;
             let! t0 := load_thread th in
             store_thread th (set_data NULL t0);;
             vlc_thread_cleanup E fuel th;; @_endthreadex unit 0) w
            = (vlc_thread_cleanup E fuel th;; @_endthreadex unit 0)
                (set_threads <[th:=set_data NULL t]> w1)).
    { rewrite (bind_Ret _ _ _ _ _ Hr).
      unfold load_thread at 1. unfold bind at 1. rewrite Hth, Ht. reflexivity. }
    split; [exact Heq|].
    intros Hs Hnd Hq Hf. rewrite Heq.
    destruct (thread_cleanup_drains
                (length (pending (tls w1) (vlc_threadvar_last w1))) fuel
                (set_threads <[th:=set_data NULL t]> w1)
                th (set_data NULL t)) as (w2 & Hc & Htr2 & _); cbn;
      rewrite ?Hkeys; try assumption; try reflexivity.
    + destruct Hs as (m & Hm' & Hd). exists m. cbn. rewrite Hm. auto.
    + apply lookup_insert_eq.
    + pose proof (pending_length (tls w1) (vlc_threadvar_last w)). lia.
    + exists w2. split; [exact Hc|]. rewrite (bind_Ret _ _ _ _ _ Hc).
      split; [reflexivity|]. cbn in Htr2. cbn [trace log].
      rewrite Htr2, Htr, Hkeys. unfold handler_calls.
      destruct t as [? [] ? ? ? ? ?]; cbn; rewrite <- !app_assoc; reflexivity.
  - intros Hk. rewrite Hk. reflexivity.
  - unfold vlc_control_cancel, vlc_threadvar_get, TlsGetValue.
    rewrite !bind_gets. fold (thread_self w). rewrite Hself.
    apply Z.eqb_neq in Hnn. rewrite Hnn.
    unfold load_thread at 1. unfold bind at 1. rewrite Ht. reflexivity.
Qed.

(** *** Condition variables without an event *)

Lemma testcancel_not_cancelled fuel w :
  not_cancelled w → vlc_testcancel E (S fuel) w = Ret tt w.
Proof.
  intros Hc. destruct (decide (thread_self w = NULL)) as [Hn|Hn].
  - cbn [vlc_testcancel]. unfold vlc_threadvar_get, TlsGetValue.
    rewrite !bind_gets. fold (thread_self w). rewrite Hn. reflexivity.
  - destruct Hc as [Hc | (t & Ht & Hk)]; [contradiction|].
    rewrite (testcancel_unfold fuel w _ t eq_refl Hn Ht), Hk. reflexivity.
Qed.

Lemma mdate_run w t : mdate_reading E (now w) = Some t → mdate E w = Ret t (tick w).
Proof.
  unfold mdate_reading, mdate, QueryUnbiasedInterruptTime. mred.
  destruct (env_ticks E (now w)); mred; intros [= <-]. reflexivity.
Qed.

Lemma vlc_Sleep_run delay w :
  env_wait E (now w) = Expired →
  vlc_Sleep E delay w = Ret 0 (log (EvSleep delay 0) (tick w)).
Proof.
  intros He. unfold vlc_Sleep, vlc_WaitForMultipleObjects, SleepEx. cbn [Z.eqb].
  mred. rewrite He. reflexivity.
Qed.

(** When the clock does not move before the sleep and the sleep is not
    interrupted, [msleep (50000)] is one sleep of 50 milliseconds. *)
Lemma msleep_fixed_delay fuel w t0 t3 :
  not_cancelled w →
  mdate_reading E (now w) = Some t0 →
  mdate_reading E (S (now w)) = Some t0 →
  env_wait E (S (S (now w))) = Expired →
  mdate_reading E (S (S (S (now w)))) = Some t3 →
  t0 + 50000 ≤ t3 →
  ∃ w', msleep E (S (S (S (S fuel)))) 50000 w = Ret tt w'
    ∧ trace w' = trace w ++ [EvSleep 50 0].
Proof.
  intros Hc H0 H1 Hw H3 Hle.
  remember (S (S (S fuel))) as f1 eqn:Hf1. cbn [msleep].
  rewrite (bind_Ret _ _ _ _ _ (mdate_run w t0 H0)). subst f1.
  remember (S (S fuel)) as f2 eqn:Hf2. cbn [mwait].
  assert (Htc : ∀ f w1, not_cancelled w1 → vlc_testcancel E (S f) w1 = Ret tt w1)
    by (intros; apply testcancel_not_cancelled; assumption).
  subst f2. rewrite (bind_Ret _ _ _ _ _ (Htc _ (tick w) Hc)).
  remember (S fuel) as f3 eqn:Hf3. cbn [mwait_loop].
  rewrite (bind_Ret _ _ _ _ _ (mdate_run (tick w) t0 H1)).
  replace (t0 + 50000 - t0) with 50000 by lia. cbn [Z.ltb Z.compare Z.quot Z.quotrem].
  cbv zeta. unfold unlikely.
  change (Z.quot 50000 1000) with 50. cbn [Z.ltb Z.compare Pos.compare Pos.compare_cont].
  rewrite (bind_Ret _ _ _ _ _ (vlc_Sleep_run 50 (tick (tick w)) Hw)).
  subst f3.
  rewrite (bind_Ret _ _ _ _ _ (Htc _ (log (EvSleep 50 0) (tick (tick (tick w)))) Hc)).
  cbn [mwait_loop].
  match goal with
  | |- ∃ w', (let! _ := mdate E in _) ?w2 = _ ∧ _ =>
      rewrite (bind_Ret _ _ _ _ _ (mdate_run w2 t3 H3))
  end.
  assert ((0 <? t0 + 50000 - t3) = false) as -> by lia.
  eexists. split; reflexivity.
Qed.



End Cleanup.

(** ** What the core leaves alone

    The functions of the mutually recursive core, whenever they return,
    have not waited on an event [h] that is not the one of the super
    condition variable, and have left its state as it was. *)

Section Quiet.
Variable E : environment.
Variable h : Z.

Lemma waits_on_app tr1 tr2 : waits_on h (tr1 ++ tr2) = waits_on h tr1 ++ waits_on h tr2.
Proof. unfold waits_on. apply omap_app. Qed.

Lemma grows_refl w : grows h w w.
Proof.
  intros _. split; [reflexivity|]. split; [lia|]. split; [reflexivity|].
  exists []. rewrite app_nil_r. auto.
Qed.

Lemma grows_trans w1 w2 w3 : grows h w1 w2 → grows h w2 w3 → grows h w1 w3.
Proof.
  intros H12 H23 Hs. destruct (H12 Hs) as (Hsv & Hn & He & tr & Htr & Hw).
  destruct H23 as (Hsv' & Hn' & He' & tr' & Htr' & Hw'); [congruence|].
  split; [congruence|]. split; [lia|]. split; [congruence|].
  exists (tr ++ tr'). rewrite Htr', Htr, app_assoc, waits_on_app, Hw, Hw'. auto.
Qed.

Lemma quiet_ret {A} (a : A) : quiet_on h (ret a).
Proof. intros w. apply grows_refl. Qed.

Lemma quiet_gets {A} (f : world → A) : quiet_on h (gets f).
Proof. intros w. apply grows_refl. Qed.

Lemma quiet_abort {A} : quiet_on h (@abort A).
Proof. intros w. exact I. Qed.

Lemma quiet_out_of_fuel {A} : quiet_on h (@out_of_fuel A).
Proof. intros w. exact I. Qed.

Lemma quiet_assert b : quiet_on h (assert b).
Proof. destruct b; [apply quiet_ret | apply quiet_abort]. Qed.

Lemma quiet_bind {A B} (m : M A) (k : A → M B) :
  quiet_on h m → (∀ a, quiet_on h (k a)) → quiet_on h (bind m k).
Proof.
  intros Hm Hk w. unfold bind. specialize (Hm w). destruct (m w) as [a w'| | |]; auto.
  specialize (Hk a w'). destruct (k a w'); auto. eapply grows_trans; eauto.
Qed.

Lemma quiet_no_ret {A} (m : M A) : no_ret m → quiet_on h m.
Proof. intros Hn w. specialize (Hn w). destruct (m w); auto. exfalso. eapply Hn; eauto. Qed.

(** Reading the super condition variable: the continuation only has to
    be quiet for a condition variable that is not on [h]. *)
Lemma quiet_super_variable {B} (k : vlc_cond_t → M B) :
  (∀ sv, handle sv ≠ h → quiet_on h (k sv)) → quiet_on h (bind (gets super_variable) k).
Proof.
  intros Hk w. rewrite bind_gets.
  destruct (decide (handle (super_variable w) = h)) as [Heq|Hne].
  - destruct (k (super_variable w) w); auto. intros Hc. contradiction.
  - apply Hk. exact Hne.
Qed.

Lemma quiet_modify (f : world → world) :
  (∀ w, grows h w (f w)) → quiet_on h (modify f).
Proof. intros Hf w. apply Hf. Qed.

Lemma grows_intro w w' tr :
  super_variable w' = super_variable w → (now w ≤ now w')%nat →
  events w' !! h = events w !! h →
  trace w' = trace w ++ tr → waits_on h tr = [] → grows h w w'.
Proof. intros ? ? ? ? ? _. eauto 10. Qed.

Lemma grows_set_mutexes f w : grows h w (set_mutexes f w).
Proof. apply (grows_intro _ _ []); cbn; auto using app_nil_r. Qed.
Lemma grows_set_tls f w : grows h w (set_tls f w).
Proof. apply (grows_intro _ _ []); cbn; auto using app_nil_r. Qed.
Lemma grows_set_threads f w : grows h w (set_threads f w).
Proof. apply (grows_intro _ _ []); cbn; auto using app_nil_r. Qed.
Lemma grows_tick w : grows h w (tick w).
Proof. apply (grows_intro _ _ []); cbn; auto using app_nil_r. Qed.
Lemma grows_log e w : waits_on h [e] = [] → grows h w (log e w).
Proof. intros He. apply (grows_intro _ _ [e]); cbn; auto. Qed.
Lemma grows_set_events f w :
  (∀ evs, f evs !! h = evs !! h) → grows h w (set_events f w).
Proof. intros Hf. apply (grows_intro _ _ []); cbn; auto using app_nil_r. Qed.

Lemma grows_alter_event (f : bool → bool) h' w :
  h' ≠ h → grows h w (set_events (alter f h') w).
Proof. intros Hne. apply grows_set_events. intros evs. apply lookup_alter_ne, Hne. Qed.

Lemma grows_insert_event (b : bool) h' w :
  h' ≠ h → grows h w (set_events <[h' := b]> w).
Proof. intros Hne. apply grows_set_events. intros evs. apply lookup_insert_ne, Hne. Qed.

End Quiet.

Create HintDb quiet.

(** Proves [quiet_on] by following the structure of a computation. *)
Ltac quiet :=
  repeat first
    [ solve [auto with quiet]
    | apply quiet_ret | apply quiet_gets | apply quiet_abort
    | apply quiet_out_of_fuel | apply quiet_assert
    | apply quiet_modify; intros ?;
      first [ apply grows_set_mutexes | apply grows_set_tls | apply grows_set_threads
            | apply grows_tick | apply grows_log; reflexivity
            | apply grows_alter_event; solve [auto]
            | apply grows_insert_event; solve [auto] ]
    | apply quiet_no_ret;
      solve [repeat first [apply no_ret_endthread | apply no_ret_bind; intros ?]]
    | apply quiet_super_variable; intros ? ?
    | apply quiet_bind; [|intros ?]
    | match goal with
      | |- quiet_on _ (if ?b then _ else _) => destruct b
      | |- quiet_on _ (match ?x with Some _ => _ | None => _ end) => destruct x
      | |- quiet_on _ (match ?x with _ :: _ => _ | [] => _ end) => destruct x
      | |- quiet_on _ (let (_, _) := ?x in _) => destruct x
      end ].

Section QuietCode.
Variable E : environment.
Variable h : Z.

Lemma quiet_load_mutex p : quiet_on h (load_mutex p).
Proof. intros w. unfold load_mutex. destruct (mutexes w !! p); [apply grows_refl | exact I]. Qed.
Lemma quiet_load_thread p : quiet_on h (load_thread p).
Proof. intros w. unfold load_thread. destruct (threads w !! p); [apply grows_refl | exact I]. Qed.
Lemma quiet_store_mutex p m : quiet_on h (store_mutex p m).
Proof. unfold store_mutex. quiet. Qed.
Lemma quiet_store_thread p t : quiet_on h (store_thread p t).
Proof. unfold store_thread. quiet. Qed.

#[local] Hint Resolve quiet_load_mutex quiet_load_thread quiet_store_mutex quiet_store_thread : quiet.

Lemma quiet_EnterCriticalSection p : quiet_on h (EnterCriticalSection E p).
Proof. unfold EnterCriticalSection. quiet; auto with quiet. Qed.
Lemma quiet_LeaveCriticalSection p : quiet_on h (LeaveCriticalSection p).
Proof. unfold LeaveCriticalSection. quiet; auto with quiet. Qed.
Lemma quiet_SetEvent h' : h' ≠ h → quiet_on h (SetEvent h').
Proof. intros Hne. unfold SetEvent. quiet. Qed.
Lemma quiet_ResetEvent h' : h' ≠ h → quiet_on h (ResetEvent h').
Proof. intros Hne. unfold ResetEvent. quiet. Qed.
Lemma quiet_vlc_threadvar_get key : quiet_on h (vlc_threadvar_get key).
Proof. unfold vlc_threadvar_get, TlsGetValue. quiet. Qed.
Lemma quiet_vlc_cond_broadcast c : handle c ≠ h → quiet_on h (vlc_cond_broadcast c).
Proof. intros Hne. unfold vlc_cond_broadcast. quiet. Qed.

#[local] Hint Resolve quiet_EnterCriticalSection quiet_LeaveCriticalSection quiet_SetEvent
  quiet_ResetEvent quiet_vlc_threadvar_get quiet_vlc_cond_broadcast : quiet.

Lemma quiet_vlc_savecancel : quiet_on h vlc_savecancel.
Proof. unfold vlc_savecancel. quiet; auto with quiet. Qed.
Lemma quiet_vlc_restorecancel state : quiet_on h (vlc_restorecancel state).
Proof. unfold vlc_restorecancel. quiet; auto with quiet. Qed.
Lemma quiet_vlc_cancel_self self : quiet_on h (vlc_cancel_self self).
Proof. unfold vlc_cancel_self, likely. quiet; auto with quiet. Qed.
Lemma quiet_mdate : quiet_on h (mdate E).
Proof. unfold mdate, QueryUnbiasedInterruptTime. quiet. Qed.
Lemma quiet_time : quiet_on h (time E).
Proof. unfold time. quiet. Qed.

#[local] Hint Resolve quiet_vlc_savecancel quiet_vlc_restorecancel quiet_vlc_cancel_self
  quiet_mdate quiet_time : quiet.

Lemma quiet_vlc_Sleep delay : quiet_on h (vlc_Sleep E delay).
Proof.
  unfold vlc_Sleep, vlc_WaitForMultipleObjects, SleepEx, unlikely. cbn [Z.eqb].
  quiet; auto with quiet.
  all: destruct (env_wait E _); quiet; auto with quiet.
Qed.

Lemma quiet_vlc_WaitForSingleObject h' delay :
  h' ≠ h → quiet_on h (vlc_WaitForSingleObject E h' delay).
Proof.
  intros Hne.
  assert (Hlog : ∀ r, quiet_on h (modify (log (EvWait [h'] delay r)))).
  { intros r. apply quiet_modify. intros w. apply grows_log. cbn.
    destruct (decide (h' = h)); [contradiction | reflexivity]. }
  unfold vlc_WaitForSingleObject, vlc_WaitForMultipleObjects, WaitForMultipleObjectsEx,
    unlikely. cbn [Z.eqb].
  quiet; auto with quiet.
  all: try (destruct (env_wait E _) as [[|i]|[|i]|self| |];
            cbn [lookup list_lookup]; quiet; auto with quiet).
Qed.

#[local] Hint Resolve quiet_vlc_Sleep quiet_vlc_WaitForSingleObject : quiet.

(** The mutually recursive core neither waits on [h] nor destroys an
    event, whenever it returns. *)
Lemma quiet_core fuel :
  (∀ p, quiet_on h (vlc_mutex_lock E fuel p))
  ∧ (∀ p, quiet_on h (lock_wait E fuel p))
  ∧ (∀ p, quiet_on h (vlc_mutex_unlock E fuel p))
  ∧ (∀ c p, handle c ≠ h → quiet_on h (vlc_cond_wait E fuel c p))
  ∧ (∀ c p, handle c ≠ h → quiet_on h (cond_wait_loop E fuel c p))
  ∧ quiet_on h (vlc_testcancel E fuel)
  ∧ (∀ d, quiet_on h (mwait E fuel d))
  ∧ (∀ d, quiet_on h (mwait_loop E fuel d))
  ∧ (∀ d, quiet_on h (msleep E fuel d)).
Proof.
  induction fuel as [|fuel (IHlock & IHlw & IHunlock & IHcw & IHcwl & IHtc & IHmw & IHmwl & IHms)].
  { repeat split; intros; apply quiet_out_of_fuel. }
  repeat split; intros.
  - cbn [vlc_mutex_lock]. quiet; auto with quiet.
  - cbn [lock_wait]. quiet; auto with quiet.
  - cbn [vlc_mutex_unlock]. quiet; auto with quiet.
  - cbn [vlc_cond_wait]. quiet; auto with quiet.
  - cbn [cond_wait_loop]. quiet; auto with quiet.
  - cbn [vlc_testcancel]. quiet; auto with quiet.
  - cbn [mwait]. quiet; auto with quiet.
  - cbn [mwait_loop]. unfold unlikely. quiet; auto with quiet.
  - cbn [msleep]. quiet; auto with quiet.
Qed.

End QuietCode.

(** ** Timed wait *)

Section Timedwait.
Variable E : environment.

Lemma WaitForMultipleObjectsEx_single h delay w r w1 :
  WaitForMultipleObjectsEx E [h] delay w = Ret r w1 →
  (r = WAIT_OBJECT_0 ∨ r = WAIT_ABANDONED_0 ∨ r = WAIT_IO_COMPLETION
   ∨ r = WAIT_TIMEOUT ∨ r = WAIT_FAILED)
  ∧ (r ≠ WAIT_FAILED → is_Some (events w1 !! h))
  ∧ trace w1 = trace w ++ [EvWait [h] delay r]
  ∧ super_variable w1 = super_variable w ∧ (now w ≤ now w1)%nat.
Proof.
  unfold WaitForMultipleObjectsEx, vlc_cancel_self.
  cbn [existsb list_find]. mred.
  destruct (bool_decide (events w !! h = None)) eqn:Hv; mred.
  { intros [= <- <-]. mred. split; [tauto|]. split; [intros []; reflexivity|].
    repeat split; auto. }
  apply bool_decide_eq_false in Hv.
  assert (Hsome : is_Some (events w !! h))
    by (destruct (events w !! h); [eauto|contradiction]).
  destruct (decide (events w !! h = Some true)) as [Hset|Hunset]; mred.
  { intros [= <- <-]. mred. split; [tauto|]. repeat split; auto. }
  cbn [fmap option_fmap option_map]. mred.
  destruct (env_wait E (now w)) as [[|i]|[|i]|self| |];
    cbn [lookup list_lookup]; mred;
    try (intros [= <- <-]; mred; split; [tauto|];
         split; [intros Hr; try (exfalso; apply Hr; reflexivity);
                 rewrite ?lookup_insert_eq; eauto|];
         repeat split; auto; fail).
  destruct (negb (self =? NULL)); mred.
  - destruct (threads w !! self); mred; [|discriminate].
    intros [= <- <-]. mred. split; [tauto|]. repeat split; auto.
  - intros [= <- <-]. mred. split; [tauto|]. repeat split; auto.
Qed.

Lemma wait_single_inv h delay w res w' :
  vlc_WaitForSingleObject E h delay w = Ret res w' →
  (res = WAIT_OBJECT_0 ∨ res = WAIT_IO_COMPLETION ∨ res = WAIT_TIMEOUT)
  ∧ trace w' = trace w ++ [EvWait [h] delay res]
  ∧ is_Some (events w' !! h)
  ∧ super_variable w' = super_variable w ∧ (now w ≤ now w')%nat.
Proof.
  unfold vlc_WaitForSingleObject, vlc_WaitForMultipleObjects. cbn [Z.eqb].
  intros H. apply bind_inv in H as (r & w1 & Hw & H).
  apply WaitForMultipleObjectsEx_single in Hw as (Hr & Hs & Htr & Hsv & Hn).
  destruct Hr as [-> | [-> | [-> | [-> | ->]]]]; try discriminate H;
    injection H as <- <-; (split; [tauto|]);
    repeat split; auto; apply Hs; discriminate.
Qed.


Lemma quiet_Ret h {A} (m : M A) w a w' :
  quiet_on h m → m w = Ret a w' → grows h w w'.
Proof. intros Hq Hm. specialize (Hq w). rewrite Hm in Hq. exact Hq. Qed.

Lemma clock_read_inv c w total w' :
  (if clock c =? CLOCK_REALTIME
   then let! t := time E in ret (CLOCK_FREQ * t)
   else assert (clock c =? CLOCK_MONOTONIC);; mdate E) w = Ret total w' →
  clock_reading E c (now w) = Some total ∧ w' = tick w.
Proof.
  unfold clock_reading, mdate_reading, time, mdate, QueryUnbiasedInterruptTime.
  destruct (clock c =? CLOCK_REALTIME); mred.
  - intros [= <- <-]. auto.
  - destruct (clock c =? CLOCK_MONOTONIC); mred; [|discriminate].
    destruct (env_ticks E (now w)); mred; [|discriminate].
    intros [= <- <-]. auto.
Qed.

Lemma delay_passed deadline total :
  deadline ≤ total →
  (if 0x7fffffff <? (if Z.quot (deadline - total) 1000 <? 0 then 0
                     else Z.quot (deadline - total) 1000)
   then 0x7fffffff
   else if Z.quot (deadline - total) 1000 <? 0 then 0
        else Z.quot (deadline - total) 1000) = 0.
Proof.
  intros Hle.
  assert (Hq : Z.quot (deadline - total) 1000 ≤ 0).
  { apply Z.quot_le_upper_bound; lia. }
  destruct (Z.quot (deadline - total) 1000 <? 0) eqn:Hlt; [reflexivity|].
  apply Z.ltb_ge in Hlt. assert (Z.quot (deadline - total) 1000 = 0) as -> by lia.
  reflexivity.
Qed.

Lemma last_cons_Some {A} (x : A) l y : last l = Some y → last (x :: l) = Some y.
Proof. destruct l; [discriminate | auto]. Qed.

Lemma timedwait_loop_spec h c p deadline :
  handle c = h → ∀ fuel w res w',
  handle (super_variable w) ≠ h →
  timedwait_loop E fuel c p deadline w = Ret res w' →
  super_variable w' = super_variable w ∧ (now w ≤ now w')%nat
  ∧ is_Some (events w' !! h)
  ∧ (res = WAIT_OBJECT_0 ∨ res = WAIT_TIMEOUT)
  ∧ ∃ tr delay, trace w' = trace w ++ tr
      ∧ last (waits_on h tr) = Some (delay, res)
      ∧ (deadline_passed E c deadline w → Forall (λ x, x.1 = 0) (waits_on h tr)).
Proof.
  intros Hh. induction fuel as [|fuel IH]; intros w res w' Hsv H; [discriminate|].
  destruct (quiet_core E h fuel) as (Hlock & _ & Hunlock & _ & _ & Htc & _).
  cbn [timedwait_loop] in H.
  apply bind_inv in H as ([] & w1 & H1 & H).
  apply (quiet_Ret h) in H1; [|exact Htc].
  destruct (H1 Hsv) as (Hsv1 & Hn1 & He1 & tr1 & Htr1 & Hw1).
  apply bind_inv in H as (total & w2 & H2 & H).
  apply clock_read_inv in H2 as [Hclk ->]. cbv zeta in H.
  set (delay := if 0x7fffffff <? _ then _ else _) in H.
  apply bind_inv in H as ([] & w3 & H3 & H).
  apply (quiet_Ret h) in H3; [|apply Hunlock].
  destruct H3 as (Hsv3 & Hn3 & He3 & tr3 & Htr3 & Hw3); [cbn; congruence|].
  apply bind_inv in H as (result & w4 & H4 & H). rewrite Hh in H4.
  apply wait_single_inv in H4 as (Hres & Htr4 & Hs4 & Hsv4 & Hn4).
  apply bind_inv in H as ([] & w5 & H5 & H).
  apply (quiet_Ret h) in H5; [|apply Hlock].
  destruct H5 as (Hsv5 & Hn5 & He5 & tr5 & Htr5 & Hw5); [cbn in *; congruence|].
  cbn in Hsv3, Hn3, Htr3.
  assert (Htr : trace w5 = trace w ++ (tr1 ++ tr3 ++ [EvWait [h] delay result] ++ tr5)).
  { rewrite Htr5, Htr4, Htr3, Htr1, <- !app_assoc. reflexivity. }
  assert (Hwaits : waits_on h (tr1 ++ tr3 ++ [EvWait [h] delay result] ++ tr5)
                   = [(delay, result)]).
  { rewrite !waits_on_app, Hw1, Hw3, Hw5. cbn. rewrite decide_True by reflexivity.
    reflexivity. }
  assert (Hdelay : deadline_passed E c deadline w → delay = 0).
  { intros Hp. subst delay. apply delay_passed. eapply Hp; [|exact Hclk]. lia. }
  destruct (result =? WAIT_IO_COMPLETION) eqn:Hio.
  - apply IH in H as (Hsv' & Hn' & He' & Hr' & tr & d & Htr' & Hlast & Hall);
      [|congruence].
    split; [congruence|]. split; [lia|]. split; [exact He'|]. split; [exact Hr'|].
    exists ((tr1 ++ tr3 ++ [EvWait [h] delay result] ++ tr5) ++ tr), d.
    split; [rewrite Htr', Htr, <- !app_assoc; reflexivity|].
    rewrite waits_on_app, Hwaits. cbn [app]. split.
    + apply last_cons_Some. exact Hlast.
    + intros Hp. constructor; [cbn; auto|]. apply Hall.
      intros n t Hn Ht. eapply Hp; [|exact Ht]. lia.
  - injection H as <- <-.
    split; [congruence|]. split; [lia|]. split; [rewrite He5; exact Hs4|]. split.
    { destruct Hres as [-> | [-> | ->]]; auto; discriminate. }
    eexists _, delay. split; [exact Htr|]. rewrite Hwaits. split; [reflexivity|].
    intros Hp. constructor; [cbn; auto | constructor].
Qed.

Lemma timedwait_returns fuel c p deadline w r w' :
  handle c ≠ NULL →
  handle (super_variable w) ≠ handle c →
  vlc_cond_timedwait E fuel c p deadline w = Ret r w' →
  ∃ tr delay res,
    trace w' = trace w ++ tr ++ [EvResetEvent (handle c)]
    ∧ last (waits_on (handle c) tr) = Some (delay, res)
    ∧ (r = ETIMEDOUT ↔ res = WAIT_TIMEOUT)
    ∧ (r = 0 ↔ res = WAIT_OBJECT_0)
    ∧ events w' !! handle c = Some false
    ∧ (deadline_passed E c deadline w →
       Forall (λ x, x.1 = 0) (waits_on (handle c) tr)).
Proof.
  intros Hnn Hsv. unfold vlc_cond_timedwait.
  apply Z.eqb_neq in Hnn. rewrite Hnn. intros H.
  apply bind_inv in H as (res & w1 & Hl & H).
  eapply timedwait_loop_spec in Hl as (_ & _ & [b Hb] & Hres & tr & delay & Htr & Hlast & Hall);
    [|reflexivity|exact Hsv].
  unfold ResetEvent in H. mred. cbv beta iota delta [bind modify ret] in H.
  injection H as <- <-. exists tr, delay, res.
  mred. rewrite Htr, app_assoc. split; [reflexivity|]. split; [exact Hlast|].
  split; [|split; [|split; [|exact Hall]]].
  - destruct Hres as [-> | ->]; cbn; split; intros; try reflexivity; discriminate.
  - destruct Hres as [-> | ->]; cbn; split; intros; try reflexivity; discriminate.
  - rewrite lookup_alter, decide_True, Hb by reflexivity. reflexivity.
Qed.


Lemma clock_read_run c w t :
  clock c = CLOCK_REALTIME ∨ clock c = CLOCK_MONOTONIC →
  clock_reading E c (now w) = Some t →
  (if clock c =? CLOCK_REALTIME
   then let! t := time E in ret (CLOCK_FREQ * t)
   else assert (clock c =? CLOCK_MONOTONIC);; mdate E) w = Ret t (tick w).
Proof.
  unfold clock_reading, mdate_reading, time, mdate, QueryUnbiasedInterruptTime.
  intros [-> | ->]; cbn [Z.eqb CLOCK_REALTIME CLOCK_MONOTONIC Pos.eqb]; mred.
  - intros [= <-]. reflexivity.
  - destruct (env_ticks E (now w)); mred; intros [= <-]. reflexivity.
Qed.

Lemma wait_single_poll h delay w b :
  events w !! h = Some b →
  (b = false → env_wait E (now w) = Expired) →
  vlc_WaitForSingleObject E h delay w =
    Ret (if b then WAIT_OBJECT_0 else WAIT_TIMEOUT)
        (log (EvWait [h] delay (if b then WAIT_OBJECT_0 else WAIT_TIMEOUT))
             (if b then w else tick w)).
Proof.
  intros Hb Hexp.
  unfold vlc_WaitForSingleObject, vlc_WaitForMultipleObjects, WaitForMultipleObjectsEx.
  cbn [Z.eqb existsb list_find]. mred. rewrite Hb.
  rewrite bool_decide_eq_false_2 by discriminate. mred.
  destruct b.
  - rewrite decide_True by reflexivity. reflexivity.
  - rewrite decide_False by discriminate. cbn [fmap option_fmap option_map]. mred.
    rewrite Hexp by reflexivity. reflexivity.
Qed.

Lemma load_mutex_run p w m : mutexes w !! p = Some m → load_mutex p w = Ret m w.
Proof. intros H. unfold load_mutex. rewrite H. reflexivity. Qed.

Lemma load_thread_run p w t : threads w !! p = Some t → load_thread p w = Ret t w.
Proof. intros H. unfold load_thread. rewrite H. reflexivity. Qed.

(** *** Taking and releasing the caller's mutex without contention *)

Lemma unlock_caller_mutex fuel p w :
  caller_mutex E true p w →
  ∃ w', vlc_mutex_unlock E (S (S fuel)) p w = Ret tt w'
    ∧ caller_mutex E false p w'
    ∧ tls w' = tls w ∧ threads w' = threads w ∧ thread_key w' = thread_key w.
Proof.
  intros (m & Hm & [Hd | (Hd & Hl & Hne & Hs & Hst)]).
  - destruct (unlock_dynamic E (S fuel) p w) as (w' & Hu & Ho & _ & _ & Hdyn & _);
      [exists m; auto|].
    destruct Ho as (_ & ? & ? & _ & ? & _).
    exists w'. split; [exact Hu|]. split; [|auto].
    destruct (Hdyn p) as (m' & Hm' & Hd'); [exists m; auto|]. exists m'. auto.
  - remember (S fuel) as f eqn:Hf. cbn [vlc_mutex_unlock]. subst f.
    rewrite (bind_Ret _ _ _ _ _ (load_mutex_run _ _ _ Hm)), Hd. cbn [negb].
    assert ((p =? super_mutex) = false) as -> by (apply Z.eqb_neq; exact Hne).
    cbn [negb assert]. rewrite bind_ret.
    destruct (lock_dynamic E fuel super_mutex w Hs)
      as (w1 & Hlk & (He1 & Htls1 & Hth1 & _ & Hk1 & Hsv1) & _ & _ & Hdyn1 & Hfr1).
    rewrite (bind_Ret _ _ _ _ _ Hlk).
    assert (Hm1 : mutexes w1 !! p = Some m) by (rewrite (Hfr1 p Hne Hst); exact Hm).
    rewrite (bind_Ret _ _ _ _ _ (load_mutex_run _ _ _ Hm1)), Hl. cbn [assert].
    rewrite bind_ret. unfold store_mutex. rewrite bind_modify.
    set (w2 := set_mutexes <[p:=set_locked false m]> w1).
    assert (Hs2 : ∀ w2', mutexes w2' = mutexes w2 → super_ready w2').
    { intros w2' Heq. destruct (Hdyn1 _ Hs) as (ms & Hms & Hds). exists ms.
      rewrite Heq. subst w2. cbn. rewrite lookup_insert_ne by assumption. auto. }
    assert (Hbc : ∃ w2', (if negb (contention m =? 0)
                          then let! sv := gets super_variable in vlc_cond_broadcast sv
                          else ret tt) w2 = Ret tt w2'
                  ∧ mutexes w2' = mutexes w2 ∧ tls w2' = tls w2
                  ∧ threads w2' = threads w2 ∧ thread_key w2' = thread_key w2).
    { destruct (negb (contention m =? 0)); [|exists w2; auto].
      rewrite bind_gets, cond_broadcast_run.
      destruct (handle (super_variable w2) =? NULL); eexists; split; reflexivity || auto. }
    destruct Hbc as (w2' & Hbc & Hm2 & Htls2 & Hth2 & Hk2).
    rewrite (bind_Ret _ _ _ _ _ Hbc).
    destruct (unlock_dynamic E fuel super_mutex w2' (Hs2 _ Hm2))
      as (w3 & Hu & (_ & Htls3 & Hth3 & _ & Hk3 & _) & _ & _ & Hdyn3 & Hfr3).
    exists w3. split; [exact Hu|]. split.
    + exists (set_locked false m). rewrite (Hfr3 p Hne), Hm2. subst w2. cbn.
      rewrite lookup_insert_eq. split; [reflexivity|]. right.
      repeat split; auto. apply Hdyn3, Hs2, Hm2.
    + rewrite Htls3, Hth3, Hk3, Htls2, Hth2, Hk2. subst w2. cbn. auto.
Qed.

Lemma savecancel_returns w :
  self_ok w →
  ∃ canc w1, vlc_savecancel w = Ret canc w1
    ∧ (canc = 0 ∨ canc = 1)
    ∧ mutexes w1 = mutexes w ∧ tls w1 = tls w ∧ thread_key w1 = thread_key w
    ∧ (thread_self w = NULL
       ∨ ∃ t, threads w1 !! thread_self w = Some t ∧ killable t = false).
Proof.
  intros Hself. unfold vlc_savecancel, vlc_threadvar_get, TlsGetValue.
  rewrite !bind_gets. fold (thread_self w).
  destruct (thread_self w =? NULL) eqn:Hn.
  - apply Z.eqb_eq in Hn. exists 0, w. auto 10.
  - destruct Hself as [Hz | [t Ht]]; [rewrite Hz in Hn; discriminate|].
    rewrite (bind_Ret _ _ _ _ _ (load_thread_run _ _ _ Ht)).
    unfold store_thread. cbv zeta. rewrite bind_modify.
    eexists _, _. split; [reflexivity|]. split; [destruct (killable t); auto|].
    cbn. repeat split. right. exists (set_killable false t).
    rewrite lookup_insert_eq. auto.
Qed.

Lemma restorecancel_returns canc w :
  canc = 0 ∨ canc = 1 →
  thread_self w = NULL ∨ (∃ t, threads w !! thread_self w = Some t ∧ killable t = false) →
  ∃ w', vlc_restorecancel canc w = Ret tt w'.
Proof.
  intros Hc Hself. unfold vlc_restorecancel, vlc_threadvar_get, TlsGetValue.
  rewrite !bind_gets. fold (thread_self w).
  assert (((canc =? 0) || (canc =? 1)) = true) as -> by (destruct Hc; subst; reflexivity).
  cbn [assert]. rewrite bind_ret.
  destruct (thread_self w =? NULL) eqn:Hn; [exists w; reflexivity|].
  destruct Hself as [Hz | (t & Ht & Hk)]; [rewrite Hz in Hn; discriminate|].
  rewrite (bind_Ret _ _ _ _ _ (load_thread_run _ _ _ Ht)), Hk. cbn [negb assert].
  rewrite bind_ret. eexists. reflexivity.
Qed.

Lemma lock_caller_mutex fuel p w :
  caller_mutex E false p w →
  self_ok w →
  ∃ w', vlc_mutex_lock E (S (S fuel)) p w = Ret tt w'.
Proof.
  intros (m & Hm & [Hd | (Hd & Hl & Hne & Hs & Hst)]) Hself.
  - destruct (lock_dynamic E (S fuel) p w) as (w' & Hu & _); [exists m; auto|].
    exists w'. exact Hu.
  - remember (S fuel) as f eqn:Hf. cbn [vlc_mutex_lock]. subst f.
    rewrite (bind_Ret _ _ _ _ _ (load_mutex_run _ _ _ Hm)), Hd. cbn [negb].
    destruct (savecancel_returns w Hself)
      as (canc & w1 & Hsc & Hcanc & Hm1 & Htls1 & Hk1 & Hth1).
    rewrite (bind_Ret _ _ _ _ _ Hsc).
    assert ((p =? super_mutex) = false) as -> by (apply Z.eqb_neq; exact Hne).
    cbn [negb assert]. rewrite bind_ret.
    assert (Hs1 : super_ready w1).
    { destruct Hs as (ms & Hms & Hds). exists ms. rewrite Hm1. auto. }
    destruct (lock_dynamic E fuel super_mutex w1 Hs1)
      as (w2 & Hlk & (_ & Htls2 & Hth2 & _ & Hk2 & _) & _ & _ & Hdyn2 & Hfr2).
    rewrite (bind_Ret _ _ _ _ _ Hlk).
    assert (Hm2 : mutexes w2 !! p = Some m)
      by (rewrite (Hfr2 p Hne Hst), Hm1; exact Hm).
    assert (Hlw : lock_wait E (S fuel) p w2 = Ret tt w2).
    { cbn [lock_wait]. rewrite (bind_Ret _ _ _ _ _ (load_mutex_run _ _ _ Hm2)), Hl.
      reflexivity. }
    rewrite (bind_Ret _ _ _ _ _ Hlw).
    rewrite (bind_Ret _ _ _ _ _ (load_mutex_run _ _ _ Hm2)).
    unfold store_mutex. rewrite bind_modify.
    set (w3 := set_mutexes <[p:=set_locked true m]> w2).
    assert (Hs3 : super_ready w3).
    { destruct (Hdyn2 _ Hs1) as (ms & Hms & Hds). exists ms.
      subst w3. cbn. rewrite lookup_insert_ne by assumption. auto. }
    destruct (unlock_dynamic E fuel super_mutex w3 Hs3)
      as (w4 & Hu & (_ & Htls4 & Hth4 & _ & Hk4 & _) & _).
    rewrite (bind_Ret _ _ _ _ _ Hu).
    apply restorecancel_returns; [exact Hcanc|].
    assert (Hself4 : thread_self w4 = thread_self w).
    { unfold thread_self. rewrite Htls4, Hk4. subst w3. cbn.
      rewrite Htls2, Hk2, Htls1, Hk1. reflexivity. }
    rewrite Hself4, Hth4. subst w3. cbn. rewrite Hth2. exact Hth1.
Qed.

(** *** A poll *)

Lemma timedwait_loop_polls fuel c p deadline w b t :
  handle (super_variable w) ≠ handle c →
  events w !! handle c = Some b →
  caller_mutex E true p w →
  not_cancelled w →
  clock c = CLOCK_REALTIME ∨ clock c = CLOCK_MONOTONIC →
  clock_reading E c (now w) = Some t →
  deadline ≤ t →
  (b = false → ∀ n, (now w < n)%nat → env_wait E n = Expired) →
  ∃ w' tr, timedwait_loop E (S (S (S fuel))) c p deadline w
             = Ret (if b then WAIT_OBJECT_0 else WAIT_TIMEOUT) w'
    ∧ trace w' = trace w ++ tr
    ∧ waits_on (handle c) tr = [(0, if b then WAIT_OBJECT_0 else WAIT_TIMEOUT)]
    ∧ events w' !! handle c = Some b.
Proof.
  intros Hsv Hb Hp Hc Hclk Hread Hle Hexp.
  destruct (quiet_core E (handle c) (S (S fuel))) as (Hqlock & _ & Hqunlock & _).
  remember (S (S fuel)) as fuel' eqn:Hfuel. cbn [timedwait_loop].
  assert (Htc : vlc_testcancel E fuel' w = Ret tt w)
    by (subst fuel'; apply testcancel_not_cancelled, Hc).
  rewrite (bind_Ret _ _ _ _ _ Htc).
  rewrite (bind_Ret _ _ _ _ _ (clock_read_run c w t Hclk Hread)).
  cbv beta zeta. rewrite (delay_passed _ _ Hle).
  assert (Hp1 : caller_mutex E true p (tick w)) by exact Hp.
  destruct (unlock_caller_mutex fuel p (tick w) Hp1)
    as (w3 & Hu & Hp3 & Htls3 & Hth3 & Hk3).
  rewrite <- Hfuel in Hu. rewrite (bind_Ret _ _ _ _ _ Hu).
  destruct (quiet_Ret _ _ _ _ _ (Hqunlock p) Hu)
    as (Hsv3 & Hn3 & He3 & tr3 & Htr3 & Hw3); [exact Hsv|].
  cbn in Hsv3, Hn3, He3, Htr3.
  assert (Hb3 : events w3 !! handle c = Some b) by (rewrite He3; exact Hb).
  assert (Hexp3 : b = false → env_wait E (now w3) = Expired)
    by (intros Hbf; apply Hexp; [exact Hbf | lia]).
  rewrite (bind_Ret _ _ _ _ _ (wait_single_poll _ 0 w3 b Hb3 Hexp3)).
  set (res := if b then WAIT_OBJECT_0 else WAIT_TIMEOUT).
  set (w4 := log (EvWait [handle c] 0 res) (if b then w3 else tick w3)).
  assert (Hw4 : mutexes w4 = mutexes w3 ∧ tls w4 = tls w3 ∧ threads w4 = threads w3
                ∧ thread_key w4 = thread_key w3
                ∧ super_variable w4 = super_variable w3
                ∧ events w4 = events w3 ∧ trace w4 = trace w3 ++ [EvWait [handle c] 0 res])
    by (subst w4; destruct b; cbn; auto 10).
  destruct Hw4 as (Hm4 & Htls4 & Hth4 & Hk4 & Hsv4 & He4 & Htr4).
  destruct (lock_caller_mutex fuel p w4) as (w5 & Hl).
  { destruct Hp3 as (m & Hm & Hcases). exists m. rewrite Hm4. split; [exact Hm|].
    destruct Hcases as [?|(? & ? & ? & (ms & Hms & Hds) & ?)]; [auto|].
    right. repeat split; auto. exists ms. rewrite Hm4. auto. }
  { unfold self_ok, thread_self. rewrite Htls4, Hth4, Hk4, Htls3, Hth3, Hk3.
    cbn. destruct Hc as [Hc | (t0 & Ht0 & _)]; [left | right]; eauto. }
  rewrite <- Hfuel in Hl. rewrite (bind_Ret _ _ _ _ _ Hl).
  destruct (quiet_Ret _ _ _ _ _ (Hqlock p) Hl)
    as (_ & _ & He5 & tr5 & Htr5 & Hw5); [congruence|].
  assert (Hio : (res =? WAIT_IO_COMPLETION) = false) by (subst res; destruct b; reflexivity).
  rewrite Hio. exists w5, (tr3 ++ [EvWait [handle c] 0 res] ++ tr5).
  split; [reflexivity|]. split; [|split].
  - rewrite Htr5, Htr4, Htr3, <- !app_assoc. reflexivity.
  - rewrite !waits_on_app, Hw3, Hw5. cbn. rewrite decide_True by reflexivity. reflexivity.
  - rewrite He5, He4. exact Hb3.
Qed.

Lemma timedwait_polls fuel c p deadline w b t :
  handle c ≠ NULL →
  handle (super_variable w) ≠ handle c →
  events w !! handle c = Some b →
  caller_mutex E true p w →
  not_cancelled w →
  clock c = CLOCK_REALTIME ∨ clock c = CLOCK_MONOTONIC →
  clock_reading E c (now w) = Some t →
  deadline ≤ t →
  (b = false → ∀ n, (now w < n)%nat → env_wait E n = Expired) →
  (3 ≤ fuel)%nat →
  ∃ w' tr, vlc_cond_timedwait E fuel c p deadline w
             = Ret (if b then 0 else ETIMEDOUT) w'
    ∧ trace w' = trace w ++ tr ++ [EvResetEvent (handle c)]
    ∧ waits_on (handle c) tr = [(0, if b then WAIT_OBJECT_0 else WAIT_TIMEOUT)]
    ∧ events w' !! handle c = Some false.
Proof.
  intros Hnn Hsv Hb Hp Hc Hclk Hread Hle Hexp Hf.
  destruct fuel as [|[|[|fuel]]]; [lia|lia|lia|].
  destruct (timedwait_loop_polls fuel c p deadline w b t Hsv Hb Hp Hc Hclk Hread Hle Hexp)
    as (w5 & tr & Hl & Htr & Hw & He).
  unfold vlc_cond_timedwait. apply Z.eqb_neq in Hnn. rewrite Hnn.
  rewrite (bind_Ret _ _ _ _ _ Hl). unfold ResetEvent. mred.
  eexists _, tr. split; [destruct b; reflexivity|]. mred. split; [|split].
  - rewrite Htr, <- !app_assoc. reflexivity.
  - exact Hw.
  - rewrite lookup_alter, decide_True, He by reflexivity. reflexivity.
Qed.

Lemma timedwait_delay_run deadline total :
  (if 0x7fffffff <? (if Z.quot (deadline - total) 1000 <? 0 then 0
                     else Z.quot (deadline - total) 1000)
   then 0x7fffffff
   else if Z.quot (deadline - total) 1000 <? 0 then 0
        else Z.quot (deadline - total) 1000) = timedwait_delay deadline total.
Proof.
  unfold timedwait_delay.
  destruct (Z.ltb_spec (Z.quot (deadline - total) 1000) 0);
    destruct (Z.ltb_spec 0x7fffffff (Z.quot (deadline - total) 1000));
    try destruct (Z.ltb_spec 0x7fffffff 0); lia.
Qed.

(** *** One wait *)

Lemma wait_single_once h delay w b :
  events w !! h = Some b →
  (b = false → env_wait E (now w) = Expired ∨ env_wait E (now w) = Signalled 0) →
  ∃ res w', vlc_WaitForSingleObject E h delay w = Ret res w'
    ∧ (res = WAIT_OBJECT_0 ∨ res = WAIT_TIMEOUT)
    ∧ (b = true → res = WAIT_OBJECT_0)
    ∧ (b = false → (res = WAIT_TIMEOUT ↔ env_wait E (now w) = Expired))
    ∧ mutexes w' = mutexes w ∧ tls w' = tls w ∧ threads w' = threads w
    ∧ thread_key w' = thread_key w ∧ super_variable w' = super_variable w
    ∧ is_Some (events w' !! h)
    ∧ trace w' = trace w ++ [EvWait [h] delay res].
Proof.
  intros Hb Hans.
  unfold vlc_WaitForSingleObject, vlc_WaitForMultipleObjects, WaitForMultipleObjectsEx.
  cbn [Z.eqb existsb list_find]. mred. rewrite Hb.
  rewrite bool_decide_eq_false_2 by discriminate. mred.
  destruct b.
  - rewrite decide_True by reflexivity. mred.
    eexists _, _. split; [reflexivity|]. mred. rewrite Hb.
    split; [auto|]. split; [auto|]. split; [discriminate|]. eauto 10.
  - rewrite decide_False by discriminate. cbn [fmap option_fmap option_map]. mred.
    destruct (Hans eq_refl) as [He | He]; rewrite He; cbn [lookup list_lookup]; mred.
    + eexists _, _. split; [reflexivity|]. mred. rewrite Hb.
      split; [auto|]. split; [discriminate|]. split; [tauto|]. eauto 10.
    + eexists _, _. split; [reflexivity|]. mred. rewrite lookup_insert_eq.
      split; [auto|]. split; [discriminate|].
      split; [intros _; split; discriminate|]. eauto 10.
Qed.

Lemma timedwait_loop_once fuel c p deadline w b t :
  handle (super_variable w) ≠ handle c →
  events w !! handle c = Some b →
  caller_mutex E true p w →
  not_cancelled w →
  clock c = CLOCK_REALTIME ∨ clock c = CLOCK_MONOTONIC →
  clock_reading E c (now w) = Some t →
  (b = false → ∀ n, (now w < n)%nat → env_wait E n = Expired ∨ env_wait E n = Signalled 0) →
  ∃ res w' tr, timedwait_loop E (S (S (S fuel))) c p deadline w = Ret res w'
    ∧ trace w' = trace w ++ tr
    ∧ waits_on (handle c) tr = [(timedwait_delay deadline t, res)]
    ∧ (res = WAIT_OBJECT_0 ∨ res = WAIT_TIMEOUT)
    ∧ (b = true → res = WAIT_OBJECT_0)
    ∧ (b = false → ∃ n, (now w < n)%nat ∧ (res = WAIT_TIMEOUT ↔ env_wait E n = Expired))
    ∧ is_Some (events w' !! handle c).
Proof.
  intros Hsv Hb Hp Hc Hclk Hread Hans.
  destruct (quiet_core E (handle c) (S (S fuel))) as (Hqlock & _ & Hqunlock & _).
  remember (S (S fuel)) as fuel' eqn:Hfuel. cbn [timedwait_loop].
  assert (Htc : vlc_testcancel E fuel' w = Ret tt w)
    by (subst fuel'; apply testcancel_not_cancelled, Hc).
  rewrite (bind_Ret _ _ _ _ _ Htc).
  rewrite (bind_Ret _ _ _ _ _ (clock_read_run c w t Hclk Hread)).
  cbv beta zeta. rewrite (timedwait_delay_run deadline t).
  assert (Hp1 : caller_mutex E true p (tick w)) by exact Hp.
  destruct (unlock_caller_mutex fuel p (tick w) Hp1)
    as (w3 & Hu & Hp3 & Htls3 & Hth3 & Hk3).
  rewrite <- Hfuel in Hu. rewrite (bind_Ret _ _ _ _ _ Hu).
  destruct (quiet_Ret _ _ _ _ _ (Hqunlock p) Hu)
    as (Hsv3 & Hn3 & He3 & tr3 & Htr3 & Hw3); [exact Hsv|].
  cbn in Hsv3, Hn3, He3, Htr3.
  assert (Hb3 : events w3 !! handle c = Some b) by (rewrite He3; exact Hb).
  assert (Hans3 : b = false →
                  env_wait E (now w3) = Expired ∨ env_wait E (now w3) = Signalled 0)
    by (intros Hbf; apply Hans; [exact Hbf | lia]).
  destruct (wait_single_once (handle c) (timedwait_delay deadline t) w3 b Hb3 Hans3)
    as (res & w4 & Hwait & Hres & Hset & Hexp & Hm4 & Htls4 & Hth4 & Hk4 & Hsv4 & He4 & Htr4).
  rewrite (bind_Ret _ _ _ _ _ Hwait).
  destruct (lock_caller_mutex fuel p w4) as (w5 & Hl).
  { destruct Hp3 as (m & Hm & Hcases). exists m. rewrite Hm4. split; [exact Hm|].
    destruct Hcases as [?|(? & ? & ? & (ms & Hms & Hds) & ?)]; [auto|].
    right. repeat split; auto. exists ms. rewrite Hm4. auto. }
  { unfold self_ok, thread_self. rewrite Htls4, Hth4, Hk4, Htls3, Hth3, Hk3.
    cbn. destruct Hc as [Hc | (t0 & Ht0 & _)]; [left | right]; eauto. }
  rewrite <- Hfuel in Hl. rewrite (bind_Ret _ _ _ _ _ Hl).
  destruct (quiet_Ret _ _ _ _ _ (Hqlock p) Hl)
    as (_ & _ & He5 & tr5 & Htr5 & Hw5); [congruence|].
  assert (Hio : (res =? WAIT_IO_COMPLETION) = false)
    by (destruct Hres as [-> | ->]; reflexivity).
  rewrite Hio.
  exists res, w5, (tr3 ++ [EvWait [handle c] (timedwait_delay deadline t) res] ++ tr5).
  split; [reflexivity|]. split; [|split; [|split; [exact Hres|split; [exact Hset|split]]]].
  - rewrite Htr5, Htr4, Htr3, <- !app_assoc. reflexivity.
  - rewrite !waits_on_app, Hw3, Hw5. cbn. rewrite decide_True by reflexivity. reflexivity.
  - intros Hbf. exists (now w3). split; [lia | exact (Hexp Hbf)].
  - rewrite He5. exact He4.
Qed.

Lemma timedwait_once fuel c p deadline w b t :
  handle c ≠ NULL →
  handle (super_variable w) ≠ handle c →
  events w !! handle c = Some b →
  caller_mutex E true p w →
  not_cancelled w →
  clock c = CLOCK_REALTIME ∨ clock c = CLOCK_MONOTONIC →
  clock_reading E c (now w) = Some t →
  (b = false → ∀ n, (now w < n)%nat → env_wait E n = Expired ∨ env_wait E n = Signalled 0) →
  (3 ≤ fuel)%nat →
  ∃ r w' tr res, vlc_cond_timedwait E fuel c p deadline w = Ret r w'
    ∧ trace w' = trace w ++ tr ++ [EvResetEvent (handle c)]
    ∧ waits_on (handle c) tr = [(timedwait_delay deadline t, res)]
    ∧ (r = ETIMEDOUT ↔ res = WAIT_TIMEOUT)
    ∧ (r = 0 ↔ res = WAIT_OBJECT_0)
    ∧ (b = true → res = WAIT_OBJECT_0)
    ∧ (b = false → ∃ n, (now w < n)%nat ∧ (res = WAIT_TIMEOUT ↔ env_wait E n = Expired))
    ∧ events w' !! handle c = Some false.
Proof.
  intros Hnn Hsv Hb Hp Hc Hclk Hread Hans Hf.
  destruct fuel as [|[|[|fuel]]]; [lia|lia|lia|].
  destruct (timedwait_loop_once fuel c p deadline w b t Hsv Hb Hp Hc Hclk Hread Hans)
    as (res & w5 & tr & Hl & Htr & Hw & Hres & Hset & Hexp & [x He]).
  unfold vlc_cond_timedwait. apply Z.eqb_neq in Hnn. rewrite Hnn.
  rewrite (bind_Ret _ _ _ _ _ Hl). unfold ResetEvent. mred.
  eexists _, _, tr, res. split; [reflexivity|]. mred. split; [|split; [exact Hw|]].
  { rewrite Htr, <- !app_assoc. reflexivity. }
  split; [|split; [|split; [exact Hset|split; [exact Hexp|]]]].
  - destruct Hres as [-> | ->]; cbn; split; intros; try reflexivity; discriminate.
  - destruct Hres as [-> | ->]; cbn; split; intros; try reflexivity; discriminate.
  - rewrite lookup_alter, decide_True, He by reflexivity. reflexivity.
Qed.

(** C1 (as amended): on a condition variable with a wake event, for a
    deadline and dates whose difference does not overflow,
    [vlc_cond_timedwait] returns [ETIMEDOUT] exactly when the last wait
    on the event reported [WAIT_TIMEOUT] and 0 exactly when it reported
    [WAIT_OBJECT_0], and it has cleared the wake flag when it returns;
    with a deadline in the past every wait on the event is a poll with a
    zero timeout.  Such a poll does not always time out: for a caller
    that holds the mutex without contention and has no cancellation to
    act upon, the call returns after one poll, with [ETIMEDOUT] when the
    flag is not set and the poll expires, and with 0 when the flag is
    already set.  For such a caller and any deadline, when the wait is
    not interrupted, the call returns after one wait for the time left
    to the deadline: with [ETIMEDOUT] exactly when the wait expires,
    and with 0 when the flag is set already or is set during the wait. *)
Theorem timedwait_result fuel c p deadline w :
  handle c ≠ NULL →
  handle (super_variable w) ≠ handle c →
  no_overflow (clock_reading E c) deadline w →
  (∀ r w', vlc_cond_timedwait E fuel c p deadline w = Ret r w' →
     ∃ tr delay res,
       trace w' = trace w ++ tr ++ [EvResetEvent (handle c)]
       ∧ last (waits_on (handle c) tr) = Some (delay, res)
       ∧ (r = ETIMEDOUT ↔ res = WAIT_TIMEOUT)
       ∧ (r = 0 ↔ res = WAIT_OBJECT_0)
       ∧ events w' !! handle c = Some false
       ∧ (deadline_passed E c deadline w →
          Forall (λ x, x.1 = 0) (waits_on (handle c) tr)))
  ∧ (∀ b t,
       events w !! handle c = Some b →
       caller_mutex E true p w →
       not_cancelled w →
       clock c = CLOCK_REALTIME ∨ clock c = CLOCK_MONOTONIC →
       clock_reading E c (now w) = Some t →
       deadline ≤ t →
       (b = false → ∀ n, (now w < n)%nat → env_wait E n = Expired) →
       (3 ≤ fuel)%nat →
       ∃ w' tr, vlc_cond_timedwait E fuel c p deadline w
                  = Ret (if b then 0 else ETIMEDOUT) w'
         ∧ trace w' = trace w ++ tr ++ [EvResetEvent (handle c)]
         ∧ waits_on (handle c) tr = [(0, if b then WAIT_OBJECT_0 else WAIT_TIMEOUT)]
         ∧ events w' !! handle c = Some false)
  ∧ (∀ b t,
       events w !! handle c = Some b →
       caller_mutex E true p w →
       not_cancelled w →
       clock c = CLOCK_REALTIME ∨ clock c = CLOCK_MONOTONIC →
       clock_reading E c (now w) = Some t →
       (b = false →
        ∀ n, (now w < n)%nat → env_wait E n = Expired ∨ env_wait E n = Signalled 0) →
       (3 ≤ fuel)%nat →
       ∃ r w' tr res, vlc_cond_timedwait E fuel c p deadline w = Ret r w'
         ∧ trace w' = trace w ++ tr ++ [EvResetEvent (handle c)]
         ∧ waits_on (handle c) tr = [(timedwait_delay deadline t, res)]
         ∧ (r = ETIMEDOUT ↔ res = WAIT_TIMEOUT)
         ∧ (r = 0 ↔ res = WAIT_OBJECT_0)
         ∧ (b = true → res = WAIT_OBJECT_0)
         ∧ (b = false →
            ∃ n, (now w < n)%nat ∧ (res = WAIT_TIMEOUT ↔ env_wait E n = Expired))
         ∧ events w' !! handle c = Some false).
Proof.
  intros Hnn Hsv _. split; [|split].
  - intros r w' H. eapply timedwait_returns; eassumption.
  - intros b t. intros. eapply timedwait_polls; eassumption.
  - intros b t. intros. eapply timedwait_once; eassumption.
Qed.

End Timedwait.

(** * Further properties *)

Lemma bind_assoc {A B C} (m : M A) (k : A → M B) (k' : B → M C) w :
  bind (bind m k) k' w = bind m (λ a, bind (k a) k') w.
Proof. unfold bind. destruct (m w); reflexivity. Qed.

Section Triples.
Context {A B : Type}.

Lemma triple_ret P (a : A) (Q : A → world → Prop) X :
  (∀ w, P w → Q a w) → triple P (ret a) Q X.
Proof. intros H w Hw. apply H, Hw. Qed.

Lemma triple_bind P (m : M A) (k : A → M B) R Q X :
  triple P m R X → (∀ a, triple (R a) (k a) Q X) → triple P (bind m k) Q X.
Proof.
  intros Hm Hk w Hw. unfold bind. specialize (Hm w Hw).
  destruct (m w) as [a w'| | |]; auto. apply Hk, Hm.
Qed.

Lemma triple_abort P (Q : A → world → Prop) X : triple P abort Q X.
Proof. intros w _. exact I. Qed.

Lemma triple_out_of_fuel P (Q : A → world → Prop) X : triple P out_of_fuel Q X.
Proof. intros w _. exact I. Qed.

Lemma triple_gets P (f : world → A) (Q : A → world → Prop) X :
  (∀ w, P w → Q (f w) w) → triple P (gets f) Q X.
Proof. intros H w Hw. apply H, Hw. Qed.

Lemma triple_weaken (P P' : world → Prop) (m : M A) (Q Q' : A → world → Prop) X :
  triple P' m Q' X → (∀ w, P w → P' w) → (∀ a w, Q' a w → Q a w) → triple P m Q X.
Proof.
  intros H HP HQ w Hw. specialize (H w (HP w Hw)). destruct (m w); auto.
Qed.

Lemma triple_no_ret P (m : M A) (Q : A → world → Prop) :
  no_ret m → triple P m Q anyhow.
Proof.
  intros Hn w _. specialize (Hn w). unfold anyhow.
  destruct (m w); auto. exfalso. eapply Hn; eauto.
Qed.

Lemma triple_false (m : M A) (Q : A → world → Prop) X : triple (λ _, False) m Q X.
Proof. intros w []. Qed.

End Triples.

Lemma triple_modify P (f : world → world) (Q : unit → world → Prop) X :
  (∀ w, P w → Q tt (f w)) → triple P (modify f) Q X.
Proof. intros H w Hw. apply H, Hw. Qed.

Lemma triple_assert P b (Q : unit → world → Prop) X :
  (∀ w, b = true → P w → Q tt w) → triple P (assert b) Q X.
Proof. intros H. destruct b; [apply triple_ret; auto | apply triple_abort]. Qed.


(** *** Invariants *)

Lemma inv_ret {A} I (a : A) X : triple I (ret a) (λ _, I) X.
Proof. apply triple_ret. auto. Qed.
Lemma inv_gets {A} I (f : world → A) X : triple I (gets f) (λ _, I) X.
Proof. apply triple_gets. auto. Qed.
Lemma inv_assert I b X : triple I (assert b) (λ _, I) X.
Proof. apply triple_assert. auto. Qed.
Lemma inv_modify (I : world → Prop) f X :
  (∀ w, I w → I (f w)) → triple I (modify f) (λ _, I) X.
Proof. intros H. apply triple_modify. exact H. Qed.
Lemma inv_bind {A B} I (m : M A) (k : A → M B) Q X :
  triple I m (λ _, I) X → (∀ a, triple I (k a) Q X) → triple I (bind m k) Q X.
Proof. intros Hm Hk. eapply triple_bind; [exact Hm | exact Hk]. Qed.

Create HintDb triple.

(** Proves that a computation keeps an invariant by following its
    structure. *)
Ltac keep :=
  repeat first
    [ solve [auto with triple]
    | apply inv_ret | apply inv_gets | apply triple_abort | apply triple_out_of_fuel
    | apply inv_assert
    | apply inv_modify; solve [auto with triple]
    | apply triple_no_ret;
      solve [repeat first [apply no_ret_endthread | apply no_ret_bind; intros ?]]
    | apply inv_bind; [|intros ?]
    | match goal with
      | |- triple _ (if ?b then _ else _) _ _ => destruct b eqn:?
      | |- triple _ (match ?x with Some _ => _ | None => _ end) _ _ => destruct x eqn:?
      | |- triple _ (match ?x with _ :: _ => _ | [] => _ end) _ _ => destruct x eqn:?
      | |- triple _ (let (_, _) := ?x in _) _ _ => destruct x eqn:?
      end ].

(** ** Locking is not a cancellation point *)

Section CancelOff.
Variable E : environment.
Variable th : Z.


Lemma cancel_off_same w w' :
  tls w' = tls w → thread_key w' = thread_key w → threads w' = threads w →
  cancel_off th w → cancel_off th w'.
Proof. unfold cancel_off, thread_self. intros -> -> ->. auto. Qed.

Lemma off_load_mutex p : triple (cancel_off th) (load_mutex p) (λ _, cancel_off th) never.
Proof. intros w Hw. unfold load_mutex. destruct (mutexes w !! p); auto. Qed.
Lemma off_load_thread p : triple (cancel_off th) (load_thread p) (λ _, cancel_off th) never.
Proof. intros w Hw. unfold load_thread. destruct (threads w !! p); auto. Qed.
Lemma off_set_mutexes f w : cancel_off th w → cancel_off th (set_mutexes f w).
Proof. apply cancel_off_same; reflexivity. Qed.
Lemma off_set_events f w : cancel_off th w → cancel_off th (set_events f w).
Proof. apply cancel_off_same; reflexivity. Qed.
Lemma off_tick w : cancel_off th w → cancel_off th (tick w).
Proof. apply cancel_off_same; reflexivity. Qed.
Lemma off_log e w : cancel_off th w → cancel_off th (log e w).
Proof. apply cancel_off_same; reflexivity. Qed.

#[local] Hint Resolve off_load_mutex off_load_thread off_set_mutexes off_set_events
  off_tick off_log : triple.

Lemma off_store_mutex p m : triple (cancel_off th) (store_mutex p m) (λ _, cancel_off th) never.
Proof. unfold store_mutex. keep. Qed.
#[local] Hint Resolve off_store_mutex : triple.

Lemma off_EnterCriticalSection p :
  triple (cancel_off th) (EnterCriticalSection E p) (λ _, cancel_off th) never.
Proof. unfold EnterCriticalSection. keep. Qed.
Lemma off_LeaveCriticalSection p :
  triple (cancel_off th) (LeaveCriticalSection p) (λ _, cancel_off th) never.
Proof. unfold LeaveCriticalSection. keep. Qed.
Lemma off_SetEvent h : triple (cancel_off th) (SetEvent h) (λ _, cancel_off th) never.
Proof. unfold SetEvent. keep. Qed.
Lemma off_ResetEvent h : triple (cancel_off th) (ResetEvent h) (λ _, cancel_off th) never.
Proof. unfold ResetEvent. keep. Qed.
Lemma off_vlc_cond_broadcast c :
  triple (cancel_off th) (vlc_cond_broadcast c) (λ _, cancel_off th) never.
Proof. unfold vlc_cond_broadcast. keep. Qed.
Lemma off_mdate : triple (cancel_off th) (mdate E) (λ _, cancel_off th) never.
Proof. unfold mdate, QueryUnbiasedInterruptTime. keep. Qed.

(** A cancellation request that arrives leaves [killable] as it is. *)
Lemma off_vlc_cancel_self self :
  triple (cancel_off th) (vlc_cancel_self self) (λ _, cancel_off th) never.
Proof.
  intros w [Hs Hk]. unfold vlc_cancel_self, likely.
  destruct (negb (self =? NULL)) eqn:Hn; [|split; assumption].
  unfold load_thread, store_thread. mred.
  destruct (threads w !! self) as [t|] eqn:Ht; [|exact I]. mred.
  split; [exact Hs|].
  destruct Hk as [Hk | (t0 & Ht0 & Hk0)]; [left; exact Hk|]. right.
  destruct (decide (self = th)) as [->|Hne].
  - exists (set_killed true t). cbn. rewrite lookup_insert_eq.
    split; [reflexivity|]. rewrite Ht0 in Ht. injection Ht as <-. exact Hk0.
  - exists t0. cbn. rewrite lookup_insert_ne by assumption. auto.
Qed.

#[local] Hint Resolve off_EnterCriticalSection off_LeaveCriticalSection off_SetEvent
  off_ResetEvent off_vlc_cond_broadcast off_mdate off_vlc_cancel_self : triple.

Lemma off_vlc_Sleep delay : triple (cancel_off th) (vlc_Sleep E delay) (λ _, cancel_off th) never.
Proof.
  unfold vlc_Sleep, vlc_WaitForMultipleObjects, SleepEx, unlikely. cbn [Z.eqb].
  keep. all: destruct (env_wait E _); keep.
Qed.

Lemma off_vlc_WaitForSingleObject h delay :
  triple (cancel_off th) (vlc_WaitForSingleObject E h delay) (λ _, cancel_off th) never.
Proof.
  unfold vlc_WaitForSingleObject, vlc_WaitForMultipleObjects, WaitForMultipleObjectsEx,
    unlikely. cbn [Z.eqb].
  keep.
  all: try (destruct (env_wait E _) as [[|i]|[|i]|self| |];
            cbn [lookup list_lookup]; keep).
Qed.

Lemma off_vlc_savecancel :
  triple (cancel_off th) vlc_savecancel (λ canc w, canc = 0 ∧ cancel_off th w) never.
Proof.
  intros w [Hs Hk]. unfold vlc_savecancel, vlc_threadvar_get, TlsGetValue.
  rewrite !bind_gets. fold (thread_self w). rewrite Hs.
  destruct (th =? NULL) eqn:Hn; [repeat split; assumption|].
  destruct Hk as [-> | (t & Ht & Hk)]; [discriminate|].
  rewrite (bind_Ret _ _ _ _ _ (load_thread_run _ _ _ Ht)). cbv zeta.
  unfold store_thread. rewrite bind_modify. unfold ret. rewrite Hk.
  split; [reflexivity|]. split; [exact Hs|]. right.
  exists (set_killable false t). cbn. rewrite lookup_insert_eq. auto.
Qed.

Lemma off_vlc_restorecancel :
  triple (cancel_off th) (vlc_restorecancel 0) (λ _, cancel_off th) never.
Proof.
  intros w [Hs Hk]. unfold vlc_restorecancel, vlc_threadvar_get, TlsGetValue.
  rewrite !bind_gets. fold (thread_self w). rewrite Hs. cbn [Z.eqb orb assert].
  rewrite bind_ret.
  destruct (th =? NULL) eqn:Hn; [split; assumption|].
  destruct Hk as [-> | (t & Ht & Hk)]; [discriminate|].
  rewrite (bind_Ret _ _ _ _ _ (load_thread_run _ _ _ Ht)), Hk. cbn [negb assert].
  rewrite bind_ret. unfold store_thread, modify.
  split; [exact Hs|]. right.
  exists (set_killable false t). cbn. rewrite lookup_insert_eq. auto.
Qed.

Lemma off_vlc_testcancel fuel :
  triple (cancel_off th) (vlc_testcancel E fuel) (λ _, cancel_off th) never.
Proof.
  intros w [Hs Hk]. destruct fuel as [|fuel]; [exact I|].
  cbn [vlc_testcancel]. unfold vlc_threadvar_get, TlsGetValue.
  rewrite !bind_gets. fold (thread_self w). rewrite Hs.
  destruct (th =? NULL) eqn:Hn; [split; assumption|].
  destruct Hk as [-> | (t & Ht & Hk)]; [discriminate|].
  rewrite (bind_Ret _ _ _ _ _ (load_thread_run _ _ _ Ht)), Hk.
  split; [exact Hs|]. right. eauto.
Qed.

#[local] Hint Resolve off_vlc_Sleep off_vlc_WaitForSingleObject off_vlc_restorecancel
  off_vlc_testcancel : triple.

(** With cancellation disabled the core never ends the thread. *)
Lemma off_core fuel :
  (∀ p, triple (cancel_off th) (vlc_mutex_lock E fuel p) (λ _, cancel_off th) never)
  ∧ (∀ p, triple (cancel_off th) (lock_wait E fuel p) (λ _, cancel_off th) never)
  ∧ (∀ p, triple (cancel_off th) (vlc_mutex_unlock E fuel p) (λ _, cancel_off th) never)
  ∧ (∀ c p, triple (cancel_off th) (vlc_cond_wait E fuel c p) (λ _, cancel_off th) never)
  ∧ (∀ c p, triple (cancel_off th) (cond_wait_loop E fuel c p) (λ _, cancel_off th) never)
  ∧ (∀ d, triple (cancel_off th) (mwait E fuel d) (λ _, cancel_off th) never)
  ∧ (∀ d, triple (cancel_off th) (mwait_loop E fuel d) (λ _, cancel_off th) never)
  ∧ (∀ d, triple (cancel_off th) (msleep E fuel d) (λ _, cancel_off th) never).
Proof.
  induction fuel as [|fuel (IHlock & IHlw & IHunlock & IHcw & IHcwl & IHmw & IHmwl & IHms)].
  { repeat split; intros; apply triple_out_of_fuel. }
  repeat split; intros.
  - cbn [vlc_mutex_lock]. eapply triple_bind; [apply off_load_mutex|intros m].
    destruct (negb (dynamic m)); [|apply off_EnterCriticalSection].
    eapply triple_bind; [apply off_vlc_savecancel|intros canc].
    intros w [-> Hw]. revert w Hw.
    change (triple (cancel_off th) (assert (negb (p =? super_mutex));;
                      vlc_mutex_lock E fuel super_mutex;;
                      lock_wait E fuel p;;
                      let! m := load_mutex p in
                      store_mutex p (set_locked true m);;
                      vlc_mutex_unlock E fuel super_mutex;;
                      vlc_restorecancel 0) (λ _, cancel_off th) never).
    keep.
  - cbn [lock_wait]. keep.
  - cbn [vlc_mutex_unlock]. keep.
  - cbn [vlc_cond_wait]. keep.
  - cbn [cond_wait_loop]. keep.
  - cbn [mwait]. keep.
  - cbn [mwait_loop]. unfold unlikely. keep.
  - cbn [msleep]. keep.
Qed.

End CancelOff.

Section LockCancel.
Variable E : environment.

Lemma savecancel_off w :
  match vlc_savecancel w with
  | Ret canc w1 =>
      cancel_off (thread_self w) w1
      ∧ ((thread_self w = NULL ∧ canc = 0 ∧ w1 = w)
         ∨ (thread_self w ≠ NULL
            ∧ ∃ t, threads w !! thread_self w = Some t ∧ canc = Z.b2z (killable t)
                 ∧ w1 = set_threads <[thread_self w := set_killable false t]> w))
  | Exit _ => False
  | _ => True
  end.
Proof.
  unfold vlc_savecancel, vlc_threadvar_get, TlsGetValue.
  rewrite !bind_gets. fold (thread_self w).
  destruct (thread_self w =? NULL) eqn:Hn.
  - apply Z.eqb_eq in Hn. cbn. split; [split; auto|]. left. auto.
  - apply Z.eqb_neq in Hn. unfold load_thread at 1. unfold bind at 1.
    destruct (threads w !! thread_self w) as [t|] eqn:Ht; [|exact I].
    cbv zeta. unfold store_thread. rewrite bind_modify. unfold ret. split.
    + split; [reflexivity|]. right. exists (set_killable false t). cbn.
      rewrite lookup_insert_eq. auto.
    + right. split; [exact Hn|]. eauto.
Qed.

Lemma restorecancel_off th canc w :
  cancel_off th w →
  match vlc_restorecancel canc w with
  | Ret _ w' =>
      (th = NULL ∧ w' = w)
      ∨ (th ≠ NULL ∧ ∃ t, threads w !! th = Some t
           ∧ w' = set_threads <[th := set_killable (negb (canc =? 0)) t]> w)
  | Exit _ => False
  | _ => True
  end.
Proof.
  intros [Hs Hk]. unfold vlc_restorecancel, vlc_threadvar_get, TlsGetValue.
  rewrite !bind_gets. fold (thread_self w). rewrite Hs.
  destruct ((canc =? 0) || (canc =? 1)); cbn [assert]; [|exact I].
  rewrite bind_ret.
  destruct (th =? NULL) eqn:Hn.
  - apply Z.eqb_eq in Hn. left. auto.
  - apply Z.eqb_neq in Hn. destruct Hk as [-> | (t & Ht & Hk)]; [contradiction|].
    rewrite (bind_Ret _ _ _ _ _ (load_thread_run _ _ _ Ht)), Hk. cbn [negb assert].
    rewrite bind_ret. unfold store_thread, modify. right. eauto.
Qed.

(** The static flavour of [vlc_mutex_lock] between [vlc_savecancel]
    and [vlc_restorecancel]. *)
Lemma lock_static_body th fuel p :
  triple (cancel_off th)
    (assert (negb (p =? super_mutex));;
     vlc_mutex_lock E fuel super_mutex;;
     lock_wait E fuel p;;
     let! m := load_mutex p in
     store_mutex p (set_locked true m);;
     vlc_mutex_unlock E fuel super_mutex)
    (λ _, cancel_off th) never.
Proof.
  destruct (off_core E th fuel) as (Hlock & Hlw & Hunlock & _).
  pose proof (off_load_mutex th p). pose proof (off_store_mutex th p).
  keep.
Qed.

Lemma lock_static_unfold fuel p w m :
  mutexes w !! p = Some m → dynamic m = false →
  vlc_mutex_lock E (S fuel) p w =
    (let! canc := vlc_savecancel in
     (assert (negb (p =? super_mutex));;
      vlc_mutex_lock E fuel super_mutex;;
      lock_wait E fuel p;;
      let! m := load_mutex p in
      store_mutex p (set_locked true m);;
      vlc_mutex_unlock E fuel super_mutex);;
     vlc_restorecancel canc) w.
Proof.
  intros Hm Hd. cbn [vlc_mutex_lock].
  rewrite (bind_Ret _ _ _ _ _ (load_mutex_run _ _ _ Hm)), Hd. cbn [negb].
  unfold bind. destruct (vlc_savecancel w) as [canc w0| | |]; [|reflexivity..].
  destruct (assert (negb (p =? super_mutex)) w0) as [? w1| | |]; [|reflexivity..].
  destruct (vlc_mutex_lock E fuel super_mutex w1) as [? w2| | |]; [|reflexivity..].
  destruct (lock_wait E fuel p w2) as [? w3| | |]; [|reflexivity..].
  destruct (load_mutex p w3) as [? w4| | |]; [|reflexivity..].
  destruct (store_mutex p _ w4) as [? w5| | |]; reflexivity.
Qed.

Lemma EnterCriticalSection_frame p w :
  match EnterCriticalSection E p w with
  | Ret _ w' => tls w' = tls w ∧ threads w' = threads w ∧ thread_key w' = thread_key w
  | Exit _ => False
  | _ => True
  end.
Proof.
  unfold EnterCriticalSection. mred.
  destruct (mutexes w !! p) as [m|]; mred; [|exact I].
  destruct (RecursionCount m =? 0); mred.
  - destruct (interfere _ _ !! p); mred; auto.
  - destruct (mutexes w !! p); mred; auto.
Qed.

Lemma lock_never_exits fuel p w w' : vlc_mutex_lock E fuel p w ≠ Exit w'.
Proof.
  destruct fuel as [|fuel]; [discriminate|].
  destruct (mutexes w !! p) as [m|] eqn:Hm;
    [|cbn [vlc_mutex_lock]; unfold load_mutex, bind; rewrite Hm; discriminate].
  destruct (dynamic m) eqn:Hd.
  - cbn [vlc_mutex_lock]. rewrite (bind_Ret _ _ _ _ _ (load_mutex_run _ _ _ Hm)), Hd.
    cbn [negb]. pose proof (EnterCriticalSection_frame p w) as H.
    destruct (EnterCriticalSection E p w); try discriminate. contradiction.
  - rewrite (lock_static_unfold fuel p w m Hm Hd).
    pose proof (savecancel_off w) as Hs. unfold bind at 1.
    destruct (vlc_savecancel w) as [canc w1| | |]; try discriminate; [|contradiction].
    destruct Hs as [Hoff _].
    pose proof (lock_static_body _ fuel p w1 Hoff) as Hb. unfold bind at 1.
    match type of Hb with match ?m with _ => _ end => destruct m as [[] w2| | |] end;
      try discriminate; [|contradiction].
    pose proof (restorecancel_off _ canc w2 Hb) as Hr.
    destruct (vlc_restorecancel canc w2); try discriminate. contradiction.
Qed.

Lemma unlock_never_exits fuel : ∀ p w w', vlc_mutex_unlock E fuel p w ≠ Exit w'.
Proof.
  induction fuel as [|fuel IH]; intros p w w'; [discriminate|].
  cbn [vlc_mutex_unlock]. unfold load_mutex at 1. unfold bind at 1.
  destruct (mutexes w !! p) as [m|]; [|discriminate].
  destruct (negb (dynamic m)).
  - unfold bind at 1. destruct (assert _ w) as [[] w1| | |] eqn:Ha; try discriminate.
    + unfold bind at 1.
      destruct (vlc_mutex_lock E fuel super_mutex w1) as [[] w2| | |] eqn:Hl;
        try discriminate; [|exfalso; eapply lock_never_exits; eauto].
      unfold load_mutex at 1. unfold bind at 1.
      destruct (mutexes w2 !! p) as [m2|]; [|discriminate].
      unfold bind at 1. destruct (assert _ w2) as [[] w3| | |] eqn:Ha2; try discriminate.
      * unfold store_mutex. rewrite bind_modify. unfold bind at 1.
        destruct (negb (contention m2 =? 0)).
        -- rewrite bind_gets, cond_broadcast_run. apply IH.
        -- unfold ret. apply IH.
      * destruct (locked m2); discriminate.
    + destruct (negb (p =? super_mutex)); discriminate.
  - unfold LeaveCriticalSection. mred. destruct (mutexes w !! p); discriminate.
Qed.

End LockCancel.

Section LockCancelMain.
Variable E : environment.

(** X1: [vlc_mutex_lock] and [vlc_mutex_unlock] are no cancellation points:
    whatever the state of the mutex and of the calling thread, also
    cancelled and cancellable, neither ends the thread; and when
    [vlc_mutex_lock] returns, which for a static mutex is after waiting
    on the super lock's condition variable with the cancellation
    disabled, the thread has its [killable] as before. *)
Theorem mutex_lock_not_cancellation_point fuel p w :
  (∀ w', vlc_mutex_lock E fuel p w ≠ Exit w')
  ∧ (∀ w', vlc_mutex_unlock E fuel p w ≠ Exit w')
  ∧ (∀ w' t, vlc_mutex_lock E fuel p w = Ret tt w' →
       thread_self w ≠ NULL → threads w !! thread_self w = Some t →
       thread_self w' = thread_self w
       ∧ ∃ t', threads w' !! thread_self w = Some t' ∧ killable t' = killable t).
Proof.
  split; [intros w'; apply lock_never_exits|].
  split; [intros w'; apply unlock_never_exits|].
  intros w' t H Hn Ht. destruct fuel as [|fuel]; [discriminate|].
  destruct (mutexes w !! p) as [m|] eqn:Hm;
    [|cbn [vlc_mutex_lock] in H; unfold load_mutex, bind in H; rewrite Hm in H;
      discriminate].
  destruct (dynamic m) eqn:Hd.
  - cbn [vlc_mutex_lock] in H.
    rewrite (bind_Ret _ _ _ _ _ (load_mutex_run _ _ _ Hm)), Hd in H. cbn [negb] in H.
    pose proof (EnterCriticalSection_frame E p w) as Hf. rewrite H in Hf.
    destruct Hf as (Htls & Hth & Hk). unfold thread_self. rewrite Htls, Hk, Hth.
    split; [reflexivity|]. exists t. auto.
  - rewrite (lock_static_unfold E fuel p w m Hm Hd) in H.
    apply bind_inv in H as (canc & w1 & Hs & H).
    apply bind_inv in H as ([] & w2 & Hb & H).
    pose proof (savecancel_off w) as Hs'. rewrite Hs in Hs'.
    destruct Hs' as [Hoff [(Hz & _) | (_ & t0 & Ht0 & Hc & _)]]; [contradiction|].
    rewrite Ht in Ht0. injection Ht0 as <-.
    pose proof (lock_static_body E _ fuel p w1 Hoff) as Hb'. rewrite Hb in Hb'.
    pose proof (restorecancel_off _ canc w2 Hb') as Hr. rewrite H in Hr.
    destruct Hr as [(Hz & _) | (_ & t2 & Ht2 & ->)]; [contradiction|].
    destruct Hb' as [Hself _]. unfold thread_self in *. cbn.
    split; [exact Hself|]. rewrite lookup_insert_eq. eexists. split; [reflexivity|].
    cbn. subst canc. destruct (killable t); reflexivity.
Qed.

End LockCancelMain.

(** ** A static mutex that stays locked *)

Section StaticLocked.
Variable E : environment.
Variable p : Z.
Hypothesis Hstays : ∀ n, env_static E n p = None ∨ ∃ c, env_static E n p = Some (true, c).
Hypothesis Hps : super_mutex ≠ p.


Lemma locked_same w w' : mutexes w' = mutexes w → static_locked p w → static_locked p w'.
Proof. unfold static_locked. intros ->. auto. Qed.

Lemma locked_load_mutex q : triple (static_locked p) (load_mutex q) (λ _, static_locked p) anyhow.
Proof. intros w Hw. unfold load_mutex. destruct (mutexes w !! q); auto. Qed.
Lemma locked_load_thread q : triple (static_locked p) (load_thread q) (λ _, static_locked p) anyhow.
Proof. intros w Hw. unfold load_thread. destruct (threads w !! q); auto. Qed.
Lemma locked_set_threads f w : static_locked p w → static_locked p (set_threads f w).
Proof. apply locked_same; reflexivity. Qed.
Lemma locked_set_events f w : static_locked p w → static_locked p (set_events f w).
Proof. apply locked_same; reflexivity. Qed.
Lemma locked_tick w : static_locked p w → static_locked p (tick w).
Proof. apply locked_same; reflexivity. Qed.
Lemma locked_log e w : static_locked p w → static_locked p (log e w).
Proof. apply locked_same; reflexivity. Qed.
Lemma locked_insert q m w : q ≠ p → static_locked p w → static_locked p (set_mutexes <[q := m]> w).
Proof.
  intros Hne (m0 & Hm0 & H). exists m0. cbn. rewrite lookup_insert_ne by assumption. auto.
Qed.
Lemma locked_interfere n w :
  static_locked p w → static_locked p (set_mutexes (interfere (env_static E n)) w).
Proof.
  intros (m & Hm & Hd & Hl). unfold static_locked, interfere. cbn.
  rewrite map_lookup_imap, Hm. cbn. rewrite Hd.
  destruct (Hstays n) as [-> | [c ->]]; eexists; (split; [reflexivity|]); auto.
Qed.

#[local] Hint Resolve locked_load_mutex locked_load_thread locked_set_threads
  locked_set_events locked_tick locked_log locked_insert locked_interfere : triple.

Lemma locked_store_mutex q m :
  q ≠ p → triple (static_locked p) (store_mutex q m) (λ _, static_locked p) anyhow.
Proof. intros Hne. unfold store_mutex. keep. Qed.
Lemma locked_store_thread q t :
  triple (static_locked p) (store_thread q t) (λ _, static_locked p) anyhow.
Proof. unfold store_thread. keep. Qed.
#[local] Hint Resolve locked_store_mutex locked_store_thread : triple.

Lemma locked_EnterCriticalSection q :
  q ≠ p → triple (static_locked p) (EnterCriticalSection E q) (λ _, static_locked p) anyhow.
Proof. intros Hne. unfold EnterCriticalSection. keep. Qed.
Lemma locked_LeaveCriticalSection q :
  q ≠ p → triple (static_locked p) (LeaveCriticalSection q) (λ _, static_locked p) anyhow.
Proof. intros Hne. unfold LeaveCriticalSection. keep. Qed.
Lemma locked_vlc_cond_broadcast c :
  triple (static_locked p) (vlc_cond_broadcast c) (λ _, static_locked p) anyhow.
Proof. unfold vlc_cond_broadcast, SetEvent. keep. Qed.
Lemma locked_ResetEvent h : triple (static_locked p) (ResetEvent h) (λ _, static_locked p) anyhow.
Proof. unfold ResetEvent. keep. Qed.
Lemma locked_mdate : triple (static_locked p) (mdate E) (λ _, static_locked p) anyhow.
Proof. unfold mdate, QueryUnbiasedInterruptTime. keep. Qed.
Lemma locked_vlc_cancel_self self :
  triple (static_locked p) (vlc_cancel_self self) (λ _, static_locked p) anyhow.
Proof. unfold vlc_cancel_self, likely. keep. Qed.
Lemma locked_vlc_savecancel : triple (static_locked p) vlc_savecancel (λ _, static_locked p) anyhow.
Proof. unfold vlc_savecancel, vlc_threadvar_get, TlsGetValue. keep. Qed.
Lemma locked_vlc_restorecancel canc :
  triple (static_locked p) (vlc_restorecancel canc) (λ _, static_locked p) anyhow.
Proof. unfold vlc_restorecancel, vlc_threadvar_get, TlsGetValue. keep. Qed.

#[local] Hint Resolve locked_EnterCriticalSection locked_LeaveCriticalSection
  locked_vlc_cond_broadcast locked_ResetEvent locked_mdate locked_vlc_cancel_self
  locked_vlc_savecancel locked_vlc_restorecancel : triple.

Lemma locked_vlc_Sleep delay :
  triple (static_locked p) (vlc_Sleep E delay) (λ _, static_locked p) anyhow.
Proof.
  unfold vlc_Sleep, vlc_WaitForMultipleObjects, SleepEx, unlikely. cbn [Z.eqb].
  keep. all: destruct (env_wait E _); keep.
Qed.

Lemma locked_vlc_WaitForSingleObject h delay :
  triple (static_locked p) (vlc_WaitForSingleObject E h delay) (λ _, static_locked p) anyhow.
Proof.
  unfold vlc_WaitForSingleObject, vlc_WaitForMultipleObjects, WaitForMultipleObjectsEx,
    unlikely. cbn [Z.eqb].
  keep.
  all: try (destruct (env_wait E _) as [[|i]|[|i]|self| |];
            cbn [lookup list_lookup]; keep).
Qed.

#[local] Hint Resolve locked_vlc_Sleep locked_vlc_WaitForSingleObject : triple.

Lemma locked_core fuel :
  (∀ q, q ≠ p → triple (static_locked p) (vlc_mutex_lock E fuel q) (λ _, static_locked p) anyhow)
  ∧ (∀ q, q ≠ p → triple (static_locked p) (lock_wait E fuel q) (λ _, static_locked p) anyhow)
  ∧ (∀ q, q ≠ p → triple (static_locked p) (vlc_mutex_unlock E fuel q)
        (λ _, static_locked p) anyhow)
  ∧ (∀ c q, q ≠ p → triple (static_locked p) (vlc_cond_wait E fuel c q)
        (λ _, static_locked p) anyhow)
  ∧ (∀ c q, q ≠ p → triple (static_locked p) (cond_wait_loop E fuel c q)
        (λ _, static_locked p) anyhow)
  ∧ triple (static_locked p) (vlc_testcancel E fuel) (λ _, static_locked p) anyhow
  ∧ (∀ d, triple (static_locked p) (mwait E fuel d) (λ _, static_locked p) anyhow)
  ∧ (∀ d, triple (static_locked p) (mwait_loop E fuel d) (λ _, static_locked p) anyhow)
  ∧ (∀ d, triple (static_locked p) (msleep E fuel d) (λ _, static_locked p) anyhow).
Proof.
  induction fuel as [|fuel (IHlock & IHlw & IHunlock & IHcw & IHcwl & IHtc & IHmw & IHmwl & IHms)].
  { repeat split; intros; apply triple_out_of_fuel. }
  repeat split; intros.
  - cbn [vlc_mutex_lock]. keep.
  - cbn [lock_wait]. keep.
  - cbn [vlc_mutex_unlock]. keep.
  - cbn [vlc_cond_wait]. keep.
  - cbn [cond_wait_loop]. keep.
  - cbn [vlc_testcancel]. keep.
  - cbn [mwait]. keep.
  - cbn [mwait_loop]. unfold unlikely. keep.
  - cbn [msleep]. keep.
Qed.

Lemma lock_wait_locked fuel : ∀ w w', static_locked p w → lock_wait E fuel p w ≠ Ret tt w'.
Proof.
  induction fuel as [|fuel IH]; intros w w' Hw; [discriminate|].
  destruct (locked_core fuel) as (_ & _ & _ & Hcw & _).
  cbn [lock_wait]. destruct Hw as (m & Hm & Hd & Hl).
  rewrite (bind_Ret _ _ _ _ _ (load_mutex_run _ _ _ Hm)), Hl.
  unfold store_mutex. rewrite bind_modify, bind_gets.
  intros H. apply bind_inv in H as ([] & w2 & Hcw' & H).
  match type of Hcw' with vlc_cond_wait _ _ ?c ?q ?w1 = _ =>
    assert (Hc : static_locked p w1)
      by (exists (set_contention (to_DWORD (contention m + 1)) m); cbn;
          rewrite lookup_insert_eq; auto);
    apply (Hcw c q Hps) in Hc
  end.
  rewrite Hcw' in Hc. destruct Hc as (m2 & Hm2 & Hd2 & Hl2).
  rewrite (bind_Ret _ _ _ _ _ (load_mutex_run _ _ _ Hm2)) in H.
  rewrite bind_modify in H. revert H. apply IH.
  exists (set_contention (to_DWORD (contention m2 - 1)) m2). cbn.
  rewrite lookup_insert_eq. auto.
Qed.

End StaticLocked.

Section StaticLockedMain.
Variable E : environment.

(** X2: a static mutex is not recursive: as long as it is locked, and the
    other threads do not unlock it, [vlc_mutex_lock] does not return,
    whoever calls it, also the thread that has locked it. *)
Theorem static_lock_waits fuel p w :
  static_locked p w →
  (∀ n, env_static E n p = None ∨ ∃ c, env_static E n p = Some (true, c)) →
  ∀ w', vlc_mutex_lock E fuel p w ≠ Ret tt w'.
Proof.
  intros Hl Hstays w' H. destruct fuel as [|fuel]; [discriminate|].
  pose proof Hl as (m & Hm & Hd & _).
  rewrite (lock_static_unfold E fuel p w m Hm Hd) in H.
  apply bind_inv in H as (canc & w1 & Hs & H).
  apply bind_inv in H as ([] & w3 & H & _).
  apply bind_inv in H as ([] & w1' & Ha & H).
  destruct (Z.eqb_spec p super_mutex) as [Heq|Hne]; [discriminate|].
  injection Ha as <-.
  apply bind_inv in H as ([] & w2 & Hlk & H).
  apply bind_inv in H as ([] & w2' & Hlw & _).
  pose proof (locked_vlc_savecancel p w Hl) as H1. rewrite Hs in H1.
  destruct (locked_core E p Hstays ltac:(congruence) fuel) as (Hlock & _).
  pose proof (Hlock super_mutex ltac:(congruence) w1 H1) as H2. rewrite Hlk in H2.
  exact (lock_wait_locked E p Hstays ltac:(congruence) fuel w2 w2' H2 Hlw).
Qed.

End StaticLockedMain.

(** ** Sleeping until a date *)

Section Clock.
Variable E : environment.

Lemma testcancel_Ret fuel w a w' : vlc_testcancel E fuel w = Ret a w' → w' = w.
Proof.
  destruct fuel as [|fuel]; [discriminate|].
  cbn [vlc_testcancel]. unfold vlc_threadvar_get, TlsGetValue. rewrite !bind_gets.
  destruct (_ =? NULL); [intros [= _ <-]; reflexivity|].
  unfold load_thread at 1. unfold bind at 1.
  destruct (threads w !! _) as [t|]; [|discriminate].
  destruct (killable t && killed t); [|intros [= _ <-]; reflexivity].
  intros H. exfalso. revert H.
  apply no_ret_bind. intros _. apply no_ret_bind. intros t'.
  apply no_ret_bind. intros _. apply no_ret_bind. intros _. apply no_ret_endthread.
Qed.

Lemma mdate_inv w t w' :
  mdate E w = Ret t w' → mdate_reading E (now w) = Some t ∧ w' = tick w.
Proof.
  unfold mdate_reading, mdate, QueryUnbiasedInterruptTime. mred.
  destruct (env_ticks E (now w)); mred; [|discriminate]. intros [= <- <-]. auto.
Qed.

Lemma vlc_Sleep_inv delay w r w' :
  vlc_Sleep E delay w = Ret r w' →
  (r = 0 ∨ r = WAIT_IO_COMPLETION)
  ∧ now w' = S (now w) ∧ trace w' = trace w ++ [EvSleep delay r].
Proof.
  unfold vlc_Sleep, vlc_WaitForMultipleObjects, SleepEx, vlc_cancel_self, likely, unlikely.
  cbn [Z.eqb]. mred.
  destruct (env_wait E (now w)) as [i|i|self| |]; mred;
    try (intros [= <- <-]; mred; auto; fail).
  destruct (negb (self =? NULL)); mred.
  - destruct (threads w !! self); mred; [|discriminate]. intros [= <- <-]. mred. auto.
  - intros [= <- <-]. mred. auto.
Qed.

Lemma mwait_delay_run deadline t :
  (let delay := Z.quot (deadline - t) 1000 in
   if unlikely (0x7fffffff <? delay) then 0x7fffffff else delay) = mwait_delay deadline t.
Proof.
  unfold mwait_delay, unlikely. cbv zeta.
  destruct (Z.ltb_spec 0x7fffffff (Z.quot (deadline - t) 1000)); lia.
Qed.

Lemma mwait_delay_bounds deadline t :
  t < deadline →
  0 ≤ mwait_delay deadline t ≤ 0x7fffffff
  ∧ 1000 * mwait_delay deadline t ≤ deadline - t.
Proof.
  intros Hlt. unfold mwait_delay.
  assert (0 ≤ Z.quot (deadline - t) 1000) by (apply Z.quot_pos; lia).
  assert (1000 * Z.quot (deadline - t) 1000 ≤ deadline - t)
    by (apply Z.mul_quot_le; lia).
  lia.
Qed.

Lemma mwait_loop_returns deadline fuel : ∀ w w',
  mwait_loop E fuel deadline w = Ret tt w' → ∃ ds, slept_until E deadline w w' ds.
Proof.
  induction fuel as [|fuel IH]; intros w w' H; [discriminate|].
  cbn [mwait_loop] in H.
  apply bind_inv in H as (t & w1 & Hd & H). apply mdate_inv in Hd as [Ht ->].
  cbv zeta in H. destruct (Z.ltb_spec 0 (deadline - t)) as [Hlt|Hge].
  - pose proof (mwait_delay_run deadline t) as Hrun. cbv zeta in Hrun. rewrite Hrun in H.
    apply bind_inv in H as (r & w2 & Hs & H).
    apply vlc_Sleep_inv in Hs as (_ & Hn2 & Htr2).
    apply bind_inv in H as ([] & w3 & Htc & H).
    apply testcancel_Ret in Htc as ->.
    apply IH in H as (ds & Htr & Hn & (t' & Ht' & Hle) & Hall).
    cbn in Hn2, Htr2.
    exists ((mwait_delay deadline t, r) :: ds). split; [|split; [|split]].
    + rewrite Htr, Htr2. cbn. rewrite <- app_assoc. reflexivity.
    + rewrite Hn, Hn2. cbn [length]. lia.
    + exists t'. split; [|exact Hle]. rewrite <- Ht'. f_equal. rewrite Hn2.
      cbn [length]. lia.
    + intros [|i] d r' Hi.
      * injection Hi as <- <-. exists t. rewrite Nat.mul_0_r, Nat.add_0_r.
        split; [exact Ht|]. split; [lia | reflexivity].
      * destruct (Hall i d r' Hi) as (ti & Hti & Hlti & Hdi). exists ti.
        split; [|auto]. rewrite <- Hti. f_equal. rewrite Hn2. lia.
  - injection H as <-. exists []. split; [|split; [|split]].
    + cbn. rewrite app_nil_r. reflexivity.
    + cbn. lia.
    + exists t. cbn. rewrite Nat.add_0_r. split; [exact Ht | lia].
    + intros i d r Hi. discriminate.
Qed.

Lemma mwait_returns deadline fuel w w' :
  mwait E fuel deadline w = Ret tt w' → ∃ ds, slept_until E deadline w w' ds.
Proof.
  destruct fuel as [|fuel]; [discriminate|]. cbn [mwait]. intros H.
  apply bind_inv in H as ([] & w1 & Htc & H). apply testcancel_Ret in Htc as ->.
  eapply mwait_loop_returns, H.
Qed.

Lemma mwait_past deadline fuel w t :
  not_cancelled w → mdate_reading E (now w) = Some t → deadline ≤ t →
  mwait E (S (S fuel)) deadline w = Ret tt (tick w).
Proof.
  intros Hc Ht Hle. remember (S fuel) as f. cbn [mwait]. subst f.
  rewrite (bind_Ret _ _ _ _ _ (testcancel_not_cancelled E fuel w Hc)).
  cbn [mwait_loop]. rewrite (bind_Ret _ _ _ _ _ (mdate_run E w t Ht)).
  cbv zeta. destruct (Z.ltb_spec 0 (deadline - t)); [lia | reflexivity].
Qed.

(** X3: for a deadline and dates whose difference does not overflow,
    [mwait] does not return before the clock has reached [deadline]:
    whenever it returns it has slept a number of times, each time after
    reading a date before [deadline] and for the time left, in
    milliseconds, rounded down and capped at [0x7fffffff], and has then
    read a date that is not before [deadline].  When the first date
    read is not before [deadline], it returns without sleeping. *)
Theorem mwait_not_early fuel deadline w :
  no_overflow (mdate_reading E) deadline w →
  (∀ w', mwait E fuel deadline w = Ret tt w' →
     ∃ ds t,
       trace w' = trace w ++ map (λ x, EvSleep x.1 x.2) ds
       ∧ now w' = S (now w + 2 * length ds)
       ∧ mdate_reading E (now w + 2 * length ds) = Some t ∧ deadline ≤ t
       ∧ ∀ (i : nat) d r, ds !! i = Some (d, r) →
           ∃ ti, mdate_reading E (now w + 2 * i) = Some ti ∧ ti < deadline
             ∧ d = Z.min (Z.quot (deadline - ti) 1000) 0x7fffffff
             ∧ 0 ≤ d ≤ 0x7fffffff ∧ 1000 * d ≤ deadline - ti)
  ∧ (∀ t, not_cancelled w → mdate_reading E (now w) = Some t → deadline ≤ t →
       (2 ≤ fuel)%nat →
       mwait E fuel deadline w = Ret tt (tick w)).
Proof.
  intros _. split.
  - intros w' H. apply mwait_returns in H as (ds & Htr & Hn & (t & Ht & Hle) & Hall).
    exists ds, t. repeat (split; [assumption|]).
    intros i d r Hi. destruct (Hall i d r Hi) as (ti & Hti & Hlt & ->).
    exists ti. split; [exact Hti|]. split; [exact Hlt|]. split; [reflexivity|].
    apply mwait_delay_bounds, Hlt.
  - intros t Hc Ht Hle Hf. destruct fuel as [|[|fuel]]; [lia|lia|].
    eapply mwait_past; eassumption.
Qed.

(** X4: [msleep] does not return before [delay] has passed on the clock:
    the last date that it reads is at least [delay] after the first,
    from which the deadline is computed. *)
Theorem msleep_not_early fuel delay w w' :
  msleep E fuel delay w = Ret tt w' →
  ∃ t0 t1 ds,
    mdate_reading E (now w) = Some t0
    ∧ now w' = S (S (now w + 2 * length ds))
    ∧ mdate_reading E (S (now w + 2 * length ds)) = Some t1
    ∧ t0 + delay ≤ t1
    ∧ trace w' = trace w ++ map (λ x, EvSleep x.1 x.2) ds
    ∧ Forall (λ x, 0 ≤ x.1 ≤ 0x7fffffff) ds.
Proof.
  destruct fuel as [|fuel]; [discriminate|]. cbn [msleep]. intros H.
  apply bind_inv in H as (t0 & w1 & Hd & H). apply mdate_inv in Hd as [Ht0 ->].
  apply mwait_returns in H as (ds & Htr & Hn & (t1 & Ht1 & Hle) & Hall).
  cbn in Htr, Hn, Ht1. exists t0, t1, ds.
  split; [exact Ht0|]. split; [exact Hn|]. split; [exact Ht1|]. split; [exact Hle|].
  split; [exact Htr|].
  apply Forall_lookup. intros i [d r] Hi.
  destruct (Hall i d r Hi) as (ti & _ & Hlt & ->). cbn.
  apply mwait_delay_bounds, Hlt.
Qed.

End Clock.

(** ** Waiting on a condition variable *)

Section CondWait.
Variable E : environment.

Lemma cond_wait_loop_spec h c p :
  handle c = h → ∀ fuel w w',
  handle (super_variable w) ≠ h →
  cond_wait_loop E fuel c p w = Ret tt w' →
  is_Some (events w' !! h)
  ∧ ∃ tr res, trace w' = trace w ++ tr
      ∧ waits_on h tr
        = replicate (pred (length (waits_on h tr))) (INFINITE, WAIT_IO_COMPLETION)
          ++ [(INFINITE, res)]
      ∧ (res = WAIT_OBJECT_0 ∨ res = WAIT_TIMEOUT).
Proof.
  intros Hh. induction fuel as [|fuel IH]; intros w w' Hsv H; [discriminate|].
  destruct (quiet_core E h fuel) as (Hlock & _ & Hunlock & _ & _ & Htc & _).
  cbn [cond_wait_loop] in H.
  apply bind_inv in H as ([] & w1 & H1 & H).
  apply testcancel_Ret in H1 as ->.
  apply bind_inv in H as ([] & w3 & H3 & H).
  apply (quiet_Ret h) in H3; [|apply Hunlock].
  destruct (H3 Hsv) as (Hsv3 & Hn3 & He3 & tr3 & Htr3 & Hw3).
  apply bind_inv in H as (result & w4 & H4 & H). rewrite Hh in H4.
  apply wait_single_inv in H4 as (Hres & Htr4 & Hs4 & Hsv4 & Hn4).
  apply bind_inv in H as ([] & w5 & H5 & H).
  apply (quiet_Ret h) in H5; [|apply Hlock].
  destruct H5 as (Hsv5 & Hn5 & He5 & tr5 & Htr5 & Hw5); [congruence|].
  assert (Htr : trace w5 = trace w ++ (tr3 ++ [EvWait [h] INFINITE result] ++ tr5)).
  { rewrite Htr5, Htr4, Htr3, <- !app_assoc. reflexivity. }
  assert (Hwaits : waits_on h (tr3 ++ [EvWait [h] INFINITE result] ++ tr5)
                   = [(INFINITE, result)]).
  { rewrite !waits_on_app, Hw3, Hw5. cbn. rewrite decide_True by reflexivity.
    reflexivity. }
  destruct (result =? WAIT_IO_COMPLETION) eqn:Hio.
  - apply Z.eqb_eq in Hio. subst result.
    apply IH in H as (He' & tr & res & Htr' & Hlast & Hr'); [|congruence].
    split; [exact He'|].
    exists ((tr3 ++ [EvWait [h] INFINITE WAIT_IO_COMPLETION] ++ tr5) ++ tr), res.
    split; [rewrite Htr', Htr, <- !app_assoc; reflexivity|]. split; [|exact Hr'].
    rewrite waits_on_app, Hwaits. cbn [app length pred].
    rewrite Hlast at 1. rewrite Hlast at 2.
    rewrite length_app, length_replicate. cbn [length].
    rewrite Nat.add_1_r. reflexivity.
  - injection H as <-. split; [rewrite He5; exact Hs4|].
    exists (tr3 ++ [EvWait [h] INFINITE result] ++ tr5), result.
    split; [exact Htr|]. rewrite Hwaits. split; [reflexivity|].
    destruct Hres as [-> | [-> | ->]]; auto; discriminate.
Qed.

(** X5: whenever [vlc_cond_wait] returns on a condition variable with an
    event, it has waited on the event without a timeout, every wait but
    the last was interrupted by a procedure call and the last was not,
    and it has then reset the event. *)
Theorem cond_wait_returns fuel c p w w' :
  handle c ≠ NULL →
  handle (super_variable w) ≠ handle c →
  vlc_cond_wait E fuel c p w = Ret tt w' →
  ∃ tr n res,
    trace w' = trace w ++ tr ++ [EvResetEvent (handle c)]
    ∧ waits_on (handle c) tr
      = replicate n (INFINITE, WAIT_IO_COMPLETION) ++ [(INFINITE, res)]
    ∧ res ≠ WAIT_IO_COMPLETION
    ∧ events w' !! handle c = Some false.
Proof.
  intros Hnn Hsv H. destruct fuel as [|fuel]; [discriminate|].
  cbn [vlc_cond_wait] in H. apply Z.eqb_neq in Hnn. rewrite Hnn in H.
  apply bind_inv in H as ([] & w1 & Hl & H).
  eapply cond_wait_loop_spec in Hl as ([b Hb] & tr & res & Htr & Hw & Hres);
    [|reflexivity|exact Hsv].
  unfold ResetEvent in H. cbv beta iota delta [bind modify ret] in H.
  injection H as <-. exists tr, (pred (length (waits_on (handle c) tr))), res. mred.
  rewrite Htr, app_assoc. split; [reflexivity|]. split; [exact Hw|]. split.
  - destruct Hres as [-> | ->]; discriminate.
  - rewrite lookup_alter, decide_True, Hb by reflexivity. reflexivity.
Qed.


(** *** A cancellation that comes during the wait *)

Lemma wait_single_apc h delay w th t :
  events w !! h = Some false →
  env_wait E (now w) = IoCompletion th →
  th ≠ NULL → threads w !! th = Some t →
  vlc_WaitForSingleObject E h delay w =
    Ret WAIT_IO_COMPLETION
        (log (EvWait [h] delay WAIT_IO_COMPLETION)
             (set_threads <[th := set_killed true t]> (tick w))).
Proof.
  intros Hb He Hn Ht.
  unfold vlc_WaitForSingleObject, vlc_WaitForMultipleObjects, WaitForMultipleObjectsEx,
    vlc_cancel_self, likely.
  cbn [Z.eqb existsb list_find]. mred. rewrite Hb.
  rewrite bool_decide_eq_false_2 by discriminate. mred.
  rewrite decide_False by discriminate. cbn [fmap option_fmap option_map]. mred.
  rewrite He. apply Z.eqb_neq in Hn. rewrite Hn. mred. rewrite Ht. reflexivity.
Qed.

(** A cancelled thread at a cancellation point, to its end. *)
Lemma testcancel_exits fuel w th t :
  thread_self w = th → th ≠ NULL → threads w !! th = Some t →
  killable t && killed t = true →
  super_ready w → NoDup (tv_id <$> vlc_threadvar_last w) →
  quiet_destructors E (vlc_threadvar_last w) →
  (length (vlc_threadvar_last w) + 2 ≤ fuel)%nat →
  ∃ w' s, vlc_testcancel E (S fuel) w = Exit w'
    ∧ trace w' = trace w ++ handler_calls (cleaners t)
        ++ drain_events s (vlc_threadvar_last w)
        ++ [EvEnter super_mutex; EvLeave super_mutex]
        ++ (if detached t then [EvCloseHandle (th_id t); EvFree th] else [])
        ++ [EvEndThread 0].
Proof.
  intros Hself Hnn Ht Hk Hs Hnd Hq Hf.
  rewrite (testcancel_unfold E fuel w th t Hself Hnn Ht), Hk.
  destruct (run_cleaners_spec E (cleaners t) w) as (w1 & Hr & Htr & Hth & Hm & Hkeys).
  rewrite (bind_Ret _ _ _ _ _ Hr).
  unfold load_thread at 1. unfold bind at 1. rewrite Hth, Ht.
  unfold store_thread. rewrite bind_modify.
  destruct (thread_cleanup_drains E
              (length (pending (tls w1) (vlc_threadvar_last w1))) fuel
              (set_threads <[th:=set_data NULL t]> w1)
              th (set_data NULL t)) as (w2 & Hc & Htr2 & _); cbn;
    rewrite ?Hkeys; try assumption; try reflexivity.
  - destruct Hs as (m & Hm' & Hd). exists m. cbn. rewrite Hm. auto.
  - apply lookup_insert_eq.
  - pose proof (pending_length (tls w1) (vlc_threadvar_last w)). lia.
  - rewrite (bind_Ret _ _ _ _ _ Hc). eexists _, (tls w1). split; [reflexivity|].
    cbn in Htr2. cbn [trace log]. rewrite Htr2, Htr, Hkeys.
    destruct t as [? [] ? ? ? ? ?]; cbn; rewrite <- !app_assoc; reflexivity.
Qed.

Lemma cond_wait_loop_cancelled fuel c p w th t :
  events w !! handle c = Some false →
  dynamic_mutex p w →
  thread_self w = th → th ≠ NULL → threads w !! th = Some t →
  killable t = true → killed t = false →
  env_wait E (now w) = IoCompletion th →
  super_ready w → NoDup (tv_id <$> vlc_threadvar_last w) →
  quiet_destructors E (vlc_threadvar_last w) →
  (length (vlc_threadvar_last w) + 2 ≤ fuel)%nat →
  ∃ w' s, cond_wait_loop E (S (S (S fuel))) c p w = Exit w'
    ∧ trace w' = trace w
        ++ [EvLeave p; EvWait [handle c] INFINITE WAIT_IO_COMPLETION; EvEnter p]
        ++ handler_calls (cleaners t)
        ++ drain_events s (vlc_threadvar_last w)
        ++ [EvEnter super_mutex; EvLeave super_mutex]
        ++ (if detached t then [EvCloseHandle (th_id t); EvFree th] else [])
        ++ [EvEndThread 0].
Proof.
  intros Hb Hp Hself Hth Ht Hka Hki Henv Hs Hnd Hq Hf.
  remember (S (S fuel)) as f2 eqn:Hf2. cbn [cond_wait_loop].
  assert (Hc : not_cancelled w).
  { right. exists t. rewrite Hself. split; [exact Ht|]. rewrite Hki. apply andb_false_r. }
  assert (Htc : vlc_testcancel E f2 w = Ret tt w)
    by (subst f2; apply testcancel_not_cancelled, Hc).
  rewrite (bind_Ret _ _ _ _ _ Htc).
  destruct (unlock_dynamic E (S fuel) p w Hp)
    as (w2 & Hu & (He2 & Htls2 & Hth2 & Hk2 & Hkey2 & _) & Htr2 & Hn2 & Hdyn2 & _).
  rewrite <- Hf2 in Hu. rewrite (bind_Ret _ _ _ _ _ Hu).
  assert (Hw : vlc_WaitForSingleObject E (handle c) INFINITE w2 =
    Ret WAIT_IO_COMPLETION
        (log (EvWait [handle c] INFINITE WAIT_IO_COMPLETION)
             (set_threads <[th := set_killed true t]> (tick w2)))).
  { apply (wait_single_apc _ INFINITE w2 th t); rewrite ?He2, ?Hn2, ?Hth2; assumption. }
  rewrite (bind_Ret _ _ _ _ _ Hw).
  set (w3 := log _ _).
  assert (Hp3 : dynamic_mutex p w3) by (apply Hdyn2; exact Hp).
  destruct (lock_dynamic E (S fuel) p w3 Hp3)
    as (w4 & Hl & (He4 & Htls4 & Hth4 & Hk4 & Hkey4 & _) & Htr4 & _ & Hdyn4 & _).
  rewrite <- Hf2 in Hl. rewrite (bind_Ret _ _ _ _ _ Hl).
  cbn [Z.eqb WAIT_IO_COMPLETION Pos.eqb]. subst f2.
  remember (S fuel) as f1 eqn:Hf1. cbn [cond_wait_loop]. subst f1.
  destruct (testcancel_exits fuel w4 th (set_killed true t)) as (w' & s & Hx & Htr).
  - unfold thread_self. rewrite Htls4, Hkey4. subst w3. cbn. rewrite Htls2, Hkey2.
    exact Hself.
  - exact Hth.
  - rewrite Hth4. subst w3. cbn. apply lookup_insert_eq.
  - cbn. rewrite Hka. reflexivity.
  - apply Hdyn4. apply (Hdyn2 _ Hs).
  - rewrite Hk4. subst w3. mred. rewrite Hk2. exact Hnd.
  - rewrite Hk4. subst w3. mred. rewrite Hk2. exact Hq.
  - rewrite Hk4. subst w3. mred. rewrite Hk2. lia.
  - exists w', s. unfold bind at 1. rewrite Hx.
    split; [reflexivity|]. rewrite Htr, Htr4, Hk4. subst w3. mred.
    rewrite Htr2, Hk2, <- !app_assoc. reflexivity.
Qed.

(** X7: a thread that is cancelled while it waits in [vlc_cond_wait] takes
    its mutex again before it runs its cleanup handlers, and ends
    without resetting the event. *)
Theorem cond_wait_cancelled fuel c p w th t :
  handle c ≠ NULL →
  events w !! handle c = Some false →
  dynamic_mutex p w →
  thread_self w = th → th ≠ NULL → threads w !! th = Some t →
  killable t = true → killed t = false →
  env_wait E (now w) = IoCompletion th →
  super_ready w → NoDup (tv_id <$> vlc_threadvar_last w) →
  quiet_destructors E (vlc_threadvar_last w) →
  (length (vlc_threadvar_last w) + 6 ≤ fuel)%nat →
  ∃ w' s, vlc_cond_wait E fuel c p w = Exit w'
    ∧ trace w' = trace w
        ++ [EvLeave p; EvWait [handle c] INFINITE WAIT_IO_COMPLETION; EvEnter p]
        ++ handler_calls (cleaners t)
        ++ drain_events s (vlc_threadvar_last w)
        ++ [EvEnter super_mutex; EvLeave super_mutex]
        ++ (if detached t then [EvCloseHandle (th_id t); EvFree th] else [])
        ++ [EvEndThread 0].
Proof.
  intros Hnn Hb Hp Hself Hth Ht Hka Hki Henv Hs Hnd Hq Hf.
  destruct fuel as [|[|[|[|fuel]]]]; try lia.
  destruct (cond_wait_loop_cancelled fuel c p w th t) as (w' & s & Hx & Htr);
    try assumption; [lia|].
  exists w', s. split; [|exact Htr].
  remember (S (S (S fuel))) as f3 eqn:Hf3. cbn [vlc_cond_wait].
  apply Z.eqb_neq in Hnn. rewrite Hnn. unfold bind. rewrite Hx. reflexivity.
Qed.

End CondWait.

(** ** Condition variables without an event *)

Section NullHandle.
Variable E : environment.

Lemma testcancel_no_ret fuel w t :
  thread_self w ≠ NULL → threads w !! thread_self w = Some t →
  killable t && killed t = true →
  ∀ a w', vlc_testcancel E fuel w ≠ Ret a w'.
Proof.
  intros Hn Ht Hk a w'. destruct fuel as [|fuel]; [discriminate|].
  rewrite (testcancel_unfold E fuel w _ t eq_refl Hn Ht), Hk.
  revert a w'. apply no_ret_bind. intros _. apply no_ret_bind. intros t'.
  apply no_ret_bind. intros _. apply no_ret_bind. intros _. apply no_ret_endthread.
Qed.

Lemma msleep_cancelled fuel delay w t :
  thread_self w ≠ NULL → threads w !! thread_self w = Some t →
  killable t && killed t = true →
  (∀ a w', msleep E fuel delay w ≠ Ret a w')
  ∧ (∀ t0, mdate_reading E (now w) = Some t0 →
       super_ready w → NoDup (tv_id <$> vlc_threadvar_last w) →
       quiet_destructors E (vlc_threadvar_last w) →
       (length (vlc_threadvar_last w) + 5 ≤ fuel)%nat →
       ∃ w' s, msleep E fuel delay w = Exit w'
         ∧ trace w' = trace w ++ handler_calls (cleaners t)
             ++ drain_events s (vlc_threadvar_last w)
             ++ [EvEnter super_mutex; EvLeave super_mutex]
             ++ (if detached t then [EvCloseHandle (th_id t); EvFree (thread_self w)]
                 else [])
             ++ [EvEndThread 0]).
Proof.
  intros Hn Ht Hk. split.
  - intros a w' H. destruct fuel as [|[|fuel]]; [discriminate| |].
    + cbn [msleep mwait] in H. apply bind_inv in H as (t0 & w1 & _ & H). discriminate.
    + cbn [msleep mwait] in H. apply bind_inv in H as (t0 & w1 & Hd & H).
      apply mdate_inv in Hd as [_ ->].
      apply bind_inv in H as ([] & w2 & H & _).
      exact (testcancel_no_ret fuel (tick w) t Hn Ht Hk _ _ H).
  - intros t0 Ht0 Hs Hnd Hq Hf.
    destruct fuel as [|[|[|fuel]]]; [lia|lia|lia|].
    cbn [msleep mwait]. rewrite (bind_Ret _ _ _ _ _ (mdate_run E w t0 Ht0)).
    destruct (testcancel_exits E fuel (tick w) (thread_self w) t
                eq_refl Hn Ht Hk Hs Hnd Hq ltac:(cbn; lia)) as (w' & s & Hx & Htr).
    exists w', s. unfold bind at 1. rewrite Hx. split; [reflexivity | exact Htr].
Qed.


Lemma msleep_returns fuel delay w w' :
  msleep E fuel delay w = Ret tt w' →
  ∃ t0 t1 (ds : list (Z * Z)),
    mdate_reading E (now w) = Some t0
    ∧ mdate_reading E (S (now w + 2 * length ds)) = Some t1
    ∧ t0 + delay ≤ t1
    ∧ trace w' = trace w ++ map (λ x, EvSleep x.1 x.2) ds
    ∧ Forall (λ x, 0 ≤ x.1 ≤ 0x7fffffff) ds.
Proof.
  destruct fuel as [|fuel]; [discriminate|]. cbn [msleep]. intros H.
  apply bind_inv in H as (t0 & w1 & Hd & H). apply mdate_inv in Hd as [Ht0 ->].
  apply mwait_returns in H as (ds & Htr & Hn & (t1 & Ht1 & Hle) & Hall).
  cbn in Htr, Hn, Ht1. exists t0, t1, ds.
  split; [exact Ht0|]. split; [exact Ht1|]. split; [exact Hle|]. split; [exact Htr|].
  apply Forall_lookup. intros i [d r] Hi.
  destruct (Hall i d r Hi) as (ti & _ & Hlt & ->). cbn.
  apply mwait_delay_bounds, Hlt.
Qed.

Lemma vlc_Sleep_full delay w :
  (∀ self, env_wait E (now w) ≠ IoCompletion self) →
  vlc_Sleep E delay w = Ret 0 (log (EvSleep delay 0) (tick w)).
Proof.
  intros Hw. unfold vlc_Sleep, vlc_WaitForMultipleObjects, SleepEx. cbn [Z.eqb].
  mred. destruct (env_wait E (now w)) as [i|i|self| |]; try reflexivity.
  exfalso. exact (Hw self eq_refl).
Qed.

Lemma mwait_loop_sleeps deadline : ∀ (k fuel : nat) w,
  not_cancelled w →
  (∀ i : nat, (i < k)%nat →
     ∃ ti, mdate_reading E (now w + 2 * i) = Some ti ∧ ti < deadline
       ∧ ∀ self, env_wait E (S (now w + 2 * i)) ≠ IoCompletion self) →
  (∃ t, mdate_reading E (now w + 2 * k) = Some t ∧ deadline ≤ t) →
  (k + 1 ≤ fuel)%nat →
  ∃ w' (ds : list Z), mwait_loop E fuel deadline w = Ret tt w'
    ∧ length ds = k
    ∧ trace w' = trace w ++ map (λ d, EvSleep d 0) ds
    ∧ ∀ (i : nat) d, ds !! i = Some d →
        ∃ ti, mdate_reading E (now w + 2 * i) = Some ti ∧ d = mwait_delay deadline ti.
Proof.
  induction k as [|k IH]; intros fuel w Hc Hbefore (t & Ht & Hle) Hf.
  - destruct fuel as [|fuel]; [lia|]. cbn [mwait_loop].
    rewrite Nat.mul_0_r, Nat.add_0_r in Ht.
    rewrite (bind_Ret _ _ _ _ _ (mdate_run E w t Ht)). cbv zeta.
    destruct (Z.ltb_spec 0 (deadline - t)); [lia|].
    exists (tick w), []. split; [reflexivity|]. split; [reflexivity|].
    split; [cbn; rewrite app_nil_r; reflexivity|]. intros i d Hi. discriminate.
  - destruct fuel as [|[|fuel]]; [lia|lia|].
    destruct (Hbefore O ltac:(lia)) as (t0 & Ht0 & Hlt & Hw).
    rewrite Nat.mul_0_r, Nat.add_0_r in Ht0, Hw.
    remember (S fuel) as f eqn:Hf'. cbn [mwait_loop].
    rewrite (bind_Ret _ _ _ _ _ (mdate_run E w t0 Ht0)). cbv zeta.
    destruct (Z.ltb_spec 0 (deadline - t0)); [|lia].
    pose proof (mwait_delay_run deadline t0) as Hrun. cbv zeta in Hrun. rewrite Hrun.
    rewrite (bind_Ret _ _ _ _ _ (vlc_Sleep_full (mwait_delay deadline t0) (tick w) Hw)).
    set (w2 := log (EvSleep (mwait_delay deadline t0) 0) (tick (tick w))).
    assert (Hc2 : not_cancelled w2) by exact Hc.
    subst f. rewrite (bind_Ret _ _ _ _ _ (testcancel_not_cancelled E fuel w2 Hc2)).
    destruct (IH (S fuel) w2 Hc2) as (w' & ds & Hl & Hlen & Htr & Hall).
    + intros i Hi. destruct (Hbefore (S i) ltac:(lia)) as (ti & Hti & Hlti & Hwi).
      exists ti. replace (now w2 + 2 * i)%nat with (now w + 2 * S i)%nat
        by (subst w2; cbn; lia). auto.
    + exists t. replace (now w2 + 2 * k)%nat with (now w + 2 * S k)%nat
        by (subst w2; cbn; lia). auto.
    + lia.
    + exists w', (mwait_delay deadline t0 :: ds). split; [exact Hl|].
      split; [cbn; lia|]. split.
      * rewrite Htr. subst w2. cbn. rewrite <- app_assoc. reflexivity.
      * intros [|i] d Hi.
        -- injection Hi as <-. exists t0. rewrite Nat.mul_0_r, Nat.add_0_r. auto.
        -- destruct (Hall i d Hi) as (ti & Hti & Hd). exists ti.
           replace (now w + 2 * S i)%nat with (now w2 + 2 * i)%nat
             by (subst w2; cbn; lia). auto.
Qed.

Lemma msleep_sleeps delay (k fuel : nat) w t0 :
  not_cancelled w →
  mdate_reading E (now w) = Some t0 →
  (∀ i : nat, (i < k)%nat →
     ∃ ti, mdate_reading E (S (now w) + 2 * i) = Some ti ∧ ti < t0 + delay
       ∧ ∀ self, env_wait E (S (S (now w) + 2 * i)) ≠ IoCompletion self) →
  (∃ t, mdate_reading E (S (now w) + 2 * k) = Some t ∧ t0 + delay ≤ t) →
  (k + 3 ≤ fuel)%nat →
  ∃ w' (ds : list Z), msleep E fuel delay w = Ret tt w'
    ∧ length ds = k
    ∧ trace w' = trace w ++ map (λ d, EvSleep d 0) ds
    ∧ ∀ (i : nat) d, ds !! i = Some d →
        ∃ ti, mdate_reading E (S (now w) + 2 * i) = Some ti
          ∧ d = mwait_delay (t0 + delay) ti.
Proof.
  intros Hc Ht0 Hbefore Hlast Hf.
  destruct fuel as [|[|[|fuel]]]; [lia|lia|lia|].
  remember (S fuel) as f eqn:Hf'. cbn [msleep mwait].
  rewrite (bind_Ret _ _ _ _ _ (mdate_run E w t0 Ht0)).
  assert (Hc1 : not_cancelled (tick w)) by exact Hc.
  subst f. rewrite (bind_Ret _ _ _ _ _ (testcancel_not_cancelled E fuel (tick w) Hc1)).
  apply (mwait_loop_sleeps (t0 + delay) k (S fuel) (tick w) Hc1 Hbefore Hlast). lia.
Qed.

(** C9 (as amended): on a condition variable without an event,
    [vlc_cond_wait] is [msleep (50000)] and [vlc_cond_timedwait] is
    [msleep (50000)] followed by the return of 0, whatever the deadline
    and the mutex are, and [vlc_cond_signal] and [vlc_cond_broadcast] do
    nothing.  The calls are cancellation points and do not always
    return: a thread that is cancellable and cancelled is ended, without
    a sleep.  When they return, the clock has advanced by at least 50000
    between the first and the last date read, after any number of
    sleeps.  For a thread with no cancellation to act upon they return
    once the clock has reached that date, after sleeps that are not
    interrupted, each for the time left in milliseconds; when the clock
    does not move before the sleep, that is one sleep of 50
    milliseconds.  The dates of [mdate] are between 0 and [2^64 / 10],
    so that neither the deadline, 50000 after the first of them, nor
    the time left to it overflows. *)
Theorem cond_null_handle fuel c p_mutex deadline w :
  handle c = NULL →
  vlc_cond_wait E (S fuel) c p_mutex w = msleep E fuel 50000 w
  ∧ vlc_cond_timedwait E fuel c p_mutex deadline w = (msleep E fuel 50000;; ret 0) w
  ∧ (∀ t, thread_self w ≠ NULL → threads w !! thread_self w = Some t →
       killable t && killed t = true →
       (∀ a w', vlc_cond_wait E (S fuel) c p_mutex w ≠ Ret a w')
       ∧ (∀ r w', vlc_cond_timedwait E fuel c p_mutex deadline w ≠ Ret r w')
       ∧ (∀ t0, mdate_reading E (now w) = Some t0 →
            super_ready w → NoDup (tv_id <$> vlc_threadvar_last w) →
            quiet_destructors E (vlc_threadvar_last w) →
            (length (vlc_threadvar_last w) + 5 ≤ fuel)%nat →
            ∃ w' s, vlc_cond_wait E (S fuel) c p_mutex w = Exit w'
              ∧ vlc_cond_timedwait E fuel c p_mutex deadline w = Exit w'
              ∧ trace w' = trace w ++ handler_calls (cleaners t)
                  ++ drain_events s (vlc_threadvar_last w)
                  ++ [EvEnter super_mutex; EvLeave super_mutex]
                  ++ (if detached t
                      then [EvCloseHandle (th_id t); EvFree (thread_self w)] else [])
                  ++ [EvEndThread 0]))
  ∧ (∀ r w', vlc_cond_timedwait E fuel c p_mutex deadline w = Ret r w' →
       r = 0 ∧ vlc_cond_wait E (S fuel) c p_mutex w = Ret tt w'
       ∧ ∃ t0 t1 (ds : list (Z * Z)),
           mdate_reading E (now w) = Some t0
           ∧ mdate_reading E (S (now w + 2 * length ds)) = Some t1
           ∧ t0 + 50000 ≤ t1
           ∧ trace w' = trace w ++ map (λ x, EvSleep x.1 x.2) ds
           ∧ Forall (λ x, 0 ≤ x.1 ≤ 0x7fffffff) ds)
  ∧ (∀ t0 t3,
       not_cancelled w →
       mdate_reading E (now w) = Some t0 →
       mdate_reading E (S (now w)) = Some t0 →
       env_wait E (S (S (now w))) = Expired →
       mdate_reading E (S (S (S (now w)))) = Some t3 →
       t0 + 50000 ≤ t3 →
       (4 ≤ fuel)%nat →
       ∃ w', vlc_cond_wait E (S fuel) c p_mutex w = Ret tt w'
         ∧ vlc_cond_timedwait E fuel c p_mutex deadline w = Ret 0 w'
         ∧ trace w' = trace w ++ [EvSleep 50 0])
  ∧ (∀ (k : nat) t0,
       not_cancelled w →
       mdate_reading E (now w) = Some t0 →
       (∀ i : nat, (i < k)%nat →
          ∃ ti, mdate_reading E (S (now w) + 2 * i) = Some ti ∧ ti < t0 + 50000
            ∧ ∀ self, env_wait E (S (S (now w) + 2 * i)) ≠ IoCompletion self) →
       (∃ t, mdate_reading E (S (now w) + 2 * k) = Some t ∧ t0 + 50000 ≤ t) →
       (k + 3 ≤ fuel)%nat →
       ∃ w' (ds : list Z), vlc_cond_wait E (S fuel) c p_mutex w = Ret tt w'
         ∧ vlc_cond_timedwait E fuel c p_mutex deadline w = Ret 0 w'
         ∧ length ds = k
         ∧ trace w' = trace w ++ map (λ d, EvSleep d 0) ds
         ∧ ∀ (i : nat) d, ds !! i = Some d →
             ∃ ti, mdate_reading E (S (now w) + 2 * i) = Some ti
               ∧ d = mwait_delay (t0 + 50000) ti)
  ∧ vlc_cond_signal c w = Ret tt w
  ∧ vlc_cond_broadcast c w = Ret tt w.
Proof.
  intros Hh.
  assert (H1 : vlc_cond_wait E (S fuel) c p_mutex w = msleep E fuel 50000 w).
  { cbn [vlc_cond_wait]. rewrite Hh. reflexivity. }
  assert (H2 : vlc_cond_timedwait E fuel c p_mutex deadline w
               = (msleep E fuel 50000;; ret 0) w).
  { unfold vlc_cond_timedwait. rewrite Hh. reflexivity. }
  split; [exact H1|]. split; [exact H2|]. rewrite H1, H2.
  unfold vlc_cond_signal, vlc_cond_broadcast. rewrite Hh. cbn [Z.eqb NULL].
  split; [|split; [|split; [|split; [|auto]]]].
  - intros t Hn Ht Hk.
    destruct (msleep_cancelled fuel 50000 w t Hn Ht Hk) as [Hnr Hx].
    split; [exact Hnr|]. split.
    + intros r w' H. apply bind_inv in H as (a & w1 & Hm & _). exact (Hnr _ _ Hm).
    + intros t0 Ht0 Hs Hnd Hq Hf.
      destruct (Hx t0 Ht0 Hs Hnd Hq Hf) as (w' & s & He & Htr).
      exists w', s. split; [exact He|]. split; [|exact Htr].
      unfold bind. rewrite He. reflexivity.
  - intros r w' H. apply bind_inv in H as ([] & w1 & Hm & H).
    injection H as <- <-. split; [reflexivity|]. split; [exact Hm|].
    exact (msleep_returns fuel 50000 w w1 Hm).
  - intros t0 t3 Hc Hr0 Hr1 Hw Hr3 Hle Hf.
    destruct fuel as [|[|[|[|fuel]]]]; try lia.
    destruct (msleep_fixed_delay E fuel w t0 t3 Hc Hr0 Hr1 Hw Hr3 Hle) as (w' & Hm & Htr).
    exists w'. rewrite Hm. split; [reflexivity|]. split; [|exact Htr].
    unfold bind. rewrite Hm. reflexivity.
  - intros k t0 Hc Ht0 Hbefore Hlast Hf.
    destruct (msleep_sleeps 50000 k fuel w t0 Hc Ht0 Hbefore Hlast Hf)
      as (w' & ds & Hm & Hlen & Htr & Hall).
    exists w', ds. rewrite Hm. split; [reflexivity|]. split; [|auto].
    unfold bind. rewrite Hm. reflexivity.
Qed.

End NullHandle.

(** ** The timeouts of a timed wait *)

Section TimedwaitDelays.
Variable E : environment.

Lemma timedwait_delay_bounds deadline t :
  0 ≤ timedwait_delay deadline t ≤ 0x7fffffff
  ∧ (t ≤ deadline → 1000 * timedwait_delay deadline t ≤ deadline - t).
Proof.
  unfold timedwait_delay. split; [lia|]. intros Hle.
  assert (0 ≤ Z.quot (deadline - t) 1000) by (apply Z.quot_pos; lia).
  assert (1000 * Z.quot (deadline - t) 1000 ≤ deadline - t)
    by (apply Z.mul_quot_le; lia).
  lia.
Qed.

Lemma timedwait_loop_delays h c p deadline :
  handle c = h → ∀ fuel w res w',
  handle (super_variable w) ≠ h →
  timedwait_loop E fuel c p deadline w = Ret res w' →
  ∃ tr, trace w' = trace w ++ tr
    ∧ Forall (λ x, ∃ (n : nat) t, (now w ≤ n)%nat ∧ clock_reading E c n = Some t
                     ∧ x.1 = timedwait_delay deadline t) (waits_on h tr).
Proof.
  intros Hh. induction fuel as [|fuel IH]; intros w res w' Hsv H; [discriminate|].
  destruct (quiet_core E h fuel) as (Hlock & _ & Hunlock & _ & _ & Htc & _).
  cbn [timedwait_loop] in H.
  apply bind_inv in H as ([] & w1 & H1 & H).
  apply testcancel_Ret in H1 as ->.
  apply bind_inv in H as (total & w2 & H2 & H).
  apply clock_read_inv in H2 as [Hclk ->]. cbv zeta in H.
  rewrite timedwait_delay_run in H.
  apply bind_inv in H as ([] & w3 & H3 & H).
  apply (quiet_Ret h) in H3; [|apply Hunlock].
  destruct H3 as (Hsv3 & Hn3 & He3 & tr3 & Htr3 & Hw3); [exact Hsv|].
  apply bind_inv in H as (result & w4 & H4 & H). rewrite Hh in H4.
  apply wait_single_inv in H4 as (Hres & Htr4 & Hs4 & Hsv4 & Hn4).
  apply bind_inv in H as ([] & w5 & H5 & H).
  apply (quiet_Ret h) in H5; [|apply Hlock].
  destruct H5 as (Hsv5 & Hn5 & He5 & tr5 & Htr5 & Hw5); [cbn in *; congruence|].
  cbn in Hsv3, Hn3, Htr3.
  set (delay := timedwait_delay deadline total) in *.
  assert (Htr : trace w5 = trace w ++ (tr3 ++ [EvWait [h] delay result] ++ tr5)).
  { rewrite Htr5, Htr4, Htr3, <- !app_assoc. reflexivity. }
  assert (Hwaits : waits_on h (tr3 ++ [EvWait [h] delay result] ++ tr5)
                   = [(delay, result)]).
  { rewrite !waits_on_app, Hw3, Hw5. cbn. rewrite decide_True by reflexivity.
    reflexivity. }
  assert (Hthis : ∃ (n : nat) t, (now w ≤ n)%nat ∧ clock_reading E c n = Some t
                    ∧ (delay, result).1 = timedwait_delay deadline t).
  { exists (now w), total. split; [lia|]. split; [exact Hclk | reflexivity]. }
  destruct (result =? WAIT_IO_COMPLETION) eqn:Hio.
  - apply IH in H as (tr & Htr' & Hall); [|congruence].
    exists ((tr3 ++ [EvWait [h] delay result] ++ tr5) ++ tr).
    split; [rewrite Htr', Htr, <- !app_assoc; reflexivity|].
    rewrite waits_on_app, Hwaits. cbn [app]. constructor; [exact Hthis|].
    eapply Forall_impl; [exact Hall|]. intros x (n & t & Hn & Ht & Hx).
    exists n, t. split; [lia|]. auto.
  - injection H as <- <-. eexists. split; [exact Htr|]. rewrite Hwaits.
    constructor; [exact Hthis | constructor].
Qed.

(** X8: for a deadline and dates whose difference does not overflow,
    each wait of [vlc_cond_timedwait] on the event has a timeout: the
    time from a date read on the clock of the condition variable to the
    deadline, in milliseconds, rounded down, at least 0 and at most
    [0x7fffffff]; it does not go beyond the deadline. *)
Theorem timedwait_timeouts fuel c p deadline w r w' :
  handle c ≠ NULL →
  handle (super_variable w) ≠ handle c →
  no_overflow (clock_reading E c) deadline w →
  vlc_cond_timedwait E fuel c p deadline w = Ret r w' →
  ∃ tr, trace w' = trace w ++ tr ++ [EvResetEvent (handle c)]
    ∧ Forall (λ x, ∃ (n : nat) t,
                (now w ≤ n)%nat ∧ clock_reading E c n = Some t
                ∧ x.1 = Z.min (Z.max (Z.quot (deadline - t) 1000) 0) 0x7fffffff
                ∧ 0 ≤ x.1 ≤ 0x7fffffff ∧ x.1 ≠ INFINITE
                ∧ (t ≤ deadline → 1000 * x.1 ≤ deadline - t))
             (waits_on (handle c) tr).
Proof.
  intros Hnn Hsv _. unfold vlc_cond_timedwait.
  apply Z.eqb_neq in Hnn. rewrite Hnn. intros H.
  apply bind_inv in H as (res & w1 & Hl & H).
  eapply timedwait_loop_delays in Hl as (tr & Htr & Hall); [|reflexivity|exact Hsv].
  unfold ResetEvent in H. cbv beta iota delta [bind modify ret] in H.
  injection H as <- <-. exists tr. mred. rewrite Htr, app_assoc.
  split; [reflexivity|]. eapply Forall_impl; [exact Hall|].
  intros x (n & t & Hn & Ht & Hx). exists n, t.
  pose proof (timedwait_delay_bounds deadline t) as [Hb Hd].
  split; [exact Hn|]. split; [exact Ht|]. split; [exact Hx|]. rewrite Hx.
  split; [exact Hb|]. split; [unfold INFINITE; lia | exact Hd].
Qed.

End TimedwaitDelays.

(** ** Static mutexes *)

Section StaticMutex.
Variable E : environment.
Variable Sys : system.

(** Under the super lock. *)
Lemma super_section fuel p m w :
  static_mutex E p m w →
  ∃ w1, vlc_mutex_lock E (S fuel) super_mutex w = Ret tt w1
    ∧ only_mutexes w w1 ∧ trace w1 = trace w ++ [EvEnter super_mutex]
    ∧ static_mutex E p m w1
    ∧ ∀ m', ∃ w2,
        vlc_mutex_unlock E (S fuel) super_mutex (set_mutexes <[p := m']> w1) = Ret tt w2
        ∧ only_mutexes w1 w2
        ∧ trace w2 = trace w1 ++ [EvLeave super_mutex]
        ∧ mutexes w2 !! p = Some m'
        ∧ super_ready w2.
Proof.
  intros (Hm & Hd & Hne & Hs & Hst).
  destruct (lock_dynamic E fuel super_mutex w Hs)
    as (w1 & Hlk & Ho1 & Htr1 & _ & Hdyn1 & Hfr1).
  exists w1. split; [exact Hlk|]. split; [exact Ho1|]. split; [exact Htr1|].
  assert (Hm1 : mutexes w1 !! p = Some m) by (rewrite (Hfr1 p Hne Hst); exact Hm).
  split; [split; [exact Hm1|]; split; [exact Hd|]; split; [exact Hne|];
          split; [apply Hdyn1, Hs | exact Hst]|].
  intros m'.
  assert (Hs2 : super_ready (set_mutexes <[p := m']> w1)).
  { destruct (Hdyn1 _ Hs) as (ms & Hms & Hds). exists ms. cbn.
    rewrite lookup_insert_ne by assumption. auto. }
  destruct (unlock_dynamic E fuel super_mutex _ Hs2)
    as (w2 & Hu & Ho2 & Htr2 & _ & Hdyn2 & Hfr2).
  exists w2. split; [exact Hu|]. split; [exact Ho2|]. split; [exact Htr2|]. split.
  - rewrite (Hfr2 p Hne). cbn. apply lookup_insert_eq.
  - apply Hdyn2, Hs2.
Qed.

Lemma set_mutexes_id p m w : mutexes w !! p = Some m → set_mutexes <[p := m]> w = w.
Proof.
  intros H. destruct w. unfold set_mutexes. cbn in *. rewrite insert_id by exact H. reflexivity.
Qed.

(** X9: [vlc_mutex_trylock] on a static mutex takes the mutex and returns 0
    when it is free, and returns [EBUSY] when it is locked; it goes
    through the super lock and does not wait.  On a critical section it
    returns 0 exactly when [TryEnterCriticalSection] succeeds, as it
    does for a section that the caller owns. *)
Theorem trylock_result fuel p m w :
  mutexes w !! p = Some m →
  (static_mutex E p m w →
   ∃ w', vlc_mutex_trylock E Sys (S fuel) p w = Ret (if locked m then EBUSY else 0) w'
     ∧ mutexes w' !! p = Some (set_locked true m)
     ∧ trace w' = trace w ++ [EvEnter super_mutex; EvLeave super_mutex])
  ∧ (dynamic m = true →
     ∃ ok w', TryEnterCriticalSection E Sys p w = Ret ok w'
       ∧ vlc_mutex_trylock E Sys fuel p w = Ret (if ok then 0 else EBUSY) w'
       ∧ (ok = true ↔ RecursionCount m ≠ 0 ∨ sys_try Sys (now w) p = true)
       ∧ (ok = false → w' = tick w)).
Proof.
  intros Hm. split.
  - intros Hst. pose proof Hst as (_ & Hd & Hne & _).
    unfold vlc_mutex_trylock.
    rewrite (bind_Ret _ _ _ _ _ (load_mutex_run _ _ _ Hm)), Hd. cbn [negb]. cbv zeta.
    assert ((p =? super_mutex) = false) as -> by (apply Z.eqb_neq; exact Hne).
    cbn [negb assert]. rewrite bind_ret.
    destruct (super_section fuel p m w Hst) as (w1 & Hlk & Ho1 & Htr1 & Hst1 & Hun).
    rewrite (bind_Ret _ _ _ _ _ Hlk).
    destruct Hst1 as (Hm1 & _).
    rewrite (bind_Ret _ _ _ _ _ (load_mutex_run _ _ _ Hm1)).
    destruct (locked m) eqn:Hl; cbn [negb].
    + rewrite bind_ret.
      destruct (Hun m) as (w2 & Hu & _ & Htr2 & Hm2 & _).
      rewrite (set_mutexes_id _ _ _ Hm1) in Hu. rewrite (bind_Ret _ _ _ _ _ Hu).
      exists w2. split; [reflexivity|]. split.
      * rewrite Hm2. f_equal. unfold set_locked. rewrite <- Hl. destruct m; reflexivity.
      * rewrite Htr2, Htr1, <- app_assoc. reflexivity.
    + destruct (Hun (set_locked true m)) as (w2 & Hu & _ & Htr2 & Hm2 & _).
      mred. rewrite Hu.
      exists w2. split; [reflexivity|]. split; [exact Hm2|].
      rewrite Htr2. cbn. rewrite Htr1, <- app_assoc. reflexivity.
  - intros Hd.
    assert (Htry : ∃ ok w', TryEnterCriticalSection E Sys p w = Ret ok w'
              ∧ (ok = true ↔ RecursionCount m ≠ 0 ∨ sys_try Sys (now w) p = true)
              ∧ (ok = false → w' = tick w)).
    { unfold TryEnterCriticalSection.
      rewrite (bind_Ret _ _ _ _ _ (load_mutex_run _ _ _ Hm)).
      destruct (Z.eqb_spec (RecursionCount m) 0) as [Hz|Hnz].
      - rewrite !bind_gets, !bind_modify. cbn [now tick].
        destruct (sys_try Sys (now w) p) eqn:Ht.
        + rewrite !bind_modify.
          assert (Hi : mutexes (set_mutexes (interfere (env_static E (now w))) (tick w)) !! p
                       = Some m) by (cbn; apply interfere_dynamic; assumption).
          rewrite (bind_Ret _ _ _ _ _ (load_mutex_run _ _ _ Hi)).
          unfold store_mutex. rewrite !bind_modify.
          eexists true, _. split; [reflexivity|]. split; [tauto | discriminate].
        + exists false, (tick w). split; [reflexivity|]. split; [|reflexivity].
          split; [discriminate | intros [? | ?]; congruence].
      - unfold store_mutex. rewrite !bind_modify.
        eexists true, _. split; [reflexivity|]. split; [tauto | discriminate]. }
    destruct Htry as (ok & w' & Htry & Hok & Hfail). exists ok, w'.
    split; [exact Htry|]. split; [|auto].
    unfold vlc_mutex_trylock.
    rewrite (bind_Ret _ _ _ _ _ (load_mutex_run _ _ _ Hm)), Hd. cbn [negb].
    rewrite (bind_Ret _ _ _ _ _ Htry). reflexivity.
Qed.


(** X10: [vlc_mutex_unlock] on a static mutex fails the assertion when the
    mutex is not locked; otherwise it clears [locked] under the super
    lock and, when a thread has announced that it waits, wakes the
    waiters through the super condition variable. *)
Theorem unlock_static fuel p m w :
  static_mutex E p m w →
  handle (super_variable w) ≠ NULL →
  (locked m = false → vlc_mutex_unlock E (S (S fuel)) p w = Abort)
  ∧ (locked m = true →
     ∃ w', vlc_mutex_unlock E (S (S fuel)) p w = Ret tt w'
       ∧ mutexes w' !! p = Some (set_locked false m)
       ∧ trace w' = trace w ++ [EvEnter super_mutex]
           ++ (if contention m =? 0 then []
               else [EvSetEvent (handle (super_variable w))])
           ++ [EvLeave super_mutex]).
Proof.
  intros Hst Hsv. pose proof Hst as (Hm & Hd & Hne & _).
  remember (S fuel) as f eqn:Hf. cbn [vlc_mutex_unlock]. subst f.
  rewrite (bind_Ret _ _ _ _ _ (load_mutex_run _ _ _ Hm)), Hd. cbn [negb].
  assert ((p =? super_mutex) = false) as -> by (apply Z.eqb_neq; exact Hne).
  cbn [negb assert]. rewrite bind_ret.
  destruct (super_section fuel p m w Hst)
    as (w1 & Hlk & (He1 & _ & _ & _ & _ & Hsv1) & Htr1 & Hst1 & Hun).
  rewrite (bind_Ret _ _ _ _ _ Hlk).
  destruct Hst1 as (Hm1 & _).
  rewrite (bind_Ret _ _ _ _ _ (load_mutex_run _ _ _ Hm1)).
  split; intros Hl; rewrite Hl; [reflexivity|].
  cbn [assert]. rewrite bind_ret. unfold store_mutex. rewrite bind_modify.
  destruct (Hun (set_locked false m)) as (w2 & Hu & _ & Htr2 & Hm2 & _).
  destruct (contention m =? 0) eqn:Hc; cbn [negb].
  - rewrite bind_ret, Hu. exists w2. split; [reflexivity|]. split; [exact Hm2|].
    rewrite Htr2. cbn. rewrite Htr1, <- app_assoc. reflexivity.
  - rewrite bind_assoc, bind_gets, (bind_Ret _ _ _ _ _ (cond_broadcast_run _ _)).
    cbn [set_mutexes super_variable]. rewrite Hsv1.
    apply Z.eqb_neq in Hsv. rewrite Hsv.
    match goal with |- ∃ w', vlc_mutex_unlock _ _ _ ?w0 = _ ∧ _ =>
      destruct (unlock_dynamic E fuel super_mutex w0)
        as (w3 & Hu3 & _ & Htr3 & _ & _ & Hfr3)
    end.
    { destruct Hst as (_ & _ & _ & Hs & _).
      destruct (lock_dynamic E fuel super_mutex w Hs) as (w1' & Hlk' & _ & _ & _ & Hdyn & _).
      rewrite Hlk in Hlk'. injection Hlk' as <-.
      destruct (Hdyn _ Hs) as (ms & Hms & Hds). exists ms. cbn.
      rewrite lookup_insert_ne by assumption. auto. }
    exists w3. split; [exact Hu3|]. split.
    + rewrite (Hfr3 p Hne). cbn. apply lookup_insert_eq.
    + rewrite Htr3. cbn. rewrite Htr1, <- !app_assoc. reflexivity.
Qed.

Lemma insert_thread_id th t w :
  threads w !! th = Some t → set_threads <[th := t]> w = w.
Proof.
  intros H. destruct w. unfold set_threads. cbn in *. rewrite insert_id by exact H.
  reflexivity.
Qed.

(** [vlc_mutex_lock] on a free static mutex. *)
Lemma lock_static_free fuel p m w :
  static_mutex E p m w → locked m = false → self_ok w →
  ∃ w', vlc_mutex_lock E (S (S fuel)) p w = Ret tt w'
    ∧ static_mutex E p (set_locked true m) w'
    ∧ trace w' = trace w ++ [EvEnter super_mutex; EvLeave super_mutex]
    ∧ events w' = events w ∧ tls w' = tls w ∧ threads w' = threads w
    ∧ thread_key w' = thread_key w ∧ super_variable w' = super_variable w.
Proof.
  intros Hst Hl Hself. pose proof Hst as (Hm & Hd & Hne & Hs & Hstat).
  rewrite (lock_static_unfold E (S fuel) p w m Hm Hd).
  pose proof (savecancel_off w) as Hsc.
  destruct (vlc_savecancel w) as [canc w1| | |] eqn:Hsave; try contradiction.
  2:{ exfalso. unfold vlc_savecancel, vlc_threadvar_get, TlsGetValue in Hsave.
      rewrite !bind_gets in Hsave. fold (thread_self w) in Hsave.
      destruct Hself as [Hz | [t Ht]].
      - rewrite Hz in Hsave. discriminate.
      - destruct (thread_self w =? NULL); [discriminate|].
        rewrite (bind_Ret _ _ _ _ _ (load_thread_run _ _ _ Ht)) in Hsave. discriminate. }
  2:{ exfalso. unfold vlc_savecancel, vlc_threadvar_get, TlsGetValue in Hsave.
      rewrite !bind_gets in Hsave. fold (thread_self w) in Hsave.
      destruct (thread_self w =? NULL); [discriminate|].
      unfold load_thread at 1 in Hsave. unfold bind at 1 in Hsave.
      destruct (threads w !! thread_self w); discriminate. }
  rewrite (bind_Ret _ _ _ _ _ Hsave).
  destruct Hsc as [Hoff Hcases].
  assert (Hw1 : mutexes w1 = mutexes w ∧ events w1 = events w ∧ tls w1 = tls w
                ∧ thread_key w1 = thread_key w ∧ super_variable w1 = super_variable w
                ∧ trace w1 = trace w ∧ vlc_threadvar_last w1 = vlc_threadvar_last w).
  { destruct Hcases as [(_ & _ & ->) | (_ & t & _ & _ & ->)]; cbn; auto 10. }
  destruct Hw1 as (Hm1 & He1 & Htls1 & Hk1 & Hsv1 & Htr1 & Hkeys1).
  assert (Hst1 : static_mutex E p m w1).
  { split; [rewrite Hm1; exact Hm|]. repeat split; auto.
    destruct Hs as (ms & Hms & Hds). exists ms. rewrite Hm1. auto. }
  assert ((p =? super_mutex) = false) as -> by (apply Z.eqb_neq; exact Hne).
  cbn [negb assert]. rewrite bind_assoc, bind_ret, bind_assoc.
  destruct (super_section fuel p m w1 Hst1)
    as (w2 & Hlk & (He2 & Htls2 & Hth2 & _ & Hk2 & Hsv2) & Htr2 & Hst2 & Hun).
  rewrite (bind_Ret _ _ _ _ _ Hlk).
  destruct Hst2 as (Hm2 & _).
  assert (Hlw : lock_wait E (S fuel) p w2 = Ret tt w2).
  { cbn [lock_wait]. rewrite (bind_Ret _ _ _ _ _ (load_mutex_run _ _ _ Hm2)), Hl.
    reflexivity. }
  rewrite bind_assoc, (bind_Ret _ _ _ _ _ Hlw).
  rewrite bind_assoc, (bind_Ret _ _ _ _ _ (load_mutex_run _ _ _ Hm2)).
  unfold store_mutex. rewrite bind_assoc, bind_modify.
  destruct (Hun (set_locked true m))
    as (w3 & Hu & (He3 & Htls3 & Hth3 & _ & Hk3 & Hsv3) & Htr3 & Hm3 & Hs3).
  rewrite (bind_Ret _ _ _ _ _ Hu).
  assert (Hoff3 : cancel_off (thread_self w) w3).
  { destruct Hoff as [Ho1 Ho2]. split.
    - unfold thread_self in *. rewrite Htls3, Hk3, Htls2, Hk2. exact Ho1.
    - rewrite Hth3, Hth2. exact Ho2. }
  pose proof (restorecancel_off _ canc w3 Hoff3) as Hr.
  destruct (vlc_restorecancel canc w3) as [[] w4| | |] eqn:Hrest; try contradiction.
  2:{ exfalso. unfold vlc_restorecancel, vlc_threadvar_get, TlsGetValue in Hrest.
      rewrite !bind_gets in Hrest.
      assert (((canc =? 0) || (canc =? 1)) = true) as Hc.
      { destruct Hcases as [(_ & -> & _) | (_ & t & _ & -> & _)];
          [reflexivity | destruct (killable t); reflexivity]. }
      rewrite Hc in Hrest. cbn [assert] in Hrest. rewrite bind_ret in Hrest.
      destruct Hoff3 as [Ho1 Ho2]. fold (thread_self w3) in Hrest. rewrite Ho1 in Hrest.
      destruct (thread_self w =? NULL) eqn:Hn; [discriminate|].
      destruct Ho2 as [Hz | (t & Ht & Hkf)]; [rewrite Hz in Hn; discriminate|].
      rewrite (bind_Ret _ _ _ _ _ (load_thread_run _ _ _ Ht)), Hkf in Hrest.
      discriminate. }
  2:{ exfalso. unfold vlc_restorecancel, vlc_threadvar_get, TlsGetValue in Hrest.
      rewrite !bind_gets in Hrest.
      destruct ((canc =? 0) || (canc =? 1)); [|discriminate].
      cbn [assert] in Hrest. rewrite bind_ret in Hrest.
      destruct (_ =? NULL); [discriminate|].
      unfold load_thread at 1 in Hrest. unfold bind at 1 in Hrest.
      destruct (threads w3 !! _) as [t|]; [|discriminate].
      destruct (killable t); discriminate. }
  exists w4. split; [reflexivity|].
  assert (Hw4 : mutexes w4 = mutexes w3 ∧ events w4 = events w3 ∧ tls w4 = tls w3
                ∧ thread_key w4 = thread_key w3 ∧ super_variable w4 = super_variable w3
                ∧ trace w4 = trace w3 ∧ threads w4 = threads w).
  { destruct Hr as [(Hz & ->) | (Hnz & t3 & Ht3 & ->)].
    - repeat split; auto. rewrite Hth3, Hth2.
      destruct Hcases as [(_ & _ & ->) | (Hnz & _)]; [reflexivity | contradiction].
    - cbn. repeat split; auto.
      destruct Hcases as [(Hz & _) | (_ & t & Ht & -> & ->)]; [contradiction|].
      rewrite Hth3, Hth2 in Ht3. cbn in Ht3. rewrite lookup_insert_eq in Ht3.
      injection Ht3 as <-. rewrite Hth3, Hth2. cbn. rewrite insert_insert_eq.
      cbn [set_killable killable]. rewrite set_killable_restore.
      apply insert_id, Ht. }
  destruct Hw4 as (Hm4 & He4 & Htls4 & Hk4 & Hsv4 & Htr4 & Hth4).
  split; [|split].
  - split; [rewrite Hm4; exact Hm3|]. split; [exact Hd|]. split; [exact Hne|].
    split; [|exact Hstat]. destruct Hs3 as (ms & Hms & Hds). exists ms. rewrite Hm4. auto.
  - rewrite Htr4, Htr3. cbn. rewrite Htr2, Htr1, <- app_assoc. reflexivity.
  - rewrite He4, He3, Htls4, Htls3, Hk4, Hk3, Hsv4, Hsv3. cbn.
    rewrite He2, Htls2, Hk2, Hsv2, He1, Htls1, Hk1, Hsv1. auto.
Qed.

(** X11: an uncontended static mutex: [vlc_mutex_lock] followed by
    [vlc_mutex_unlock] goes twice through the super lock, waits for
    nothing, and leaves the mutex and the thread as they were. *)
Theorem lock_unlock_static fuel p m w :
  static_mutex E p m w → locked m = false → contention m = 0 → self_ok w →
  (3 ≤ fuel)%nat →
  ∃ w', (vlc_mutex_lock E fuel p;; vlc_mutex_unlock E fuel p) w = Ret tt w'
    ∧ mutexes w' !! p = Some m
    ∧ trace w' = trace w ++ [EvEnter super_mutex; EvLeave super_mutex;
                             EvEnter super_mutex; EvLeave super_mutex]
    ∧ events w' = events w ∧ tls w' = tls w ∧ threads w' = threads w.
Proof.
  intros Hst Hl Hc Hself Hf. destruct fuel as [|[|fuel]]; try lia.
  destruct (lock_static_free fuel p m w Hst Hl Hself)
    as (w1 & Hlk & Hst1 & Htr1 & He1 & Htls1 & Hth1 & Hk1 & Hsv1).
  rewrite (bind_Ret _ _ _ _ _ Hlk).
  pose proof Hst1 as (Hm1 & Hd1 & Hne & Hs1 & Hstat).
  remember (S fuel) as f eqn:Hf'. cbn [vlc_mutex_unlock]. subst f.
  rewrite (bind_Ret _ _ _ _ _ (load_mutex_run _ _ _ Hm1)).
  rewrite Hd1. cbn [negb].
  assert ((p =? super_mutex) = false) as -> by (apply Z.eqb_neq; exact Hne).
  cbn [negb assert]. rewrite bind_ret.
  destruct (super_section fuel p _ w1 Hst1)
    as (w2 & Hlk2 & (He2 & Htls2 & Hth2 & _) & Htr2 & Hst2 & Hun).
  rewrite (bind_Ret _ _ _ _ _ Hlk2).
  destruct Hst2 as (Hm2 & _).
  rewrite (bind_Ret _ _ _ _ _ (load_mutex_run _ _ _ Hm2)). cbn [locked set_locked assert].
  rewrite bind_ret. unfold store_mutex. rewrite bind_modify.
  cbn [contention set_locked]. rewrite Hc. cbn [Z.eqb negb]. rewrite bind_ret.
  destruct (Hun (set_locked false (set_locked true m)))
    as (w3 & Hu & (He3 & Htls3 & Hth3 & _) & Htr3 & Hm3 & _).
  rewrite Hu. exists w3. split; [reflexivity|]. split; [|split].
  - rewrite Hm3. f_equal. unfold set_locked. cbn. rewrite <- Hl. destruct m; reflexivity.
  - rewrite Htr3. cbn. rewrite Htr2, Htr1, <- !app_assoc. reflexivity.
  - rewrite He3, Htls3, Hth3. cbn. rewrite He2, Htls2, Hth2. auto.
Qed.

End StaticMutex.

(** ** Creation and destruction of mutexes and condition variables *)

Section Objects.
Variable E : environment.
Variable Sys : system.

Lemma mutex_init_run p w :
  vlc_mutex_init p w =
    Ret tt (set_mutexes <[p := match mutexes w !! p with
                               | Some m => Mutex true (locked m) (contention m) 0
                               | None => Mutex true false 0 0
                               end]> w).
Proof.
  unfold vlc_mutex_init, InitializeCriticalSection. mred.
  rewrite lookup_insert_eq. mred. unfold set_dynamic.
  destruct w as [ev ms tl th ks k sv n tr]. unfold set_mutexes. cbn.
  rewrite insert_insert_eq. destruct (ms !! p); reflexivity.
Qed.

(** X12: a mutex set up by [vlc_mutex_init] or [vlc_mutex_init_recursive] is
    a critical section that its owner can enter again without waiting;
    [vlc_mutex_destroy] removes it, and fails the assertion on a static
    mutex. *)
Theorem mutex_init_destroy fuel p w :
  vlc_mutex_init_recursive p w = vlc_mutex_init p w
  ∧ (∀ m, mutexes w !! p = Some m → dynamic m = false → vlc_mutex_destroy p w = Abort)
  ∧ ∃ w1, vlc_mutex_init p w = Ret tt w1
      ∧ dynamic_mutex p w1
      ∧ (∀ q, q ≠ p → mutexes w1 !! q = mutexes w !! q)
      ∧ (∃ w2, (vlc_mutex_lock E (S fuel) p;; vlc_mutex_lock E (S fuel) p;;
                vlc_mutex_unlock E (S fuel) p;; vlc_mutex_unlock E (S fuel) p) w1
               = Ret tt w2
             ∧ trace w2 = trace w ++ [EvEnter p; EvEnter p; EvLeave p; EvLeave p])
      ∧ ∃ w3, vlc_mutex_destroy p w1 = Ret tt w3
          ∧ mutexes w3 !! p = None
          ∧ (mutexes w !! p = None → mutexes w3 = mutexes w).
Proof.
  split; [reflexivity|]. split.
  { intros m Hm Hd. unfold vlc_mutex_destroy.
    rewrite (bind_Ret _ _ _ _ _ (load_mutex_run _ _ _ Hm)), Hd. reflexivity. }
  rewrite mutex_init_run. eexists. split; [reflexivity|].
  set (m1 := match mutexes w !! p with Some _ => _ | None => _ end).
  set (w1 := set_mutexes <[p := m1]> w).
  assert (Hm1 : mutexes w1 !! p = Some m1) by (cbn; apply lookup_insert_eq).
  assert (Hd1 : dynamic m1 = true) by (subst m1; destruct (mutexes w !! p); reflexivity).
  assert (Hp1 : dynamic_mutex p w1) by (exists m1; auto).
  split; [exact Hp1|]. split.
  { intros q Hne. cbn. apply lookup_insert_ne. congruence. }
  split.
  - destruct (lock_dynamic E fuel p w1 Hp1) as (wa & Ha & _ & Htra & _ & Hda & _).
    rewrite (bind_Ret _ _ _ _ _ Ha).
    destruct (lock_dynamic E fuel p wa (Hda _ Hp1)) as (wb & Hb & _ & Htrb & _ & Hdb & _).
    rewrite (bind_Ret _ _ _ _ _ Hb).
    destruct (unlock_dynamic E fuel p wb (Hdb _ (Hda _ Hp1)))
      as (wc & Hc & _ & Htrc & _ & Hdc & _).
    rewrite (bind_Ret _ _ _ _ _ Hc).
    destruct (unlock_dynamic E fuel p wc (Hdc _ (Hdb _ (Hda _ Hp1))))
      as (wd & Hd & _ & Htrd & _).
    exists wd. split; [exact Hd|].
    rewrite Htrd, Htrc, Htrb, Htra, <- !app_assoc. reflexivity.
  - unfold vlc_mutex_destroy, DeleteCriticalSection.
    rewrite (bind_Ret _ _ _ _ _ (load_mutex_run _ _ _ Hm1)), Hd1. cbn [assert].
    rewrite bind_ret. eexists. split; [reflexivity|]. cbn. split.
    + apply lookup_delete_eq.
    + intros Hnone. rewrite delete_insert_eq. apply delete_id, Hnone.
Qed.

(** X13: [vlc_cond_init] and [vlc_cond_init_daytime] end the process when
    no event can be created; otherwise the condition variable has an
    event, which is not signalled, and the clock of its kind, and
    [vlc_cond_destroy] gives the event back. *)
Theorem cond_init_destroy clk w :
  vlc_cond_init E = vlc_cond_init_common E CLOCK_MONOTONIC
  ∧ vlc_cond_init_daytime E = vlc_cond_init_common E CLOCK_REALTIME
  ∧ (env_alloc E (now w) = NULL → vlc_cond_init_common E clk w = Abort)
  ∧ (env_alloc E (now w) ≠ NULL →
     ∃ c w1, vlc_cond_init_common E clk w = Ret c w1
       ∧ handle c = env_alloc E (now w) ∧ clock c = clk
       ∧ events w1 !! handle c = Some false
       ∧ (∀ h, h ≠ handle c → events w1 !! h = events w !! h)
       ∧ trace w1 = trace w
       ∧ ∃ w2, vlc_cond_destroy c w1 = Ret tt w2
           ∧ events w2 !! handle c = None
           ∧ (events w !! handle c = None → events w2 = events w)).
Proof.
  split; [reflexivity|]. split; [reflexivity|].
  unfold vlc_cond_init_common, CreateEvent, vlc_cond_destroy, CloseHandle. mred.
  split; intros Hh.
  - rewrite Hh. reflexivity.
  - apply Z.eqb_neq in Hh. rewrite Hh. mred. rewrite Hh.
    eexists _, _. split; [reflexivity|]. cbn. split; [reflexivity|].
    split; [reflexivity|]. split; [apply lookup_insert_eq|]. split.
    { intros h Hne. apply lookup_insert_ne. congruence. }
    split; [reflexivity|]. eexists. split; [reflexivity|]. cbn. split.
    + apply lookup_delete_eq.
    + intros Hnone. rewrite delete_insert_eq. apply delete_id, Hnone.
Qed.

End Objects.

(** ** Thread-specific variables *)

Section Keys.
Variable E : environment.

(** X14: on a live key, the value given to [vlc_threadvar_set] is the one
    that [vlc_threadvar_get] returns next, and the values of the other
    live keys are left alone. *)
Theorem threadvar_set_get key value w :
  is_Some (tls w !! tv_id key) →
  ∃ w', (vlc_threadvar_set key value;; vlc_threadvar_get key) w = Ret value w'
    ∧ ∀ key' v, tv_id key' ≠ tv_id key → tls w !! tv_id key' = Some v →
        vlc_threadvar_get key' w' = Ret v w'.
Proof.
  unfold vlc_threadvar_set, vlc_threadvar_get, TlsSetValue, TlsGetValue. mred.
  intros Hs. rewrite bool_decide_eq_true_2 by exact Hs. mred.
  rewrite lookup_insert_eq. cbn. eexists. split; [reflexivity|].
  intros key' v Hne Hv. mred. rewrite lookup_insert_ne by congruence.
  rewrite Hv. reflexivity.
Qed.

Lemma malloc_run w : malloc E w = Ret (env_alloc E (now w)) (tick w).
Proof. reflexivity. Qed.

(** X15: [vlc_threadvar_create] reports a failed allocation with [ENOMEM]
    and the lack of a free index with [EAGAIN], and then leaves the keys
    and the values as they are; otherwise it returns 0 and the new key,
    which is the first that thread exit looks at, with the value [NULL]
    in the calling thread. *)
Theorem threadvar_create_result fuel destr w :
  super_ready w → (1 ≤ fuel)%nat →
  let var := env_alloc E (now w) in
  let index := to_DWORD (env_alloc E (S (now w))) in
  (var = NULL → vlc_threadvar_create E fuel destr w = Ret (ENOMEM, None) (tick w))
  ∧ (var ≠ NULL → index = TLS_OUT_OF_INDEXES →
     vlc_threadvar_create E fuel destr w = Ret (EAGAIN, None) (tick (tick w)))
  ∧ (var ≠ NULL → index ≠ TLS_OUT_OF_INDEXES →
     ∃ w', vlc_threadvar_create E fuel destr w = Ret (0, Some (Threadvar index destr)) w'
       ∧ vlc_threadvar_last w' = Threadvar index destr :: vlc_threadvar_last w
       ∧ tls w' = <[index := NULL]> (tls w)
       ∧ vlc_threadvar_get (Threadvar index destr) w' = Ret NULL w'
       ∧ trace w' = trace w ++ [EvEnter super_mutex; EvLeave super_mutex]).
Proof.
  intros Hs Hf var index. destruct fuel as [|fuel]; [lia|].
  unfold vlc_threadvar_create, unlikely. rewrite (bind_Ret _ _ _ _ _ (malloc_run w)).
  fold var. split; [intros ->; reflexivity|].
  split; intros Hv Hi; apply Z.eqb_neq in Hv; rewrite Hv;
    unfold TlsAlloc; rewrite bind_assoc, bind_gets, bind_assoc, bind_modify;
    cbn [now tick]; fold index.
  - rewrite Hi. reflexivity.
  - apply Z.eqb_neq in Hi. rewrite Hi. rewrite bind_assoc, bind_modify, bind_ret, Hi.
    match goal with |- ∃ w', (vlc_mutex_lock _ _ _;; _) ?w0 = _ ∧ _ =>
      destruct (lock_super E fuel w0) as (w1 & Hl & (He1 & Htls1 & Hth1 & Hk1 & _) & Htr1 & Hs1)
    end; [exact Hs|].
    rewrite (bind_Ret _ _ _ _ _ Hl), bind_modify.
    match goal with |- ∃ w', (vlc_mutex_unlock _ _ _;; _) ?w0 = _ ∧ _ =>
      destruct (unlock_super E fuel w0) as (w2 & Hu & (He2 & Htls2 & Hth2 & Hk2 & _) & Htr2 & Hs2)
    end.
    { destruct Hs1 as (m & Hm & Hd). exists m. auto. }
    rewrite (bind_Ret _ _ _ _ _ Hu). exists w2. split; [reflexivity|].
    cbn in Hk2, Htls2, Htr2. cbn in Htls1, Hk1, Htr1.
    split; [rewrite Hk2, Hk1; reflexivity|].
    split; [rewrite Htls2, Htls1; reflexivity|]. split.
    + unfold vlc_threadvar_get, TlsGetValue, gets. cbn. rewrite Htls2, Htls1.
      rewrite lookup_insert_eq. reflexivity.
    + rewrite Htr2, Htr1, <- app_assoc. reflexivity.
Qed.

Lemma filter_id {A} (P : A → Prop) `{∀ x, Decision (P x)} (l : list A) :
  Forall P l → filter P l = l.
Proof.
  induction 1 as [|x l Hx _ IH]; [reflexivity|].
  rewrite filter_cons_True by assumption. rewrite IH. reflexivity.
Qed.

Lemma unlink_filter var keys :
  NoDup keys → unlink var keys = filter (λ k, k ≠ var) keys.
Proof.
  induction keys as [|key keys IH]; [reflexivity|].
  rewrite NoDup_cons. intros [Hnin Hnd]. cbn [unlink].
  destruct (decide (key = var)) as [->|Hne].
  - rewrite filter_cons_False by (intros H; apply H; reflexivity).
    symmetry. apply filter_id. apply Forall_forall. intros k Hk ->. contradiction.
  - rewrite filter_cons_True by assumption. rewrite IH by assumption. reflexivity.
Qed.

Lemma pending_filter s key keys :
  pending s (filter (λ k, k ≠ key) keys) = filter (λ k, k ≠ key) (pending s keys).
Proof.
  unfold pending. rewrite !list_filter_filter. apply list_filter_iff. tauto.
Qed.

Lemma pending_delete_other s i keys :
  i ∉ tv_id <$> keys → pending (delete i s) keys = pending s keys.
Proof.
  induction keys as [|key keys IH]; [reflexivity|].
  rewrite fmap_cons, not_elem_of_cons. intros [Hne Hnin].
  rewrite !pending_cons, lookup_delete_ne by congruence.
  rewrite IH by assumption. reflexivity.
Qed.

Lemma delete_run fuel key w :
  super_ready w →
  ∃ w', vlc_threadvar_delete E (S fuel) key w = Ret tt w'
    ∧ vlc_threadvar_last w' = unlink key (vlc_threadvar_last w)
    ∧ tls w' = delete (tv_id key) (tls w)
    ∧ events w' = events w ∧ threads w' = threads w
    ∧ thread_key w' = thread_key w ∧ super_variable w' = super_variable w
    ∧ super_ready w'
    ∧ trace w' = trace w ++ [EvEnter super_mutex; EvLeave super_mutex].
Proof.
  intros Hs. unfold vlc_threadvar_delete, TlsFree.
  destruct (lock_super E fuel w Hs)
    as (w1 & Hl & (He1 & Htls1 & Hth1 & Hk1 & Hkey1 & Hsv1) & Htr1 & Hs1).
  rewrite (bind_Ret _ _ _ _ _ Hl), bind_modify.
  destruct (unlock_super E fuel (set_keys (unlink key) w1))
    as (w2 & Hu & (He2 & Htls2 & Hth2 & Hk2 & Hkey2 & Hsv2) & Htr2 & Hs2).
  { destruct Hs1 as (m & Hm & Hd). exists m. auto. }
  rewrite (bind_Ret _ _ _ _ _ Hu). eexists. split; [reflexivity|].
  cbn in *. rewrite Hk2, Hk1, Htls2, Htls1, He2, He1, Hth2, Hth1, Hkey2, Hkey1, Hsv2, Hsv1.
  repeat (split; [reflexivity|]). split.
  - destruct Hs2 as (m & Hm & Hd). exists m. auto.
  - rewrite Htr2, Htr1, <- app_assoc. reflexivity.
Qed.

(** X16: [vlc_threadvar_delete] takes a live key out of the list of the
    keys, under the super lock, and frees its index: thread exit does
    not call its destructor any more, also for a thread that holds a
    value for the key, and still calls those of the other keys. *)
Theorem threadvar_delete_unlinks fuel key w :
  super_ready w → (1 ≤ fuel)%nat →
  NoDup (tv_id <$> vlc_threadvar_last w) →
  key ∈ vlc_threadvar_last w →
  ∃ w', vlc_threadvar_delete E fuel key w = Ret tt w'
    ∧ vlc_threadvar_last w' = filter (λ k, k ≠ key) (vlc_threadvar_last w)
    ∧ tls w' = delete (tv_id key) (tls w)
    ∧ pending (tls w') (vlc_threadvar_last w')
      = filter (λ k, k ≠ key) (pending (tls w) (vlc_threadvar_last w))
    ∧ trace w' = trace w ++ [EvEnter super_mutex; EvLeave super_mutex].
Proof.
  intros Hs Hf Hnd Hin. destruct fuel as [|fuel]; [lia|].
  destruct (delete_run fuel key w Hs) as (w' & Hd & Hk & Htls & _ & _ & _ & _ & _ & Htr).
  exists w'. split; [exact Hd|].
  assert (Hnd' : NoDup (vlc_threadvar_last w)) by (eapply NoDup_fmap_1; exact Hnd).
  rewrite Hk, (unlink_filter _ _ Hnd'), Htls.
  split; [reflexivity|]. split; [reflexivity|]. split; [|exact Htr].
  rewrite pending_delete_other; [apply pending_filter|].
  intros Hid. apply list_elem_of_fmap in Hid as (k & Hid & Hk').
  apply list_elem_of_filter in Hk' as [Hne Hk'].
  destruct (list_elem_of_lookup_1 _ _ Hk') as [i Hi].
  destruct (list_elem_of_lookup_1 _ _ Hin) as [j Hj].
  assert (i = j).
  { eapply NoDup_lookup; [exact Hnd| |]; rewrite list_lookup_fmap.
    - rewrite Hi. reflexivity.
    - rewrite Hj. cbn. congruence. }
  congruence.
Qed.

(** X17: a key that is created and then deleted leaves the list of the keys
    and, when its index was free, the values as they were. *)
Theorem threadvar_create_delete fuel destr w :
  super_ready w → (1 ≤ fuel)%nat →
  env_alloc E (now w) ≠ NULL →
  to_DWORD (env_alloc E (S (now w))) ≠ TLS_OUT_OF_INDEXES →
  tls w !! to_DWORD (env_alloc E (S (now w))) = None →
  ∃ key w1 w2,
    vlc_threadvar_create E fuel destr w = Ret (0, Some key) w1
    ∧ vlc_threadvar_delete E fuel key w1 = Ret tt w2
    ∧ vlc_threadvar_last w2 = vlc_threadvar_last w
    ∧ tls w2 = tls w.
Proof.
  intros Hs Hf Hv Hi Hfree. destruct fuel as [|fuel]; [lia|].
  unfold vlc_threadvar_create, unlikely. rewrite (bind_Ret _ _ _ _ _ (malloc_run w)).
  apply Z.eqb_neq in Hv. rewrite Hv.
  unfold TlsAlloc. rewrite bind_assoc, bind_gets, bind_assoc, bind_modify.
  cbn [now tick]. apply Z.eqb_neq in Hi. rewrite Hi.
  rewrite bind_assoc, bind_modify, bind_ret, Hi.
  set (index := to_DWORD (env_alloc E (S (now w)))) in *.
  match goal with |- ∃ key w1 w2, (vlc_mutex_lock _ _ _;; _) ?w0 = _ ∧ _ =>
    destruct (lock_super E fuel w0) as (w1 & Hl & (He1 & Htls1 & Hth1 & Hk1 & _) & Htr1 & Hs1)
  end; [exact Hs|].
  rewrite (bind_Ret _ _ _ _ _ Hl), bind_modify.
  match goal with |- ∃ key w1 w2, (vlc_mutex_unlock _ _ _;; _) ?w0 = _ ∧ _ =>
    destruct (unlock_super E fuel w0) as (w2 & Hu & (He2 & Htls2 & Hth2 & Hk2 & _) & Htr2 & Hs2)
  end.
  { destruct Hs1 as (m & Hm & Hd). exists m. auto. }
  rewrite (bind_Ret _ _ _ _ _ Hu).
  destruct (delete_run fuel (Threadvar index destr) w2 Hs2)
    as (w3 & Hd & Hk3 & Htls3 & _).
  exists (Threadvar index destr), w2, w3. split; [reflexivity|]. split; [exact Hd|].
  cbn in Hk2, Htls2, Hk1, Htls1. split.
  - rewrite Hk3, Hk2, Hk1. cbn [unlink]. rewrite decide_True by reflexivity. reflexivity.
  - rewrite Htls3, Htls2, Htls1. cbn [tv_id]. rewrite delete_insert_eq.
    apply delete_id, Hfree.
Qed.

End Keys.

(** ** Threads *)

Section Threads.
Variable E : environment.
Variable Sys : system.

(** X18: [vlc_clone_attr] returns [ENOMEM] without a record, and [errno]
    after it has freed the record when no thread can be started;
    otherwise it returns 0 and leaves a record with the handle of the
    thread, the entry point and its argument, without cleanup handlers
    and neither cancellable nor cancelled.  [vlc_clone] starts a
    joinable thread and [vlc_clone_detach] a detached one, which it
    does in the same way with a null [p_handle], where nothing is
    stored for the caller. *)
Theorem clone_result p_handle is_detached entry_point arg priority w :
  let th := env_alloc E (now w) in
  let h := sys_thread Sys (S (now w)) in
  (th = NULL →
   vlc_clone_attr E Sys p_handle is_detached entry_point arg priority w
     = Ret (ENOMEM, None) (tick w))
  ∧ (th ≠ NULL → h = 0 →
     ∃ w', vlc_clone_attr E Sys p_handle is_detached entry_point arg priority w
             = Ret (sys_errno Sys (S (now w)), None) w'
       ∧ threads w' = delete th (threads w) ∧ events w' = events w
       ∧ trace w' = trace w ++ [EvFree th])
  ∧ (th ≠ NULL → h ≠ 0 →
     ∃ w', vlc_clone_attr E Sys p_handle is_detached entry_point arg priority w
             = Ret (0, if p_handle then Some th else None) w'
       ∧ threads w'
         = <[th := Thread h is_detached false false [] entry_point arg]> (threads w)
       ∧ events w' = <[h := false]> (events w)
       ∧ trace w' = trace w)
  ∧ vlc_clone E Sys p_handle entry_point arg priority
    = vlc_clone_attr E Sys p_handle false entry_point arg priority
  ∧ vlc_clone_detach E Sys true entry_point arg priority w
    = vlc_clone_attr E Sys true true entry_point arg priority w
  ∧ (∀ code r w',
       vlc_clone_attr E Sys true true entry_point arg priority w = Ret (code, r) w' →
       vlc_clone_detach E Sys false entry_point arg priority w = Ret (code, None) w').
Proof.
  intros th h.
  assert (Hnull : ∀ code r w',
            vlc_clone_attr E Sys true true entry_point arg priority w = Ret (code, r) w' →
            vlc_clone_detach E Sys false entry_point arg priority w = Ret (code, None) w').
  { intros code r w' H. unfold vlc_clone_detach, bind. rewrite H. reflexivity. }
  revert Hnull. generalize (vlc_clone_detach E Sys false entry_point arg priority w).
  intros detach_null Hnull.
  assert (Hdetach : vlc_clone_detach E Sys true entry_point arg priority w
                    = vlc_clone_attr E Sys true true entry_point arg priority w).
  { unfold vlc_clone_detach. unfold bind.
    destruct (vlc_clone_attr E Sys true true entry_point arg priority w)
      as [[r k] w'| | |]; reflexivity. }
  rewrite Hdetach. clear Hdetach.
  unfold vlc_clone_attr, unlikely, _beginthreadex, free, SetThreadPriority, ResumeThread.
  rewrite (bind_Ret _ _ _ _ _ (malloc_run E w)). fold th.
  split; [intros ->; reflexivity|].
  split; [|split; [|split; [reflexivity|]]].
  - intros Hth Hh. apply Z.eqb_neq in Hth. rewrite Hth. mred. fold h. rewrite Hh.
    cbn [Z.eqb fst snd]. mred. eexists. split; [reflexivity|]. cbn.
    rewrite delete_insert_eq. auto.
  - intros Hth Hh. apply Z.eqb_neq in Hth. rewrite Hth. mred. fold h.
    apply Z.eqb_neq in Hh. rewrite Hh. mred. cbn [fst snd]. rewrite Hh. mred.
    rewrite lookup_insert_eq. mred.
    destruct (negb (priority =? 0)); mred;
      (eexists; split; [reflexivity|]); cbn; rewrite insert_insert_eq; auto.
  - split; [reflexivity | exact Hnull].
Qed.

(** *** Joining *)

Lemma wait_single_ended h delay w b :
  events w !! h = Some b →
  (b = false → env_wait E (now w) = Signalled 0) →
  ∃ w', vlc_WaitForSingleObject E h delay w = Ret WAIT_OBJECT_0 w'
    ∧ trace w' = trace w ++ [EvWait [h] delay WAIT_OBJECT_0]
    ∧ events w' = <[h := true]> (events w)
    ∧ threads w' = threads w ∧ tls w' = tls w ∧ thread_key w' = thread_key w.
Proof.
  intros Hb Henv.
  unfold vlc_WaitForSingleObject, vlc_WaitForMultipleObjects, WaitForMultipleObjectsEx.
  cbn [Z.eqb existsb list_find]. mred. rewrite Hb.
  rewrite bool_decide_eq_false_2 by discriminate. mred.
  destruct b.
  - rewrite decide_True by reflexivity. mred. eexists. split; [reflexivity|]. cbn.
    rewrite insert_id by exact Hb. auto 10.
  - rewrite decide_False by discriminate. cbn [fmap option_fmap option_map]. mred.
    rewrite Henv by reflexivity. cbn [lookup list_lookup]. mred.
    eexists. split; [reflexivity|]. cbn. auto 10.
Qed.

Lemma join_gone fuel th result w :
  threads w !! th = None → not_cancelled w →
  vlc_join E (S (S fuel)) th result w = Abort.
Proof.
  intros Hth Hc. unfold vlc_join. remember (S fuel) as f eqn:Hf.
  cbn [join_loop]. subst f.
  rewrite !bind_assoc, (bind_Ret _ _ _ _ _ (testcancel_not_cancelled E fuel w Hc)).
  unfold load_thread at 1. unfold bind at 1. unfold bind at 1. rewrite Hth. reflexivity.
Qed.

Lemma join_returns fuel th result w t b :
  threads w !! th = Some t →
  events w !! th_id t = Some b →
  (b = false → env_wait E (now w) = Signalled 0) →
  not_cancelled w → thread_self w ≠ th →
  ∃ w', vlc_join E (S (S fuel)) th result w
          = Ret (if result then Some (data t) else None) w'
    ∧ threads w' = delete th (threads w)
    ∧ events w' = delete (th_id t) (events w)
    ∧ trace w' = trace w ++ [EvWait [th_id t] INFINITE WAIT_OBJECT_0;
                             EvCloseHandle (th_id t); EvFree th]
    ∧ vlc_join E (S (S fuel)) th result w' = Abort.
Proof.
  intros Ht Hb Henv Hc Hself. unfold vlc_join at 1. remember (S fuel) as f eqn:Hf'.
  cbn [join_loop]. subst f.
  rewrite !bind_assoc, (bind_Ret _ _ _ _ _ (testcancel_not_cancelled E fuel w Hc)).
  rewrite !bind_assoc, (bind_Ret _ _ _ _ _ (load_thread_run _ _ _ Ht)).
  destruct (wait_single_ended (th_id t) INFINITE w b Hb Henv)
    as (w1 & Hw & Htr1 & He1 & Hth1 & Htls1 & Hk1).
  rewrite !bind_assoc, (bind_Ret _ _ _ _ _ Hw).
  cbn [Z.eqb WAIT_OBJECT_0 WAIT_IO_COMPLETION]. rewrite bind_ret.
  rewrite <- Hth1 in Ht. rewrite (bind_Ret _ _ _ _ _ (load_thread_run _ _ _ Ht)).
  unfold CloseHandle, free. rewrite !bind_assoc, !bind_modify, !bind_assoc, !bind_modify.
  eexists. split; [reflexivity|]. mred.
  rewrite Hth1, He1, Htr1, delete_insert_eq, <- !app_assoc.
  split; [reflexivity|]. split; [reflexivity|]. split; [reflexivity|].
  apply join_gone.
  - cbn. rewrite Hth1. apply lookup_delete_eq.
  - destruct Hc as [Hz | (ts & Hts & Hk)];
      [left; unfold thread_self in *; cbn; rewrite Htls1, Hk1; exact Hz|].
    right. exists ts. unfold thread_self in *. cbn.
    rewrite Htls1, Hk1, Hth1. rewrite lookup_delete_ne by congruence. auto.
Qed.

(** X19: [vlc_join] waits for the thread to end, returns the result kept in
    its record, closes its handle and frees the record, so that the
    thread cannot be joined again; it is a cancellation point. *)
Theorem join_result fuel th result w t b :
  threads w !! th = Some t →
  events w !! th_id t = Some b →
  (b = false → env_wait E (now w) = Signalled 0) →
  (2 ≤ fuel)%nat →
  (not_cancelled w → thread_self w ≠ th →
   ∃ w', vlc_join E fuel th result w = Ret (if result then Some (data t) else None) w'
     ∧ threads w' = delete th (threads w)
     ∧ events w' = delete (th_id t) (events w)
     ∧ trace w' = trace w ++ [EvWait [th_id t] INFINITE WAIT_OBJECT_0;
                              EvCloseHandle (th_id t); EvFree th]
     ∧ vlc_join E fuel th result w' = Abort)
  ∧ (∀ ts, thread_self w ≠ NULL → threads w !! thread_self w = Some ts →
       killable ts && killed ts = true →
       ∀ a w', vlc_join E fuel th result w ≠ Ret a w').
Proof.
  intros Ht Hb Henv Hf. destruct fuel as [|[|fuel]]; try lia. split.
  - intros Hc Hself. eapply join_returns; eassumption.
  - intros ts Hn Hts Hk a w' H. unfold vlc_join in H.
    apply bind_inv in H as ([] & w1 & H & _). remember (S fuel) as f eqn:Hf'.
    cbn [join_loop] in H. subst f. apply bind_inv in H as ([] & w2 & H & _).
    rewrite (testcancel_unfold E fuel w _ ts eq_refl Hn Hts), Hk in H.
    revert H. apply no_ret_bind. intros _. apply no_ret_bind. intros t'.
    apply no_ret_bind. intros _. apply no_ret_bind. intros _. apply no_ret_endthread.
Qed.


(** *** From the entry point to the join *)






(** *** Deferred cancellation *)

(** X21: a cancellation that is requested while the thread has disabled
    cancellation is not acted upon at a cancellation point, and is not
    lost: once [vlc_restorecancel] has enabled cancellation again, the
    next cancellation point does not return. *)
Theorem cancel_deferred fuel w th t :
  thread_self w = th → th ≠ NULL → threads w !! th = Some t →
  killable t = true → killed t = false →
  (let! state := vlc_savecancel in
   vlc_cancel_self th;;
   vlc_testcancel E (S fuel);;
   vlc_restorecancel state) w
    = Ret tt (set_threads <[th := set_killed true t]> w)
  ∧ ∀ a w', vlc_testcancel E (S fuel) (set_threads <[th := set_killed true t]> w)
            ≠ Ret a w'.
Proof.
  intros Hself Hn Ht Hka Hki. split.
  - pose proof Hn as Hn'. apply Z.eqb_neq in Hn'.
    unfold vlc_savecancel, vlc_cancel_self, vlc_restorecancel, vlc_threadvar_get,
      TlsGetValue, likely.
    mred. fold (thread_self w). rewrite Hself, Hn'. mred. rewrite Ht. mred.
    rewrite lookup_insert_eq. mred.
    match goal with |- context [vlc_testcancel E (S fuel) ?W] =>
      rewrite (testcancel_not_cancelled E fuel W)
    end.
    2:{ right. exists (set_killed true (set_killable false t)).
        unfold thread_self in *. cbn. rewrite Hself, lookup_insert_eq. auto. }
    mred. fold (thread_self w). rewrite Hself, Hn', Hka.
    cbn [Z.b2z Z.eqb Pos.eqb orb negb].
    mred. rewrite lookup_insert_eq. mred. cbn [killable set_killed set_killable negb].
    mred. f_equal.
    destruct w; unfold set_threads; cbn. rewrite !insert_insert_eq.
    repeat f_equal. cbn in Ht. destruct t; cbn in *; subst; reflexivity.
  - intros a w'.
    rewrite (testcancel_unfold E fuel _ th (set_killed true t)); [|exact Hself|exact Hn|].
    + cbn [killable killed set_killed]. rewrite Hka. cbn [andb].
      apply no_ret_bind. intros _. apply no_ret_bind. intros t'.
      apply no_ret_bind. intros _. apply no_ret_bind. intros _. apply no_ret_endthread.
    + cbn. apply lookup_insert_eq.
Qed.

(** *** The stack of cleanup handlers *)

(** X22: [VLC_CLEANUP_PUSH] followed by [VLC_CLEANUP_POP] leaves the stack
    as it was; a pop from an empty stack goes through a null pointer;
    in the main thread both do nothing. *)
Theorem cleanup_push_pop c cmd w :
  (self_ok w →
   (vlc_control_cancel (VLC_CLEANUP_PUSH c);; vlc_control_cancel VLC_CLEANUP_POP) w
     = Ret tt w)
  ∧ (∀ t, thread_self w ≠ NULL → threads w !! thread_self w = Some t →
       cleaners t = [] → vlc_control_cancel VLC_CLEANUP_POP w = Abort)
  ∧ (thread_self w = NULL → vlc_control_cancel cmd w = Ret tt w).
Proof.
  unfold vlc_control_cancel, vlc_threadvar_get, TlsGetValue. mred.
  fold (thread_self w). split; [|split].
  - intros [Hz | [t Ht]].
    + rewrite Hz. cbn [Z.eqb NULL]. mred. fold (thread_self w). rewrite Hz. reflexivity.
    + destruct (thread_self w =? NULL) eqn:Hn; mred.
      * fold (thread_self w). rewrite Hn. reflexivity.
      * rewrite Ht. mred. fold (thread_self w). rewrite Hn. mred.
        rewrite lookup_insert_eq. mred. cbn [cleaners set_cleaners]. mred. f_equal.
        destruct w; unfold set_threads; cbn in *. rewrite insert_insert_eq.
        rewrite insert_id; [reflexivity|]. rewrite Ht. destruct t; reflexivity.
  - intros t Hn Ht Hc. apply Z.eqb_neq in Hn. rewrite Hn. mred. rewrite Ht. mred.
    rewrite Hc. reflexivity.
  - intros ->. cbn [Z.eqb NULL]. reflexivity.
Qed.

End Threads.

(** ** Timers *)

Section Timers.
Variable E : environment.
Hypothesis Hvalid : ∀ n, env_alloc E n ≠ INVALID_HANDLE_VALUE.

Lemma queue_timers_app tr e :
  queue_timers (tr ++ [e]) =
    match e with
    | EvCreateTimer _ _ h => h :: queue_timers tr
    | EvDeleteTimer h => remove_first h (queue_timers tr)
    | _ => queue_timers tr
    end.
Proof. unfold queue_timers. rewrite fold_left_app. reflexivity. Qed.

Lemma schedule_owns rest timer absolute value interval w :
  owns rest timer w →
  match vlc_timer_schedule E timer absolute value interval w with
  | Ret timer' w' =>
      owns rest timer' w' ∧ func timer' = func timer ∧ tm_data timer' = tm_data timer
      ∧ (value = 0 → armed timer' = [])
  | Exit _ => False
  | _ => True
  end.
Proof.
  unfold owns, vlc_timer_schedule, DeleteTimerQueueTimer, CreateTimerQueueTimer, mdate,
    QueryUnbiasedInterruptTime.
  intros Ho.
  assert (Hdis : ∃ w1, (if negb (tm_handle timer =? INVALID_HANDLE_VALUE)
                        then modify (log (EvDeleteTimer (tm_handle timer)));;
                             ret (Timer INVALID_HANDLE_VALUE (func timer) (tm_data timer))
                        else ret timer) w
                       = Ret (Timer INVALID_HANDLE_VALUE (func timer) (tm_data timer)) w1
                   ∧ queue_timers (trace w1) = rest ∧ now w1 = now w).
  { unfold armed in Ho. destruct (tm_handle timer =? INVALID_HANDLE_VALUE) eqn:Hh; cbn [negb].
    - exists w. split; [|auto]. unfold ret. f_equal. apply Z.eqb_eq in Hh.
      destruct timer; cbn in *; congruence.
    - eexists. split; [reflexivity|]. cbn [trace log now]. split; [|reflexivity].
      rewrite queue_timers_app, Ho. cbn. rewrite decide_True by reflexivity. reflexivity. }
  destruct Hdis as (w1 & Hd & Hq & Hn). rewrite (bind_Ret _ _ _ _ _ Hd).
  destruct (value =? 0) eqn:Hv.
  { cbn. unfold armed. cbn. auto. }
  assert (Hcreate : ∀ v w2, queue_timers (trace w2) = rest →
    match (let! h := (let! n := gets now in
                      modify tick;;
                      let h := env_alloc E n in
                      modify (log (EvCreateTimer (to_DWORD (Z.quot (v + 999) 1000))
                                     (to_DWORD (Z.quot (interval + 999) 1000)) h));;
                      ret h) in
           if h =? NULL then abort
           else ret (Timer h (func timer) (tm_data timer))) w2 with
    | Ret timer' w' =>
        queue_timers (trace w') = armed timer' ++ rest
        ∧ func timer' = func timer ∧ tm_data timer' = tm_data timer
        ∧ (value = 0 → armed timer' = [])
    | Exit _ => False
    | _ => True
    end).
  { intros v w2 Hq2. mred. destruct (env_alloc E (now w2) =? NULL) eqn:Hnull; mred; [exact I|].
    rewrite queue_timers_app, Hq2. unfold armed. cbn [tm_handle func tm_data].
    pose proof (Hvalid (now w2)) as Hval. apply Z.eqb_neq in Hval. rewrite Hval.
    repeat split. intros ->. discriminate. }
  destruct absolute.
  - rewrite !bind_assoc, bind_gets, !bind_assoc, bind_modify, bind_ret.
    destruct (env_ticks E (now w1)) as [ts|]; [|exact I].
    rewrite bind_ret. apply (Hcreate _ (tick w1)). exact Hq.
  - rewrite bind_ret. apply (Hcreate _ w1). exact Hq.
Qed.

Lemma timer_run_owns rest calls : ∀ timer w,
  owns rest timer w →
  match timer_run E calls timer w with
  | Ret timer' w' =>
      owns rest timer' w' ∧ func timer' = func timer ∧ tm_data timer' = tm_data timer
  | Exit _ => False
  | _ => True
  end.
Proof.
  induction calls as [|[[absolute value] interval] calls IH]; intros timer w Ho.
  - cbn. auto.
  - cbn [timer_run]. unfold bind.
    pose proof (schedule_owns rest timer absolute value interval w Ho) as Hs.
    destruct (vlc_timer_schedule E timer absolute value interval w)
      as [timer1 w1| | |]; auto.
    destruct Hs as (Ho1 & Hf1 & Hd1 & _).
    specialize (IH timer1 w1 Ho1). destruct (timer_run E calls timer1 w1); auto.
    destruct IH as (? & ? & ?). repeat split; congruence.
Qed.

Lemma schedule_returns timer absolute value interval w :
  (∀ n, env_alloc E n ≠ NULL) → (∀ n, is_Some (env_ticks E n)) →
  ∃ timer' w', vlc_timer_schedule E timer absolute value interval w = Ret timer' w'.
Proof.
  intros Ha Ht. unfold vlc_timer_schedule, DeleteTimerQueueTimer, CreateTimerQueueTimer, mdate,
    QueryUnbiasedInterruptTime.
  destruct (negb (tm_handle timer =? INVALID_HANDLE_VALUE)); mred;
    (destruct (value =? 0); mred; [eauto|]);
    destruct absolute; mred;
    repeat match goal with
           | |- context [env_ticks E ?n] =>
               let ts := fresh "ts" in let Hts := fresh "Hts" in
               destruct (Ht n) as [ts Hts]; rewrite Hts; mred
           | |- context [env_alloc E ?n =? NULL] =>
               let Hn := fresh "Hn" in
               pose proof (Ha n) as Hn; apply Z.eqb_neq in Hn; rewrite Hn; mred
           end; eauto.
Qed.

Lemma timer_run_returns calls :
  (∀ n, env_alloc E n ≠ NULL) → (∀ n, is_Some (env_ticks E n)) →
  ∀ timer w, ∃ timer' w', timer_run E calls timer w = Ret timer' w'.
Proof.
  intros Ha Ht.
  induction calls as [|[[absolute value] interval] calls IH]; intros timer w.
  - cbn. unfold ret. eauto.
  - cbn [timer_run].
    destruct (schedule_returns timer absolute value interval w Ha Ht) as (t1 & w1 & H1).
    rewrite (bind_Ret _ _ _ _ _ H1). apply IH.
Qed.

Lemma timer_run_disarm rest calls absolute interval : ∀ timer w,
  owns rest timer w →
  match timer_run E (calls ++ [(absolute, 0, interval)]) timer w with
  | Ret timer' w' => armed timer' = []
  | _ => True
  end.
Proof.
  induction calls as [|[[absolute' value'] interval'] calls IH]; intros timer w Ho.
  - cbn [app timer_run]. unfold bind.
    pose proof (schedule_owns rest timer absolute 0 interval w Ho) as Hs.
    destruct (vlc_timer_schedule E timer absolute 0 interval w) as [timer1 w1| | |]; auto.
    destruct Hs as (_ & _ & _ & Ha). cbn. auto.
  - cbn [app timer_run]. unfold bind.
    pose proof (schedule_owns rest timer absolute' value' interval' w Ho) as Hs.
    destruct (vlc_timer_schedule E timer absolute' value' interval' w)
      as [timer1 w1| | |]; auto.
    destruct Hs as (Ho1 & _). apply IH, Ho1.
Qed.

(** X23: through any series of [vlc_timer_schedule], a timer owns at
    most one timer of the timer queue, the one that its handle names:
    each call takes the previous one out before it puts a new one in, a
    zero value only takes it out, and [vlc_timer_destroy] leaves none.
    The function and the data given to [vlc_timer_create] are those
    that an expiry calls.  The series returns when the clock works and
    the timer queue gives a timer at every call; otherwise
    [vlc_timer_schedule] aborts. *)
Theorem timer_lifecycle fn dat calls w :
  env_alloc E (now w) ≠ NULL →
  let run := (let! r := vlc_timer_create E fn dat in
              match r.2 with
              | Some timer => timer_run E calls timer
              | None => abort
              end) in
  ((∀ n, env_alloc E n ≠ NULL) → (∀ n, is_Some (env_ticks E n)) →
   ∃ timer w', run w = Ret timer w')
  ∧ match run w with
    | Ret timer w' =>
        queue_timers (trace w') = armed timer ++ queue_timers (trace w)
        ∧ vlc_timer_do E timer true w'
          = Ret tt (set_tls (user_code E fn dat) (log (EvCall fn dat) w'))
        ∧ vlc_timer_do E timer false w' = Abort
        ∧ (∃ w'', vlc_timer_destroy timer w' = Ret tt w''
             ∧ queue_timers (trace w'') = queue_timers (trace w))
        ∧ (∀ calls' absolute interval,
             calls = calls' ++ [(absolute, 0, interval)] → armed timer = [])
    | Exit _ => False
    | _ => True
    end.
Proof.
  intros Hm run. subst run. unfold vlc_timer_create.
  rewrite bind_assoc, (bind_Ret _ _ _ _ _ (malloc_run E w)).
  apply Z.eqb_neq in Hm. rewrite Hm, bind_ret. cbn [snd].
  split; [intros Ha Ht; apply (timer_run_returns calls Ha Ht)|].
  pose proof (timer_run_owns (queue_timers (trace w)) calls
                (Timer INVALID_HANDLE_VALUE fn dat) (tick w) eq_refl) as Hr.
  destruct (timer_run E calls _ (tick w)) as [timer w'| | |] eqn:Hrun; auto.
  destruct Hr as (Ho & Hf & Hd). cbn in Hf, Hd. split; [exact Ho|].
  unfold vlc_timer_do, call. rewrite Hf, Hd. split; [reflexivity|]. split; [reflexivity|].
  split.
  - unfold vlc_timer_destroy, DeleteTimerQueueTimer. unfold owns, armed in Ho.
    destruct (tm_handle timer =? INVALID_HANDLE_VALUE); cbn [negb].
    + exists w'. split; [reflexivity | exact Ho].
    + eexists. split; [reflexivity|]. cbn [trace log].
      rewrite queue_timers_app, Ho. cbn. rewrite decide_True by reflexivity. reflexivity.
  - intros calls' absolute interval ->.
    pose proof (timer_run_disarm (queue_timers (trace w)) calls' absolute interval
                  (Timer INVALID_HANDLE_VALUE fn dat) (tick w) eq_refl) as Hz.
    rewrite Hrun in Hz. exact Hz.
Qed.

End Timers.

(** ** Read/write locks: exclusion and release *)

Section RWLock.

(** X24: while a thread holds the lock for writing, no thread is given the
    lock, for reading or for writing, and only the writer can release
    it; while threads hold it for reading, no thread is given it for
    writing, and more readers are let in. *)
Theorem rwlock_exclusion self lock w :
  rw_invariant lock → 0 ≤ readers lock < ULONG_MAX →
  (writer lock ≠ 0 →
     vlc_rwlock_rdlock lock w = Ret Waiting w
     ∧ vlc_rwlock_wrlock self lock w = Ret Waiting w
     ∧ (self ≠ writer lock → vlc_rwlock_unlock self lock w = Abort)
     ∧ ∃ w', vlc_rwlock_unlock (writer lock) lock w = Ret (Done (set_writer 0 lock)) w')
  ∧ (0 < readers lock →
     vlc_rwlock_wrlock self lock w = Ret Waiting w
     ∧ vlc_rwlock_rdlock lock w = Ret (Done (set_readers (readers lock + 1) lock)) w)
  ∧ (writer lock = 0 → readers lock = 0 →
     vlc_rwlock_wrlock self lock w = Ret (Done (set_writer self lock)) w).
Proof.
  intros [Hw Hr] Ht.
  unfold vlc_rwlock_unlock, vlc_rwlock_rdlock, vlc_rwlock_wrlock, vlc_rwlock_wrunlock,
    unlikely, ULONG_MAX in *.
  split; [|split].
  - intros Hwn. apply Z.eqb_neq in Hwn. rewrite Hwn, (Hw ltac:(lia)). cbn [negb Z.eqb assert].
    rewrite orb_true_r. split; [reflexivity|]. split; [reflexivity|]. split.
    + intros Hne. assert ((writer lock =? self) = false) as -> by lia. reflexivity.
    + rewrite Z.eqb_refl. cbn [assert]. rewrite !bind_ret. cbv zeta.
      rewrite (bind_Ret _ _ _ _ _ (cond_broadcast_run _ _)). eexists. reflexivity.
  - intros Hpos. rewrite (Hr Hpos). cbn [Z.eqb negb].
    assert ((0 <? readers lock) = true) as -> by lia. cbn [orb].
    assert ((readers lock =? 4294967295) = false) as -> by lia.
    rewrite to_DWORD_small by lia. auto.
  - intros -> ->. reflexivity.
Qed.

(** X25: taking the lock and releasing it with [vlc_rwlock_unlock] gives
    the lock back as it was, for a reader and for a writer; the event of
    the lock is set when the last reader or the writer leaves, and not
    when other readers stay; releasing a lock that nobody holds fails
    an assertion. *)
Theorem rwlock_round_trip self lock w :
  writer lock = 0 → 0 ≤ readers lock < ULONG_MAX → self ≠ 0 →
  handle (rw_wait lock) ≠ NULL →
  (∃ l1 w', vlc_rwlock_rdlock lock w = Ret (Done l1) w
     ∧ readers l1 = readers lock + 1 ∧ writer l1 = 0
     ∧ vlc_rwlock_unlock self l1 w = Ret (Done lock) w'
     ∧ trace w' = trace w ++ (if readers lock =? 0
                              then [EvSetEvent (handle (rw_wait lock))] else []))
  ∧ (readers lock = 0 →
     (∃ l1 w', vlc_rwlock_wrlock self lock w = Ret (Done l1) w
        ∧ readers l1 = 0 ∧ writer l1 = self
        ∧ vlc_rwlock_unlock self l1 w = Ret (Done lock) w'
        ∧ trace w' = trace w ++ [EvSetEvent (handle (rw_wait lock))])
     ∧ vlc_rwlock_unlock self lock w = Abort).
Proof.
  intros Hw Ht Hself Hh. destruct lock as [mx wt rd wr]. cbn in *. subst wr.
  unfold vlc_rwlock_unlock, vlc_rwlock_rdlock, vlc_rwlock_wrlock, vlc_rwlock_wrunlock,
    vlc_rwlock_rdunlock, vlc_cond_signal, unlikely, ULONG_MAX in *.
  cbn [writer readers rw_wait set_readers set_writer Z.eqb negb].
  apply Z.eqb_neq in Hh. split.
  - assert ((rd =? 4294967295) = false) as -> by lia.
    rewrite (to_DWORD_small (rd + 1)) by lia.
    destruct (rd =? 0) eqn:Hz;
      (eexists _, _; split; [reflexivity|]);
      cbn [readers writer rw_wait set_readers set_writer Z.eqb negb];
      (split; [reflexivity|]); (split; [reflexivity|]);
      (assert ((0 <? rd + 1) = true) as -> by lia); cbn [assert]; rewrite bind_ret;
      replace (rd + 1 - 1) with rd by lia; rewrite (to_DWORD_small rd) by lia;
      cbv zeta; cbn [readers writer rw_wait set_readers set_writer]; rewrite Hz.
    + rewrite Hh, (bind_Ret _ _ _ _ _ (cond_broadcast_run _ _)), Hh. cbn.
      split; reflexivity.
    + rewrite bind_ret. cbn. rewrite app_nil_r. split; reflexivity.
  - intros ->. cbn [Z.ltb Z.eqb Z.compare orb negb assert]. split; [|reflexivity].
    eexists _, _. split; [reflexivity|].
    cbn [readers writer rw_wait set_readers set_writer].
    split; [reflexivity|]. split; [reflexivity|].
    assert ((self =? 0) = false) as -> by lia. cbn [negb].
    rewrite Z.eqb_refl. cbn [assert Z.eqb]. rewrite !bind_ret.
    rewrite (bind_Ret _ _ _ _ _ (cond_broadcast_run _ _)).
    rewrite Hh. cbn. split; reflexivity.
Qed.

End RWLock.

(** ** The clock on the performance counter *)

Section Counter.

(** X26: for a positive frequency of at most 9223372036854 counts per
    second and a counter that is not negative, when the number of
    microseconds is a value of [mtime_t], every step of the division in
    two steps of [mdate] is one, so that nothing overflows, although
    the product of the counter by 1000000 may; the result is the number
    of microseconds rounded down, and the date does not go back when
    the counter does not. *)
Theorem mdate_counter_exact freq counter :
  0 < freq → freq * 1000000 ≤ INT64_MAX →
  0 ≤ counter ≤ INT64_MAX →
  (counter * 1000000) / freq ≤ INT64_MAX →
  let d := lldiv counter freq in
  mtime_t_ok d.1 ∧ mtime_t_ok d.2
  ∧ mtime_t_ok (d.1 * 1000000) ∧ mtime_t_ok (d.2 * 1000000)
  ∧ mtime_t_ok (Z.quot (d.2 * 1000000) freq)
  ∧ mtime_t_ok (mdate_counter freq counter)
  ∧ mdate_counter freq counter = (counter * 1000000) / freq
  ∧ ∀ counter', counter ≤ counter' ≤ INT64_MAX →
      (counter' * 1000000) / freq ≤ INT64_MAX →
      mdate_counter freq counter ≤ mdate_counter freq counter'.
Proof.
  intros Hf Hfm Hc Hr d.
  assert (Heq : ∀ c, 0 ≤ c → mdate_counter freq c = (c * 1000000) / freq).
  { intros c Hc'. unfold mdate_counter, lldiv. cbn [fst snd].
    rewrite Z.quot_div_nonneg, Z.rem_mod_nonneg by lia.
    pose proof (Z.mod_pos_bound c freq Hf).
    rewrite Z.quot_div_nonneg by lia.
    rewrite (Z.div_mod c freq) at 3 by lia.
    replace ((freq * (c / freq) + c mod freq) * 1000000)
      with ((c / freq * 1000000) * freq + c mod freq * 1000000) by lia.
    rewrite Z.div_add_l by lia. reflexivity. }
  subst d. unfold lldiv. cbn [fst snd].
  assert (Hq : 0 ≤ Z.quot counter freq ≤ counter).
  { rewrite Z.quot_div_nonneg by lia. split; [apply Z.div_pos; lia|].
    apply Z.div_le_upper_bound; nia. }
  assert (Hm : 0 ≤ Z.rem counter freq < freq).
  { rewrite Z.rem_mod_nonneg by lia. apply Z.mod_pos_bound, Hf. }
  assert (Hqr : 0 ≤ Z.quot (Z.rem counter freq * 1000000) freq).
  { apply Z.quot_pos; lia. }
  assert (Hqr' : Z.quot (Z.rem counter freq * 1000000) freq ≤ 1000000).
  { rewrite Z.quot_div_nonneg by lia. apply Z.div_le_upper_bound; nia. }
  assert (Hres : mdate_counter freq counter
                 = Z.quot counter freq * 1000000
                   + Z.quot (Z.rem counter freq * 1000000) freq) by reflexivity.
  pose proof (Heq counter ltac:(lia)) as Hexact.
  unfold mtime_t_ok, INT64_MIN, INT64_MAX in *.
  repeat split; try lia.
  intros c' Hle Hr'. rewrite !Heq by lia. apply Z.div_le_mono; lia.
Qed.

End Counter.

(** ** The results of the waits *)

Section Waits.
Variable E : environment.

(** X27: [vlc_WaitForSingleObject] returns that the object is signalled,
    that a procedure call has interrupted the wait or that the timeout
    has passed, and nothing else: it ends the process when the wait
    fails, as it does on a handle that is not open, or reports an
    abandoned object.  [vlc_Sleep] returns 0 after a full sleep and
    [WAIT_IO_COMPLETION] after an interrupted one.  Neither ends the
    calling thread. *)
Theorem wait_outcomes h delay w :
  (∀ r w', vlc_WaitForSingleObject E h delay w = Ret r w' →
     (r = WAIT_OBJECT_0 ∨ r = WAIT_IO_COMPLETION ∨ r = WAIT_TIMEOUT)
     ∧ trace w' = trace w ++ [EvWait [h] delay r])
  ∧ (events w !! h = None → vlc_WaitForSingleObject E h delay w = Abort)
  ∧ (events w !! h = Some false →
     env_wait E (now w) = Failed ∨ (∃ i, env_wait E (now w) = Abandoned i) →
     vlc_WaitForSingleObject E h delay w = Abort)
  ∧ (∀ r w', vlc_Sleep E delay w = Ret r w' →
       (r = 0 ∨ r = WAIT_IO_COMPLETION)
       ∧ (r = 0 ↔ ∀ self, env_wait E (now w) ≠ IoCompletion self)
       ∧ trace w' = trace w ++ [EvSleep delay r])
  ∧ (∀ w', vlc_WaitForSingleObject E h delay w ≠ Exit w')
  ∧ (∀ w', vlc_Sleep E delay w ≠ Exit w').
Proof.
  split; [|split; [|split; [|split; [|split]]]].
  - intros r w' H. apply wait_single_inv in H as (Hr & Htr & _). auto.
  - intros Hn.
    unfold vlc_WaitForSingleObject, vlc_WaitForMultipleObjects, WaitForMultipleObjectsEx.
    cbn [Z.eqb existsb]. mred. rewrite Hn.
    rewrite bool_decide_eq_true_2 by reflexivity. reflexivity.
  - intros Hb Henv.
    unfold vlc_WaitForSingleObject, vlc_WaitForMultipleObjects, WaitForMultipleObjectsEx.
    cbn [Z.eqb existsb list_find]. mred. rewrite Hb.
    rewrite bool_decide_eq_false_2 by discriminate. mred.
    rewrite decide_False by discriminate. cbn [fmap option_fmap option_map]. mred.
    destruct Henv as [-> | [[|i] ->]]; reflexivity.
  - intros r w' H.
    unfold vlc_Sleep, vlc_WaitForMultipleObjects, SleepEx, vlc_cancel_self, likely, unlikely
      in H.
    cbn [Z.eqb] in H. revert H. mred.
    destruct (env_wait E (now w)) as [i|i|self| |] eqn:He; mred;
      try (intros [= <- <-]; mred; split; [auto|]; split; [|reflexivity];
           split; [intros _ self; discriminate | reflexivity]; fail).
    destruct (negb (self =? NULL)); mred.
    + destruct (threads w !! self); mred; [|discriminate]. intros [= <- <-]. mred.
      split; [auto|]. split; [|reflexivity].
      split; [discriminate | intros H; exfalso; eapply H; reflexivity].
    + intros [= <- <-]. mred. split; [auto|]. split; [|reflexivity].
      split; [discriminate | intros H; exfalso; eapply H; reflexivity].
  - intros w'.
    unfold vlc_WaitForSingleObject, vlc_WaitForMultipleObjects, WaitForMultipleObjectsEx,
      vlc_cancel_self, likely, unlikely.
    cbn [Z.eqb existsb list_find]. mred.
    destruct (bool_decide (events w !! h = None)); mred; [discriminate|].
    destruct (decide (events w !! h = Some true)); mred; [discriminate|].
    cbn [fmap option_fmap option_map]. mred.
    destruct (env_wait E (now w)) as [[|i]|[|i]|self| |];
      cbn [lookup list_lookup]; mred; try discriminate.
    destruct (negb (self =? NULL)); mred; [|discriminate].
    destruct (threads w !! self); mred; discriminate.
  - intros w'.
    unfold vlc_Sleep, vlc_WaitForMultipleObjects, SleepEx, vlc_cancel_self, likely, unlikely.
    cbn [Z.eqb]. mred.
    destruct (env_wait E (now w)) as [i|i|self| |]; mred; try discriminate.
    destruct (negb (self =? NULL)); mred; [|discriminate].
    destruct (threads w !! self); mred; discriminate.
Qed.

End Waits.

(** ** Initialisation of the library *)

Section Library.
Variable E : environment.
Variable Sys : system.
Hypothesis Halloc : ∀ n, env_alloc E n ≠ NULL.
Hypothesis Hindex : ∀ n, to_DWORD (env_alloc E n) ≠ TLS_OUT_OF_INDEXES.

Lemma cond_init_run clk w :
  vlc_cond_init_common E clk w =
    Ret (Cond (env_alloc E (now w)) clk)
        (set_events <[env_alloc E (now w) := false]> (tick w)).
Proof.
  unfold vlc_cond_init_common, CreateEvent. mred.
  pose proof (Halloc (now w)) as H. apply Z.eqb_neq in H. rewrite H. mred. rewrite H.
  reflexivity.
Qed.

Lemma create_run fuel destr w :
  super_ready w →
  ∃ index w', vlc_threadvar_create E (S fuel) destr w
                = Ret (0, Some (Threadvar index destr)) w'
    ∧ vlc_threadvar_last w' = Threadvar index destr :: vlc_threadvar_last w
    ∧ tls w' = <[index := NULL]> (tls w)
    ∧ events w' = events w ∧ threads w' = threads w
    ∧ thread_key w' = thread_key w ∧ super_variable w' = super_variable w
    ∧ super_ready w'
    ∧ (∀ q, dynamic_mutex q w → dynamic_mutex q w')
    ∧ trace w' = trace w ++ [EvEnter super_mutex; EvLeave super_mutex].
Proof.
  intros Hs.
  unfold vlc_threadvar_create, unlikely. rewrite (bind_Ret _ _ _ _ _ (malloc_run E w)).
  pose proof (Halloc (now w)) as Hv. apply Z.eqb_neq in Hv. rewrite Hv.
  unfold TlsAlloc. rewrite bind_assoc, bind_gets, bind_assoc, bind_modify.
  cbn [now tick]. pose proof (Hindex (S (now w))) as Hi. apply Z.eqb_neq in Hi. rewrite Hi.
  rewrite bind_assoc, bind_modify, bind_ret, Hi.
  set (index := to_DWORD (env_alloc E (S (now w)))) in *.
  match goal with |- ∃ index w', (vlc_mutex_lock _ _ _;; _) ?w0 = _ ∧ _ =>
    destruct (lock_dynamic E fuel super_mutex w0)
      as (w1 & Hl & (He1 & Htls1 & Hth1 & Hk1 & Hkey1 & Hsv1) & Htr1 & _ & Hd1 & _)
  end; [exact Hs|].
  rewrite (bind_Ret _ _ _ _ _ Hl), bind_modify.
  match goal with |- ∃ index w', (vlc_mutex_unlock _ _ _;; _) ?w0 = _ ∧ _ =>
    destruct (unlock_dynamic E fuel super_mutex w0)
      as (w2 & Hu & (He2 & Htls2 & Hth2 & Hk2 & Hkey2 & Hsv2) & Htr2 & _ & Hd2 & _)
  end.
  { destruct (Hd1 _ Hs) as (m & Hm & Hd). exists m. auto. }
  rewrite (bind_Ret _ _ _ _ _ Hu). exists index, w2. split; [reflexivity|].
  cbn in *. rewrite Hk2, Hk1, Htls2, Htls1, He2, He1, Hth2, Hth1, Hkey2, Hkey1, Hsv2, Hsv1.
  repeat (split; [reflexivity|]). split; [|split].
  - apply Hd2. destruct (Hd1 _ Hs) as (m & Hm & Hd). exists m. auto.
  - intros q Hq. apply Hd2. destruct (Hd1 q) as (m & Hm & Hd); [|exists m; auto].
    destruct Hq as (m & Hm & Hd). exists m. auto.
  - rewrite Htr2, Htr1, <- app_assoc. reflexivity.
Qed.

Lemma rwlock_init_run p w :
  ∃ h w', vlc_rwlock_init E p w = Ret (RWLock p (Cond h CLOCK_MONOTONIC) 0 0) w'
    ∧ h ≠ NULL
    ∧ events w' = <[h := false]> (events w)
    ∧ dynamic_mutex p w'
    ∧ (∀ q, dynamic_mutex q w → dynamic_mutex q w')
    ∧ tls w' = tls w ∧ threads w' = threads w
    ∧ vlc_threadvar_last w' = vlc_threadvar_last w
    ∧ thread_key w' = thread_key w ∧ super_variable w' = super_variable w
    ∧ trace w' = trace w.
Proof.
  unfold vlc_rwlock_init. rewrite (bind_Ret _ _ _ _ _ (mutex_init_run p w)).
  unfold vlc_cond_init. rewrite (bind_Ret _ _ _ _ _ (cond_init_run _ _)).
  eexists _, _. split; [reflexivity|]. unfold dynamic_mutex. mred.
  split; [apply Halloc|].
  split; [reflexivity|]. split; [|split; [|auto 10]].
  - eexists. rewrite lookup_insert_eq. split; [reflexivity|].
    destruct (mutexes w !! p); reflexivity.
  - intros q (m & Hm & Hd). destruct (decide (q = p)) as [->|Hne].
    + eexists. rewrite lookup_insert_eq. split; [reflexivity|]. rewrite Hm. reflexivity.
    + exists m. rewrite lookup_insert_ne by congruence. auto.
Qed.

Lemma mutex_destroy_run p w :
  dynamic_mutex p w →
  vlc_mutex_destroy p w = Ret tt (set_mutexes (delete p) w).
Proof.
  intros (m & Hm & Hd). unfold vlc_mutex_destroy, DeleteCriticalSection.
  rewrite (bind_Ret _ _ _ _ _ (load_mutex_run _ _ _ Hm)), Hd. reflexivity.
Qed.

Lemma dynamic_mutex_delete p q w :
  q ≠ p → dynamic_mutex q w → dynamic_mutex q (set_mutexes (delete p) w).
Proof. intros Hne (m & Hm & Hd). exists m. cbn. rewrite lookup_delete_ne by congruence. auto. Qed.

Lemma delete_absent fuel key w w' q :
  super_ready w →
  vlc_threadvar_delete E (S fuel) key w = Ret tt w' →
  mutexes w !! q = None → mutexes w' !! q = None.
Proof.
  intros Hs Hdel Hq. pose proof Hs as (m & Hm & Hd).
  assert (Hne : q ≠ super_mutex) by congruence.
  unfold vlc_threadvar_delete in Hdel.
  destruct (lock_dynamic E fuel super_mutex w Hs) as (wx & Hlx & _ & _ & _ & Hdx & _).
  rewrite (bind_Ret _ _ _ _ _ Hlx), bind_modify in Hdel.
  destruct (unlock_dynamic E fuel super_mutex (set_keys (unlink key) wx))
    as (wy & Huy & _ & _ & _ & _ & Hfy).
  { destruct (Hdx _ Hs) as (m' & Hm' & Hd'). exists m'. auto. }
  rewrite (bind_Ret _ _ _ _ _ Huy) in Hdel. unfold TlsFree, modify in Hdel.
  injection Hdel as <-. cbn [mutexes set_tls]. rewrite (Hfy q Hne). cbn [mutexes set_keys].
  clear -Hlx Hq Hm Hd Hne.
  cbn [vlc_mutex_lock] in Hlx.
  rewrite (bind_Ret _ _ _ _ _ (load_mutex_run _ _ _ Hm)), Hd in Hlx.
  cbn [negb] in Hlx. unfold EnterCriticalSection in Hlx. revert Hlx. mred. rewrite Hm. mred.
  destruct (RecursionCount m =? 0); mred.
  - rewrite (interfere_dynamic _ _ _ _ Hm Hd). mred. intros [= <-]. mred.
    rewrite lookup_insert_ne by congruence. unfold interfere.
    rewrite map_lookup_imap, Hq. reflexivity.
  - rewrite Hm. mred. intros [= <-]. mred.
    rewrite lookup_insert_ne by congruence. exact Hq.
Qed.

(** X28: [DllMain] returns [TRUE] whenever it returns.  On
    [DLL_PROCESS_ATTACH], when no allocation fails, it sets up the
    super lock, the event of the super condition variable, the key
    [thread_key], in which the calling thread has no record, and the
    two read/write locks, free; on [DLL_PROCESS_DETACH] it destroys
    them all. *)
Theorem DllMain_attach_detach fuel fdwReason config_lock msg_lock w :
  (1 ≤ fuel)%nat →
  rw_mutex config_lock ≠ super_mutex → rw_mutex msg_lock ≠ super_mutex →
  rw_mutex config_lock ≠ rw_mutex msg_lock →
  (∀ r w', DllMain E fuel fdwReason config_lock msg_lock w = Ret r w' → r.1 = TRUE)
  ∧ ∃ cl ml w1,
      DllMain E fuel DLL_PROCESS_ATTACH config_lock msg_lock w = Ret (TRUE, (cl, ml)) w1
      ∧ super_ready w1
      ∧ handle (super_variable w1) ≠ NULL
      ∧ events w1 !! handle (super_variable w1) = Some false
      ∧ vlc_threadvar_last w1 = thread_key w1 :: vlc_threadvar_last w
      ∧ destroy (thread_key w1) = NULL
      ∧ thread_self w1 = NULL
      ∧ rw_mutex cl = rw_mutex config_lock ∧ rw_mutex ml = rw_mutex msg_lock
      ∧ readers cl = 0 ∧ writer cl = 0 ∧ readers ml = 0 ∧ writer ml = 0
      ∧ dynamic_mutex (rw_mutex cl) w1 ∧ dynamic_mutex (rw_mutex ml) w1
      ∧ events w1 !! handle (rw_wait cl) = Some false
      ∧ events w1 !! handle (rw_wait ml) = Some false
      ∧ ∃ w2,
          DllMain E fuel DLL_PROCESS_DETACH cl ml w1 = Ret (TRUE, (cl, ml)) w2
          ∧ mutexes w2 !! super_mutex = None
          ∧ mutexes w2 !! rw_mutex cl = None ∧ mutexes w2 !! rw_mutex ml = None
          ∧ events w2 !! handle (super_variable w1) = None
          ∧ events w2 !! handle (rw_wait cl) = None
          ∧ events w2 !! handle (rw_wait ml) = None
          ∧ vlc_threadvar_last w2 = vlc_threadvar_last w
          ∧ tls w2 !! tv_id (thread_key w1) = None.
Proof.
  intros Hf Hc Hm Hcm. destruct fuel as [|fuel]; [lia|]. split.
  { intros r w'. unfold DllMain.
    destruct (fdwReason =? DLL_PROCESS_ATTACH); [|destruct (fdwReason =? DLL_PROCESS_DETACH)].
    - intros H. repeat (apply bind_inv in H as (? & ? & _ & H)). injection H as <- _.
      reflexivity.
    - intros H. repeat (apply bind_inv in H as (? & ? & _ & H)). injection H as <- _.
      reflexivity.
    - intros [= <- _]. reflexivity. }
  unfold DllMain at 1. cbn [Z.eqb DLL_PROCESS_ATTACH Pos.eqb].
  rewrite (bind_Ret _ _ _ _ _ (mutex_init_run super_mutex w)).
  set (w0 := set_mutexes _ w).
  unfold vlc_cond_init. rewrite (bind_Ret _ _ _ _ _ (cond_init_run _ w0)), bind_modify.
  set (h0 := env_alloc E (now w0)).
  set (wa := set_super_variable _ _).
  assert (Hsa : super_ready wa).
  { eexists. subst wa w0. cbn. rewrite lookup_insert_eq. split; [reflexivity|].
    destruct (mutexes w !! super_mutex); reflexivity. }
  destruct (create_run fuel NULL wa Hsa)
    as (index & wb & Hcr & Hkb & Htlsb & Heb & Hthb & Hkeyb & Hsvb & Hsb & Hdb & Htrb).
  rewrite (bind_Ret _ _ _ _ _ Hcr). cbn [snd]. rewrite bind_modify.
  set (wc := set_thread_key _ wb).
  destruct (rwlock_init_run (rw_mutex config_lock) wc)
    as (h4 & wd & Hid & Hh4 & Hed & Hpd & Hdd & Htlsd & Hthd & Hkd & Hkeyd & Hsvd & Htrd).
  rewrite (bind_Ret _ _ _ _ _ Hid).
  destruct (rwlock_init_run (rw_mutex msg_lock) wd)
    as (h5 & we & Hie & Hh5 & Hee & Hpe & Hde & Htlse & Hthe & Hke & Hkeye & Hsve & Htre).
  rewrite (bind_Ret _ _ _ _ _ Hie).
  eexists _, _, we. split; [reflexivity|].
  cbn [rw_mutex rw_wait readers writer handle].
  assert (Hsv : super_variable we = Cond h0 CLOCK_MONOTONIC).
  { rewrite Hsve, Hsvd. subst wc. cbn. rewrite Hsvb. reflexivity. }
  assert (Hkey : thread_key we = Threadvar index NULL).
  { rewrite Hkeye, Hkeyd. reflexivity. }
  assert (Hev : events we = <[h5 := false]> (<[h4 := false]> (<[h0 := false]> (events w)))).
  { rewrite Hee, Hed. subst wc. cbn. rewrite Heb. reflexivity. }
  assert (Hse : super_ready we) by (apply Hde, Hdd; exact Hsb).
  rewrite Hsv, Hkey. cbn [handle destroy tv_id].
  split; [exact Hse|]. split; [apply Halloc|].
  split; [rewrite Hev, !lookup_insert; repeat case_decide; first [reflexivity | congruence]|].
  split; [rewrite Hke, Hkd; subst wc; cbn; rewrite Hkb; reflexivity|].
  split; [reflexivity|].
  split; [unfold thread_self; rewrite Hkey, Htlse, Htlsd; subst wc; cbn;
          rewrite Htlsb, lookup_insert_eq; reflexivity|].
  do 6 (split; [reflexivity|]).
  split; [apply Hde; exact Hpd|]. split; [exact Hpe|].
  split; [rewrite Hev, !lookup_insert; repeat case_decide; first [reflexivity | congruence]|].
  split; [rewrite Hev, !lookup_insert; repeat case_decide; first [reflexivity | congruence]|].
  (* detach *)
  unfold DllMain. cbn [Z.eqb DLL_PROCESS_ATTACH DLL_PROCESS_DETACH].
  unfold vlc_rwlock_destroy, vlc_cond_destroy, CloseHandle.
  cbn [rw_mutex rw_wait handle].
  rewrite !bind_assoc, !bind_modify.
  match goal with |- ∃ w2, (vlc_mutex_destroy _;; _) ?w0 = _ ∧ _ => set (w5 := w0) end.
  assert (Hp5 : ∀ q, dynamic_mutex q we → dynamic_mutex q w5) by (intros q H; exact H).
  rewrite (bind_Ret _ _ _ _ _ (mutex_destroy_run _ w5 (Hp5 _ Hpe))).
  rewrite !bind_assoc, !bind_modify.
  match goal with |- ∃ w2, (vlc_mutex_destroy _;; _) ?w0 = _ ∧ _ => set (w6 := w0) end.
  assert (Hp6 : ∀ q, q ≠ rw_mutex msg_lock → dynamic_mutex q we → dynamic_mutex q w6).
  { intros q Hne H. subst w6. apply (dynamic_mutex_delete _ _ w5 Hne) in H. exact H. }
  rewrite (bind_Ret _ _ _ _ _ (mutex_destroy_run _ w6 (Hp6 _ Hcm (Hde _ Hpd)))).
  rewrite bind_gets.
  match goal with |- ∃ w2, (vlc_threadvar_delete _ _ ?k;; _) ?w0 = _ ∧ _ =>
    set (w7 := w0); set (key := k)
  end.
  assert (Hs7 : super_ready w7).
  { subst w7. apply dynamic_mutex_delete; [congruence|]. apply Hp6; [congruence|exact Hse]. }
  destruct (delete_run E fuel key w7 Hs7)
    as (w8 & Hdel & Hk8 & Htls8 & He8 & Hth8 & Hkey8 & Hsv8 & Hs8 & Htr8).
  rewrite (bind_Ret _ _ _ _ _ Hdel), bind_gets, !bind_assoc, !bind_modify.
  match goal with |- ∃ w2, (vlc_mutex_destroy _;; _) ?w0 = _ ∧ _ => set (w9 := w0) end.
  assert (Hs9 : super_ready w9) by exact Hs8.
  rewrite (bind_Ret _ _ _ _ _ (mutex_destroy_run _ w9 Hs9)).
  eexists. split; [reflexivity|].
  assert (Hkey7 : key = Threadvar index NULL) by (subst key w7 w6 w5; cbn; exact Hkey).
  assert (Hm8 : ∀ q, mutexes w7 !! q = None → q ≠ super_mutex → mutexes w8 !! q = None).
  { intros q Hq _. exact (delete_absent fuel key w7 w8 q Hs7 Hdel Hq). }
  cbn [mutexes events vlc_threadvar_last tls set_mutexes set_events].
  split; [apply lookup_delete_eq|].
  assert (Hev8 : events w8 = delete h4 (delete h5 (events we))).
  { rewrite He8. subst w7 w6 w5. reflexivity. }
  split; [|split].
  - rewrite lookup_delete_ne by congruence. apply Hm8; [|assumption].
    subst w7. cbn. apply lookup_delete_eq.
  - rewrite lookup_delete_ne by congruence. apply Hm8; [|assumption].
    subst w7 w6. cbn. rewrite lookup_delete_ne by congruence. apply lookup_delete_eq.
  - assert (Hsv7 : super_variable w7 = Cond h0 CLOCK_MONOTONIC) by exact Hsv.
    assert (Hev9 : events w9 = delete h0 (events w8)).
    { subst w9. mred. rewrite Hsv8, Hsv7. reflexivity. }
    assert (Hk7 : vlc_threadvar_last w7 = key :: vlc_threadvar_last w).
    { rewrite Hkey7. change (vlc_threadvar_last w7) with (vlc_threadvar_last we).
      rewrite Hke, Hkd. subst wc. cbn [vlc_threadvar_last set_thread_key]. rewrite Hkb.
      reflexivity. }
    rewrite Hev9, Hev8.
    split; [apply lookup_delete_eq|].
    split; [rewrite !lookup_delete; repeat case_decide; first [reflexivity | congruence]|].
    split; [rewrite !lookup_delete; repeat case_decide; first [reflexivity | congruence]|].
    split.
    + change (vlc_threadvar_last w9) with (vlc_threadvar_last w8).
      rewrite Hk8, Hk7. cbn [unlink]. rewrite decide_True by reflexivity. reflexivity.
    + change (tls w9) with (tls w8). rewrite Htls8, Hkey7. apply lookup_delete_eq.
Qed.

End Library.

Module KeyListFacts.
Import KeyList.

Lemma linked_frame h h' nxt l p :
  linked h nxt l p → (∀ a, a ∈ l → h' !! a = h !! a) → linked h' nxt l p.
Proof.
  revert nxt p. induction l as [|a l IH]; intros nxt p; [auto|].
  cbn [linked]. intros (-> & Hn & v & Hv & Hnx & Hl) Hsame.
  split; [reflexivity|]. split; [exact Hn|]. exists v.
  split; [rewrite Hsame; [exact Hv | left]|]. split; [exact Hnx|].
  apply IH; [exact Hl|]. intros b Hb. apply Hsame. right. exact Hb.
Qed.

Lemma linked_null h nxt l p : linked h nxt l p → NULL ∉ l.
Proof.
  revert nxt p. induction l as [|a l IH]; intros nxt p; [intros _ H; inversion H|].
  cbn [linked]. intros (_ & Hn & v & _ & _ & Hl). rewrite not_elem_of_cons.
  split; [congruence | eapply IH, Hl].
Qed.

Lemma linked_walk h nxt l p : linked h nxt l p → walk h (S (length l)) p = l.
Proof.
  revert nxt p. induction l as [|a l IH]; intros nxt p.
  - cbn. intros ->. reflexivity.
  - cbn [linked]. intros (-> & Hn & v & Hv & _ & Hl).
    cbn [length walk]. apply Z.eqb_neq in Hn. rewrite Hn, Hv. f_equal.
    eapply IH, Hl.
Qed.

Lemma linked_head h nxt l p : linked h nxt l p → p = default NULL (head l).
Proof. destruct l; cbn; [auto | tauto]. Qed.

Lemma unlinked_other var v h a :
  a ≠ var → a ≠ prev v → a ≠ next v → unlinked var v h !! a = h !! a.
Proof.
  intros H1 H2 H3. unfold unlinked. cbv zeta.
  rewrite lookup_delete_ne by congruence.
  destruct (negb (next v =? NULL)), (negb (prev v =? NULL));
    repeat match goal with
    | |- context [match ?x with Some _ => _ | None => _ end] => destruct x
    end; rewrite ?lookup_insert_ne by congruence; reflexivity.
Qed.

Lemma unlinked_key var v h a :
  a ≠ var →
  (λ v, Threadvar (id v) (destroy v)) <$> unlinked var v h !! a
  = (λ v, Threadvar (id v) (destroy v)) <$> h !! a.
Proof.
  intros H1. unfold unlinked. cbv zeta.
  rewrite lookup_delete_ne by congruence.
  destruct (negb (prev v =? NULL)); [destruct (h !! prev v) as [p|] eqn:Hp|].
  - destruct (negb (next v =? NULL)).
    + destruct (<[prev v := set_next (next v) p]> h !! next v) as [n|] eqn:Hn.
      * destruct (decide (a = next v)) as [->|Hne].
        -- rewrite lookup_insert_eq. cbn.
           destruct (decide (next v = prev v)) as [He|Hne'].
           ++ rewrite He in *. rewrite lookup_insert_eq in Hn. injection Hn as <-.
              rewrite Hp. reflexivity.
           ++ rewrite lookup_insert_ne in Hn by congruence. rewrite Hn. reflexivity.
        -- rewrite lookup_insert_ne by congruence.
           destruct (decide (a = prev v)) as [->|Hne'].
           ++ rewrite lookup_insert_eq, Hp. reflexivity.
           ++ rewrite lookup_insert_ne by congruence. reflexivity.
      * destruct (decide (a = prev v)) as [->|Hne'].
        -- rewrite lookup_insert_eq, Hp. reflexivity.
        -- rewrite lookup_insert_ne by congruence. reflexivity.
    + destruct (decide (a = prev v)) as [->|Hne'].
      * rewrite lookup_insert_eq, Hp. reflexivity.
      * rewrite lookup_insert_ne by congruence. reflexivity.
  - destruct (negb (next v =? NULL)); [|reflexivity].
    destruct (h !! next v) as [n|] eqn:Hn; [|reflexivity].
    destruct (decide (a = next v)) as [->|Hne].
    + rewrite lookup_insert_eq, Hn. reflexivity.
    + rewrite lookup_insert_ne by congruence. reflexivity.
  - destruct (negb (next v =? NULL)); [|reflexivity].
    destruct (h !! next v) as [n|] eqn:Hn; [|reflexivity].
    destruct (decide (a = next v)) as [->|Hne].
    + rewrite lookup_insert_eq, Hn. reflexivity.
    + rewrite lookup_insert_ne by congruence. reflexivity.
Qed.


Lemma linked_lookup h nxt l p a :
  linked h nxt l p → a ∈ l → is_Some (h !! a).
Proof.
  revert nxt p. induction l as [|b l IH]; intros nxt p; [intros _ H; inversion H|].
  cbn [linked]. intros (_ & _ & v & Hv & _ & Hl). rewrite elem_of_cons.
  intros [-> | Ha]; [eauto | eapply IH; eauto].
Qed.

Lemma unlinked_linked var v h l2 : ∀ l1 nxt p,
  linked h nxt (l1 ++ var :: l2) p →
  NoDup (l1 ++ var :: l2) →
  h !! var = Some v →
  nxt = NULL ∨ nxt ∉ l1 ++ var :: l2 →
  linked (unlinked var v h) nxt (l1 ++ l2) (if l1 is [] then prev v else p)
  ∧ next v = default nxt (last l1)
  ∧ prev v = default NULL (head l2).
Proof.
  induction l1 as [|a l1 IH]; intros nxt p Hl Hnd Hv Hnxt.
  - cbn [app] in *. cbn [linked] in Hl.
    destruct Hl as (-> & Hvn & v' & Hv' & Hnx & Hl). rewrite Hv in Hv'. injection Hv' as <-.
    apply NoDup_cons in Hnd as [Hnin Hnd].
    split; [|split; [exact Hnx | eapply linked_head, Hl]].
    destruct l2 as [|b l2]; [exact Hl|].
    cbn [linked] in Hl |- *. destruct Hl as (Hpv & Hbn & vb & Hvb & Hnb & Hl).
    apply not_elem_of_cons in Hnin as [Hvb' Hnin].
    apply NoDup_cons in Hnd as [Hbnin Hnd].
    assert (Hbx : b ≠ nxt).
    { destruct Hnxt as [-> | Hx]; [exact Hbn|]. intros <-. apply Hx. right. left. }
    split; [exact Hpv|]. split; [exact Hbn|]. exists (set_next nxt vb).
    split; [|split; [reflexivity|]].
    + unfold unlinked. cbv zeta. rewrite lookup_delete_ne by congruence.
      rewrite Hpv. apply Z.eqb_neq in Hbn. rewrite Hbn. cbn [negb]. rewrite Hvb, Hnx.
      destruct (negb (nxt =? NULL)); [|apply lookup_insert_eq].
      destruct (<[b := set_next nxt vb]> h !! nxt);
        rewrite ?lookup_insert_ne by congruence; apply lookup_insert_eq.
    + cbn [prev set_next]. eapply linked_frame; [exact Hl|].
      intros c Hc. apply unlinked_other.
      * intros ->. apply Hnin, Hc.
      * rewrite Hpv. intros ->. apply Hbnin, Hc.
      * rewrite Hnx. destruct Hnxt as [-> | Hx].
        -- intros ->. eapply linked_null; [exact Hl | exact Hc].
        -- intros ->. apply Hx. right. right. exact Hc.
  - cbn [app] in *. cbn [linked] in Hl.
    destruct Hl as (-> & Han & va & Hva & Hnx & Hl).
    apply NoDup_cons in Hnd as [Hnin Hnd].
    destruct (IH a (prev va) Hl Hnd Hv (or_intror Hnin)) as (Hl' & Hnv & Hpv).
    assert (Hav : a ≠ var) by (intros ->; apply Hnin, elem_of_app; right; left).
    assert (Hap : a ≠ prev v).
    { rewrite Hpv. destruct l2 as [|b l2]; [exact Han|]. cbn. intros ->.
      apply Hnin, elem_of_app. right. right. left. }
    split; [|split; [|exact Hpv]].
    + cbn [linked]. split; [reflexivity|]. split; [exact Han|].
      destruct l1 as [|a' l1].
      * cbn in Hnv. exists (set_prev (prev v) va). split; [|split; [exact Hnx | exact Hl']].
        unfold unlinked. cbv zeta. rewrite lookup_delete_ne by congruence.
        rewrite Hnv. apply Z.eqb_neq in Han. rewrite Han. cbn [negb].
        destruct (negb (prev v =? NULL)); [destruct (h !! prev v)|];
          rewrite ?lookup_insert_ne by congruence; rewrite Hva; apply lookup_insert_eq.
      * exists va. split; [|split; [exact Hnx | exact Hl']].
        rewrite unlinked_other; [exact Hva | exact Hav | exact Hap|].
        rewrite Hnv. intros Heq. apply Hnin. rewrite Heq.
        apply elem_of_app. left.
        destruct (last (a' :: l1)) as [x|] eqn:Hlast;
          [apply last_Some_elem_of in Hlast; exact Hlast|].
        apply last_None in Hlast. discriminate.
    + rewrite Hnv. destruct l1 as [|a' l1]; [reflexivity|].
      change (last (a :: a' :: l1)) with (last (a' :: l1)).
      destruct (last (a' :: l1)) eqn:Hlast; [reflexivity|].
      apply last_None in Hlast. discriminate.
Qed.


Lemma unlink_app (k : vlc_threadvar) l1 l2 :
  k ∉ l1 → unlink k (l1 ++ k :: l2) = l1 ++ l2.
Proof.
  induction l1 as [|x l1 IH]; intros Hk; cbn [app unlink].
  - rewrite decide_True by reflexivity. reflexivity.
  - apply not_elem_of_cons in Hk as [Hne Hk].
    rewrite decide_False by congruence. rewrite IH by exact Hk. reflexivity.
Qed.

Lemma omap_ext_in {A B} (f g : A → option B) (l : list A) :
  (∀ a, a ∈ l → f a = g a) → omap f l = omap g l.
Proof.
  induction l as [|a l IH]; intros H; [reflexivity|]. cbn.
  rewrite (H a) by left. rewrite IH by (intros; apply H; right; assumption). reflexivity.
Qed.

(** X29: [vlc_threadvar_delete] on a key of the list goes through no invalid
    pointer, takes the node out of both chains and frees it: the list of
    the keys is the former one without the key, in the same order, the
    scan of [vlc_thread_cleanup] visits exactly its nodes, and the other
    keys keep their index and their destructor, so that the keys in the
    order of the scan are those of before without the first occurrence
    of the deleted one. *)
Theorem delete_unlinks var s l :
  keys s l → var ∈ l →
  ∃ s', vlc_threadvar_delete var s = Some s'
    ∧ keys s' (filter (λ a, a ≠ var) l)
    ∧ walk (heap s') (length l) (vlc_threadvar_last s') = filter (λ a, a ≠ var) l
    ∧ heap s' !! var = None
    ∧ (∀ a, a ≠ var → key_at s' a = key_at s a)
    ∧ ∃ k, key_at s var = Some k
        ∧ (NoDup (omap (key_at s) l) →
           omap (key_at s') (filter (λ a, a ≠ var) l) = unlink k (omap (key_at s) l)).
Proof.
  intros [Hl Hnd] Hin.
  apply list_elem_of_split in Hin as (l1 & l2 & ->).
  destruct (linked_lookup _ _ _ _ var Hl) as [v Hv];
    [apply elem_of_app; right; left|].
  destruct (unlinked_linked var v (heap s) l2 l1 NULL _ Hl Hnd Hv (or_introl eq_refl))
    as (Hl' & Hnv & Hpv).
  pose proof (linked_null _ _ _ _ Hl) as Hnull.
  assert (Hfilter : filter (λ a, a ≠ var) (l1 ++ var :: l2) = l1 ++ l2).
  { apply NoDup_app in Hnd as (Hnd1 & Hdisj & Hnd2).
    apply NoDup_cons in Hnd2 as [Hnin2 Hnd2].
    rewrite filter_app, filter_cons_False by (intros H; apply H; reflexivity).
    rewrite !(filter_id (λ a, a ≠ var)); [reflexivity| |].
    - apply Forall_forall. intros a Ha ->. contradiction.
    - apply Forall_forall. intros a Ha ->. apply (Hdisj var Ha). left. }
  assert (Hprev : prev v ≠ NULL → ∃ p, heap s !! prev v = Some p).
  { intros Hn. rewrite Hpv in Hn |- *. destruct l2 as [|b l2]; [contradiction|].
    cbn. destruct (linked_lookup _ _ _ _ b Hl) as [p Hp]; [|eauto].
    apply elem_of_app. right. right. left. }
  assert (Hnext : next v ≠ NULL → ∃ n, heap s !! next v = Some n ∧ next v ≠ prev v).
  { intros Hn. rewrite Hnv in Hn |- *.
    destruct (last l1) as [x|] eqn:Hlast; [|contradiction]. cbn.
    apply last_Some_elem_of in Hlast.
    destruct (linked_lookup _ _ _ _ x Hl) as [n Hx]; [apply elem_of_app; left; exact Hlast|].
    exists n. split; [exact Hx|]. rewrite Hpv.
    destruct l2 as [|b l2]; cbn; [intros ->; apply Hnull, elem_of_app; left; exact Hlast|].
    intros ->. apply NoDup_app in Hnd as (_ & Hdisj & _).
    apply (Hdisj b Hlast). right. left. }
  assert (Hrun : vlc_threadvar_delete var s
                 = Some (State (unlinked var v (heap s))
                               (if l1 is [] then prev v else vlc_threadvar_last s))).
  { unfold vlc_threadvar_delete, unlinked. rewrite Hv. cbn [mbind option_bind].
    destruct (Z.eqb_spec (prev v) NULL) as [Hp0|Hp0]; cbn [negb mbind option_bind].
    - destruct (Z.eqb_spec (next v) NULL) as [Hn0|Hn0]; cbn [negb mbind option_bind fst snd].
      + destruct l1 as [|a l1]; [reflexivity|]. exfalso. rewrite Hnv in Hn0.
        destruct (last (a :: l1)) as [x|] eqn:Hlast.
        * apply last_Some_elem_of in Hlast. cbn in Hn0. subst x.
          apply Hnull, elem_of_app. left. exact Hlast.
        * apply last_None in Hlast. discriminate.
      + destruct (Hnext Hn0) as (n & Hn & _). rewrite Hn. cbn [mbind option_bind fst snd].
        destruct l1 as [|a l1]; [|reflexivity]. exfalso. apply Hn0. exact Hnv.
    - destruct (Hprev Hp0) as (p & Hp). rewrite Hp. cbn [mbind option_bind].
      destruct (Z.eqb_spec (next v) NULL) as [Hn0|Hn0]; cbn [negb mbind option_bind fst snd].
      + destruct l1 as [|a l1]; [reflexivity|]. exfalso. rewrite Hnv in Hn0.
        destruct (last (a :: l1)) as [x|] eqn:Hlast.
        * apply last_Some_elem_of in Hlast. cbn in Hn0. subst x.
          apply Hnull, elem_of_app. left. exact Hlast.
        * apply last_None in Hlast. discriminate.
      + destruct (Hnext Hn0) as (n & Hn & Hne).
        rewrite lookup_insert_ne by congruence. rewrite Hn.
        cbn [mbind option_bind fst snd].
        destruct l1 as [|a l1]; [|reflexivity]. exfalso. apply Hn0. exact Hnv. }
  eexists. split; [exact Hrun|]. rewrite Hfilter.
  assert (Hlast : linked (unlinked var v (heap s)) NULL (l1 ++ l2)
                    (if l1 is [] then prev v else vlc_threadvar_last s)) by exact Hl'.
  assert (Hnd' : NoDup (l1 ++ l2)).
  { rewrite <- Hfilter. apply NoDup_filter, Hnd. }
  split; [split; [exact Hlast | exact Hnd']|]. cbn [heap KeyList.vlc_threadvar_last].
  assert (Hkeys : ∀ a, a ≠ var →
            key_at (State (unlinked var v (heap s))
                      (if l1 is [] then prev v else KeyList.vlc_threadvar_last s)) a
            = key_at s a).
  { intros a Ha. unfold key_at. cbn [heap]. apply unlinked_key, Ha. }
  split; [|split; [|split; [exact Hkeys|]]].
  - rewrite length_app. cbn [length]. rewrite Nat.add_succ_r, <- length_app.
    eapply linked_walk, Hlast.
  - unfold unlinked. apply lookup_delete_eq.
  - exists (Threadvar (id v) (destroy v)). split; [unfold key_at; rewrite Hv; reflexivity|].
    intros Hndv. rewrite omap_app in Hndv. rewrite !omap_app.
    cbn [omap list_omap] in Hndv |- *.
    assert (Hkv : key_at s var = Some (Threadvar (id v) (destroy v)))
      by (unfold key_at; rewrite Hv; reflexivity).
    rewrite Hkv in Hndv |- *.
    apply NoDup_app in Hndv as (_ & Hdisj & _).
    rewrite unlink_app by (intros Hk; apply (Hdisj _ Hk); left).
    apply NoDup_app in Hnd as (_ & Hd & Hnd2).
    apply NoDup_cons in Hnd2 as [Hnin2 _].
    f_equal; apply omap_ext_in; intros a Ha; apply Hkeys; intros ->;
      [apply (Hd var Ha); left | contradiction].
Qed.

(** X30: [vlc_threadvar_create] links the new node as the last key; deleting
    it again gives back the memory as it was. *)
Theorem create_links var index destr s l :
  keys s l → var ≠ NULL → heap s !! var = None →
  ∃ s', vlc_threadvar_create var index destr s = Some s'
    ∧ keys s' (var :: l)
    ∧ key_at s' var = Some (Threadvar index destr)
    ∧ (∀ a, a ≠ var → key_at s' a = key_at s a)
    ∧ vlc_threadvar_delete var s' = Some s.
Proof.
  intros [Hl Hnd] Hvar Hfresh.
  assert (Hnin : var ∉ l).
  { intros Hin. destruct (linked_lookup _ _ _ _ var Hl Hin) as [v Hv]. congruence. }
  unfold vlc_threadvar_create. cbv zeta. rewrite insert_insert_eq.
  destruct s as [h lst]. cbn [heap KeyList.vlc_threadvar_last] in *.
  destruct l as [|b l].
  - cbn in Hl. subst lst. cbn [Z.eqb NULL negb mbind option_bind].
    eexists. split; [reflexivity|]. unfold keys, key_at.
    cbn [heap KeyList.vlc_threadvar_last linked].
    split; [split; [|apply NoDup_singleton]|split; [|split]].
    + split; [reflexivity|]. split; [exact Hvar|]. eexists.
      rewrite lookup_insert_eq. split; [reflexivity|]. split; reflexivity.
    + rewrite lookup_insert_eq. reflexivity.
    + intros a Ha. rewrite lookup_insert_ne by congruence. reflexivity.
    + unfold vlc_threadvar_delete. cbn [heap KeyList.vlc_threadvar_last].
      rewrite lookup_insert_eq. cbn. rewrite delete_insert_eq.
      rewrite delete_id by exact Hfresh. reflexivity.
  - cbn [linked] in Hl. destruct Hl as (-> & Hbn & vb & Hvb & Hnb & Hl).
    apply not_elem_of_cons in Hnin as [Hvb' Hnin].
    apply NoDup_cons in Hnd as [Hbnin Hnd'].
    pose proof Hbn as Hbn'. apply Z.eqb_neq in Hbn'. rewrite Hbn'. cbn [negb].
    rewrite lookup_insert_ne by congruence. rewrite Hvb. cbn [mbind option_bind].
    eexists. split; [reflexivity|]. unfold keys, key_at.
    cbn [heap KeyList.vlc_threadvar_last].
    split; [split|split; [|split]].
    + cbn [linked]. split; [reflexivity|]. split; [exact Hvar|]. eexists.
      rewrite lookup_insert_ne by congruence. rewrite lookup_insert_eq.
      split; [reflexivity|]. split; [reflexivity|]. cbn [prev].
      split; [reflexivity|]. split; [exact Hbn|]. exists (set_next var vb).
      rewrite lookup_insert_eq. split; [reflexivity|]. split; [reflexivity|].
      cbn [prev set_next]. eapply linked_frame; [exact Hl|].
      intros a Ha. rewrite !lookup_insert_ne; [reflexivity| |];
        intros ->; [apply Hnin | apply Hbnin]; exact Ha.
    + apply NoDup_cons. split; [|apply NoDup_cons; auto].
      apply not_elem_of_cons. auto.
    + rewrite lookup_insert_ne by congruence. rewrite lookup_insert_eq. reflexivity.
    + intros a Ha. destruct (decide (a = b)) as [->|Hne].
      * rewrite lookup_insert_eq, Hvb. reflexivity.
      * rewrite !lookup_insert_ne by congruence. reflexivity.
    + unfold vlc_threadvar_delete. cbn [heap KeyList.vlc_threadvar_last].
      rewrite lookup_insert_ne by congruence. rewrite lookup_insert_eq.
      cbn [mbind option_bind prev next]. rewrite Hbn'. cbn [negb].
      rewrite lookup_insert_eq. cbn [mbind option_bind Z.eqb NULL negb fst snd].
      f_equal. f_equal. rewrite insert_insert_eq.
      rewrite delete_insert_ne by congruence. rewrite delete_insert_eq.
      rewrite delete_id by exact Hfresh.
      apply insert_id. rewrite Hvb. f_equal. unfold set_next. cbn.
      rewrite <- Hnb. destruct vb; reflexivity.
Qed.

End KeyListFacts.

(** ** The statements at the example inputs *)

Lemma timedwait_past_deadline_signalled :
  (let! c := vlc_cond_init env0 in
   vlc_cond_signal c;;
   let! t := mdate env0 in
   let! r := vlc_cond_timedwait env0 2 c 2 (t - 1) in
   ret (t, r)) w_main
  = Ret (0, 0)
      (World {[ 99 := false; 100 := false ]}
             {[ super_mutex := Mutex true false 0 0; 2 := Mutex true false 0 1 ]}
             {[ 0 := NULL ]} ∅ [Threadvar 0 NULL] (Threadvar 0 NULL)
             (Cond 99 CLOCK_MONOTONIC) 4
             [EvSetEvent 100; EvLeave 2; EvWait [100] 0 WAIT_OBJECT_0; EvEnter 2;
              EvResetEvent 100])
  ∧ 0 ≠ ETIMEDOUT.
Proof. split; [vm_compute; reflexivity | discriminate]. Qed.

Lemma timedwait_result_witness :
  (∃ w' tr, vlc_cond_timedwait env0 3 (Cond 100 CLOCK_MONOTONIC) 2 (-1) w_signalled
              = Ret 0 w'
     ∧ trace w' = trace w_signalled ++ tr ++ [EvResetEvent 100]
     ∧ waits_on 100 tr = [(0, WAIT_OBJECT_0)]
     ∧ events w' !! 100 = Some false)
  ∧ (∃ w' tr, vlc_cond_timedwait env0 3 (Cond 100 CLOCK_MONOTONIC) 2 5000 w_waiting
                = Ret ETIMEDOUT w'
       ∧ trace w' = trace w_waiting ++ tr ++ [EvResetEvent 100]
       ∧ waits_on 100 tr = [(5, WAIT_TIMEOUT)]
       ∧ events w' !! 100 = Some false).
Proof.
  assert (Hno : ∀ deadline w, mtime_t_ok deadline → mtime_t_ok (deadline - 0) →
                  no_overflow (clock_reading env0 (Cond 100 CLOCK_MONOTONIC)) deadline w).
  { intros deadline w Hd Hd0. split; [exact Hd|]. intros n t _ Ht.
    vm_compute in Ht. injection Ht as <-.
    split; [unfold mtime_t_ok, INT64_MIN, INT64_MAX; lia | exact Hd0]. }
  split.
  - apply (proj1 (proj2 (timedwait_result env0 3 (Cond 100 CLOCK_MONOTONIC) 2 (-1)
                           w_signalled ltac:(discriminate) ltac:(discriminate)
                           (Hno (-1) w_signalled ltac:(unfold mtime_t_ok, INT64_MIN, INT64_MAX; lia)
                                    ltac:(unfold mtime_t_ok, INT64_MIN, INT64_MAX; lia))))
             true 0).
    + reflexivity.
    + eexists. split; [reflexivity|]. left. reflexivity.
    + left. reflexivity.
    + right. reflexivity.
    + reflexivity.
    + lia.
    + discriminate.
    + lia.
  - destruct (proj2 (proj2 (timedwait_result env0 3 (Cond 100 CLOCK_MONOTONIC) 2 5000
                              w_waiting ltac:(discriminate) ltac:(discriminate)
                              (Hno 5000 w_waiting ltac:(unfold mtime_t_ok, INT64_MIN, INT64_MAX; lia)
                                       ltac:(unfold mtime_t_ok, INT64_MIN, INT64_MAX; lia))))
                false 0) as (r & w' & tr & res & H & Htr & Hw & Hr & _ & _ & Hexp & He).
    + reflexivity.
    + eexists. split; [reflexivity|]. left. reflexivity.
    + right. eexists. split; reflexivity.
    + right. reflexivity.
    + reflexivity.
    + intros _ n _. left. reflexivity.
    + lia.
    + destruct (Hexp eq_refl) as (n & _ & Hn).
      assert (Hres : res = WAIT_TIMEOUT) by (apply Hn; reflexivity).
      assert (Hrt : r = ETIMEDOUT) by (apply Hr; exact Hres).
      subst r res. exists w', tr. auto.
Defined.

Example timedwait_static_mutex_trace :
  ∃ w', vlc_cond_timedwait env0 3 (Cond 100 CLOCK_MONOTONIC) 3 (-1) w_static
          = Ret ETIMEDOUT w'
    ∧ trace w' =
        [EvEnter super_mutex; EvLeave super_mutex;
         EvWait [100] 0 WAIT_TIMEOUT;
         EvEnter super_mutex; EvLeave super_mutex;
         EvResetEvent 100]
    ∧ locked <$> mutexes w' !! 3 = Some true.
Proof. eexists. split; [vm_compute; reflexivity|]. split; vm_compute; reflexivity. Qed.

Lemma testcancel_cancels_witness :
  ∃ w2, vlc_testcancel env0 7 w_worker = Exit (log (EvEndThread 0) w2).
Proof.
  destruct (proj1 (testcancel_cancels env0 6 w_worker 500
                     (Thread 77 false true true [Cleanup 41 1; Cleanup 42 2] 0 5)
                     (Cleanup 43 3) ltac:(reflexivity) ltac:(discriminate)
                     ltac:(reflexivity)) ltac:(reflexivity))
    as (_ & w1 & _ & _ & _ & Hexit).
  destruct Hexit as (w2 & _ & Hexit & _).
  - eexists. split; reflexivity.
  - apply (bool_decide_unpack _). vm_compute. exact I.
  - intros key v s _. reflexivity.
  - vm_compute. lia.
  - exists w2. exact Hexit.
Defined.

Example testcancel_worker_trace :
  ∃ w', vlc_testcancel env0 7 w_worker = Exit w'
    ∧ trace w' =
        [EvCall 41 1; EvCall 42 2;
         EvEnter super_mutex; EvLeave super_mutex; EvTlsSet 3 NULL true; EvCall 33 9;
         EvEnter super_mutex; EvLeave super_mutex; EvTlsSet 1 NULL true; EvCall 11 7;
         EvEnter super_mutex; EvLeave super_mutex; EvEndThread 0]
    ∧ data <$> threads w' !! 500 = Some NULL.
Proof. eexists. split; [vm_compute; reflexivity|]. split; vm_compute; reflexivity. Qed.

Lemma thread_cleanup_destructors_witness :
  ∃ w', vlc_thread_cleanup env0 6 500 w_worker = Ret tt w'
    ∧ trace w' =
        [EvEnter super_mutex; EvLeave super_mutex; EvTlsSet 3 NULL true; EvCall 33 9;
         EvEnter super_mutex; EvLeave super_mutex; EvTlsSet 1 NULL true; EvCall 11 7;
         EvEnter super_mutex; EvLeave super_mutex].
Proof.
  destruct (thread_cleanup_destructors env0 6 w_worker 500
              (Thread 77 false true true [Cleanup 41 1; Cleanup 42 2] 0 5))
    as (w' & Hc & Htr & _).
  - eexists. split; reflexivity.
  - reflexivity.
  - apply (bool_decide_unpack _). vm_compute. exact I.
  - intros key v s _. reflexivity.
  - vm_compute. lia.
  - exists w'. split; [exact Hc|]. rewrite Htr. vm_compute. reflexivity.
Defined.

Lemma rwlock_invariant_witness :
  rw_invariant (RWLock 3 (Cond 100 CLOCK_MONOTONIC) 1 0).
Proof.
  apply (proj1 (rwlock_invariant env0)).
  apply (rw_reach_step env0 (RWLock 3 (Cond 100 CLOCK_MONOTONIC) 0 0) read_lock 0
           w_main _ w_main).
  - apply (rw_reach_init env0 3 w_main _
             (World {[ 99 := false; 100 := false ]}
                {[ super_mutex := Mutex true false 0 0; 2 := Mutex true false 0 1;
                   3 := Mutex true false 0 0 ]}
                {[ 0 := NULL ]} ∅ [Threadvar 0 NULL] (Threadvar 0 NULL)
                (Cond 99 CLOCK_MONOTONIC) 1 [])).
    vm_compute. reflexivity.
  - vm_compute. reflexivity.
Defined.

Lemma savecancel_restorecancel_witness :
  (let! state := vlc_savecancel in vlc_restorecancel state) w_worker = Ret tt w_worker.
Proof.
  apply savecancel_restorecancel. right. vm_compute. eauto.
Defined.

Lemma timer_schedule_wraps :
  ∃ w', vlc_timer_schedule env0 timer0 false 4294967296000 0 w_main
          = Ret (Timer 100 61 0) w'
    ∧ trace w' = [EvCreateTimer 0 0 100]
    ∧ ceil_div 4294967296000 1000 = 4294967296
    ∧ 1000 * 0 < 4294967296000.
Proof.
  eexists. split; [vm_compute; reflexivity|].
  split; [reflexivity|]. split; [reflexivity | lia].
Qed.

Lemma timer_schedule_rounds_up_witness :
  ∃ w' h, vlc_timer_schedule env0 timer0 false 50001 1 w_main
            = Ret (Timer h 61 0) w'
    ∧ trace w' = [EvCreateTimer 51 1 h].
Proof.
  destruct (timer_schedule_rounds_up env0 timer0 false 50001 1 w_main 50001)
    as (w' & h & Hs & Htr & _).
  - lia.
  - reflexivity.
  - lia.
  - lia.
  - vm_compute. discriminate.
  - exists w', h. split; [exact Hs|]. rewrite Htr. reflexivity.
Defined.

Lemma threadvar_set_inverted_witness :
  vlc_threadvar_set (Threadvar 1 11) 8 w_worker
    = Ret ENOMEM (log (EvTlsSet 1 8 true) (set_tls <[1 := 8]> w_worker))
  ∧ vlc_threadvar_set (Threadvar 4 44) 8 w_worker
    = Ret 0 (log (EvTlsSet 4 8 false) w_worker)
  ∧ ∃ w', vlc_threadvar_create env0 2 55 w_worker
            = Ret (0, Some (Threadvar 101 55)) w'.
Proof.
  destruct (threadvar_set_inverted env0 (Threadvar 1 11) 8 w_worker)
    as (ok & w' & Ht & Hs & _ & _ & Hcreate).
  split; [vm_compute; reflexivity|]. split; [vm_compute; reflexivity|].
  assert (Hc : ∃ r k w2, vlc_threadvar_create env0 2 55 w_worker = Ret (r, k) w2
                         ∧ r = 0 ∧ k = Some (Threadvar 101 55)).
  { eexists _, _, _. split; [vm_compute; reflexivity|]. split; reflexivity. }
  destruct Hc as (r & k & w2 & Hc & Hr & Hk).
  pose proof (proj1 (Hcreate 2%nat 55 w_worker r k w2 Hc) Hr) as _.
  exists w2. rewrite Hc, Hr, Hk. reflexivity.
Defined.

Lemma cond_null_handle_cancelled :
  ∃ w', vlc_cond_wait env0 10 (Cond NULL CLOCK_MONOTONIC) 2 w_worker = Exit w'
    ∧ vlc_cond_timedwait env0 9 (Cond NULL CLOCK_MONOTONIC) 2 0 w_worker = Exit w'
    ∧ trace w' = [EvCall 41 1; EvCall 42 2; EvEnter 1; EvLeave 1;
                  EvTlsSet 3 0 true; EvCall 33 9; EvEnter 1; EvLeave 1;
                  EvTlsSet 1 0 true; EvCall 11 7; EvEnter 1; EvLeave 1;
                  EvEndThread 0].
Proof. eexists. split; [vm_compute; reflexivity|]. split; vm_compute; reflexivity. Qed.

Lemma cond_null_handle_witness :
  ∃ w', vlc_cond_wait env_sleep 7 (Cond NULL CLOCK_REALTIME) 2 w_main = Ret tt w'
    ∧ vlc_cond_timedwait env_sleep 6 (Cond NULL CLOCK_REALTIME) 2 (-1) w_main
        = Ret 0 w'
    ∧ trace w' = trace w_main ++ [EvSleep 50 0].
Proof.
  destruct (cond_null_handle env_sleep 6 (Cond NULL CLOCK_REALTIME) 2 (-1) w_main
              ltac:(reflexivity)) as (_ & _ & _ & _ & Hsleep & _).
  apply (Hsleep 0 50000).
  - left. reflexivity.
  - reflexivity.
  - reflexivity.
  - reflexivity.
  - reflexivity.
  - lia.
  - lia.
Defined.

Lemma rdlock_no_wrap_witness :
  vlc_rwlock_rdlock (RWLock 3 (Cond 100 CLOCK_MONOTONIC) ULONG_MAX 0) w_main = Abort
  ∧ vlc_rwlock_rdlock (RWLock 3 (Cond 100 CLOCK_MONOTONIC) 4294967294 0) w_main
    = Ret (Done (RWLock 3 (Cond 100 CLOCK_MONOTONIC) ULONG_MAX 0)) w_main.
Proof.
  split.
  - apply (proj1 (rdlock_no_wrap (RWLock 3 (Cond 100 CLOCK_MONOTONIC) ULONG_MAX 0)
                    w_main ltac:(vm_compute; split; discriminate))).
    reflexivity.
  - apply (proj2 (rdlock_no_wrap (RWLock 3 (Cond 100 CLOCK_MONOTONIC) 4294967294 0)
                    w_main ltac:(vm_compute; split; discriminate))).
    + reflexivity.
    + split; [intros H; exfalso; apply H; reflexivity | reflexivity].
Defined.

(** ** The further statements at the example inputs *)

Lemma mutex_lock_not_cancellation_point_witness :
  ∃ w', vlc_mutex_lock env0 3 3 w_worker_static = Ret tt w'
    ∧ thread_self w' = 500
    ∧ ∃ t', threads w' !! 500 = Some t' ∧ killable t' = true.
Proof.
  assert (H : ∃ w', vlc_mutex_lock env0 3 3 w_worker_static = Ret tt w')
    by (eexists; vm_compute; reflexivity).
  destruct H as (w' & H). exists w'. split; [exact H|].
  exact (proj2 (proj2 (mutex_lock_not_cancellation_point env0 3 3 w_worker_static))
           w' (Thread 77 false true true [Cleanup 41 1; Cleanup 42 2] 0 5) H
           ltac:(discriminate) ltac:(reflexivity)).
Defined.

Lemma static_lock_waits_witness :
  vlc_mutex_lock env0 9 3 w_static = OutOfFuel
  ∧ ∀ w', vlc_mutex_lock env0 9 3 w_static ≠ Ret tt w'.
Proof.
  split; [vm_compute; reflexivity|].
  apply (static_lock_waits env0 9 3 w_static).
  - eexists. split; [reflexivity|]. split; reflexivity.
  - intros n. left. reflexivity.
Defined.

Lemma mwait_not_early_witness :
  ∃ w', mwait env_sleep 5 50000 w_main = Ret tt w'
    ∧ trace w' = [EvSleep 50 0; EvSleep 50 0]
    ∧ ∃ ds t, trace w' = trace w_main ++ map (λ x, EvSleep x.1 x.2) ds
        ∧ mdate_reading env_sleep (now w_main + 2 * length ds) = Some t ∧ 50000 ≤ t.
Proof.
  assert (H : ∃ w', mwait env_sleep 5 50000 w_main = Ret tt w'
                ∧ trace w' = [EvSleep 50 0; EvSleep 50 0])
    by (eexists; split; vm_compute; reflexivity).
  destruct H as (w' & H & Htr). exists w'. split; [exact H|]. split; [exact Htr|].
  assert (Hno : no_overflow (mdate_reading env_sleep) 50000 w_main).
  { split; [unfold mtime_t_ok, INT64_MIN, INT64_MAX; lia|]. intros n t _ Ht.
    unfold mdate_reading, env_sleep in Ht. cbn [env_ticks fmap option_fmap option_map] in Ht.
    destruct (n <? 3)%nat; vm_compute in Ht; injection Ht as <-;
      unfold mtime_t_ok, INT64_MIN, INT64_MAX; lia. }
  destruct (proj1 (mwait_not_early env_sleep 5 50000 w_main Hno) w' H)
    as (ds & t & Hds & _ & Ht & Hle & _).
  exists ds, t. auto.
Defined.

Lemma msleep_not_early_witness :
  ∃ w' t0 t1 (ds : list (Z * Z)),
    msleep env_sleep 6 50000 w_main = Ret tt w'
    ∧ mdate_reading env_sleep (now w_main) = Some t0
    ∧ mdate_reading env_sleep (S (now w_main + 2 * length ds)) = Some t1
    ∧ t0 + 50000 ≤ t1.
Proof.
  assert (H : ∃ w', msleep env_sleep 6 50000 w_main = Ret tt w')
    by (eexists; vm_compute; reflexivity).
  destruct H as (w' & H).
  destruct (msleep_not_early env_sleep 6 50000 w_main w' H)
    as (t0 & t1 & ds & H0 & _ & H1 & Hle & _).
  exists w', t0, t1, ds. auto.
Defined.

Lemma cond_wait_returns_witness :
  ∃ w' tr n res,
    vlc_cond_wait env0 3 (Cond 100 CLOCK_MONOTONIC) 2 w_signalled = Ret tt w'
    ∧ trace w' = trace w_signalled ++ tr ++ [EvResetEvent 100]
    ∧ waits_on 100 tr = replicate n (INFINITE, WAIT_IO_COMPLETION) ++ [(INFINITE, res)]
    ∧ res ≠ WAIT_IO_COMPLETION.
Proof.
  assert (H : ∃ w', vlc_cond_wait env0 3 (Cond 100 CLOCK_MONOTONIC) 2 w_signalled = Ret tt w')
    by (eexists; vm_compute; reflexivity).
  destruct H as (w' & H).
  destruct (cond_wait_returns env0 3 (Cond 100 CLOCK_MONOTONIC) 2 w_signalled w'
              ltac:(discriminate) ltac:(discriminate) H)
    as (tr & n & res & Htr & Hw & Hres & _).
  exists w', tr, n, res. auto.
Defined.

Lemma cond_wait_cancelled_witness :
  ∃ w' s, vlc_cond_wait env_cancel 10 (Cond 100 CLOCK_MONOTONIC) 2 w_waiting = Exit w'
    ∧ trace w' = trace w_waiting
        ++ [EvLeave 2; EvWait [100] INFINITE WAIT_IO_COMPLETION; EvEnter 2]
        ++ handler_calls [Cleanup 41 1; Cleanup 42 2]
        ++ drain_events s (vlc_threadvar_last w_waiting)
        ++ [EvEnter super_mutex; EvLeave super_mutex]
        ++ []
        ++ [EvEndThread 0].
Proof.
  apply (cond_wait_cancelled env_cancel 10 (Cond 100 CLOCK_MONOTONIC) 2 w_waiting 500
           (Thread 77 false true false [Cleanup 41 1; Cleanup 42 2] 0 5)).
  - discriminate.
  - reflexivity.
  - eexists. split; reflexivity.
  - reflexivity.
  - discriminate.
  - reflexivity.
  - reflexivity.
  - reflexivity.
  - reflexivity.
  - eexists. split; reflexivity.
  - apply (bool_decide_unpack _). vm_compute. exact I.
  - intros key v s _. reflexivity.
  - cbn. lia.
Defined.

Lemma timedwait_timeouts_witness :
  ∃ w' tr,
    vlc_cond_timedwait env0 3 (Cond 100 CLOCK_MONOTONIC) 2 5000 w_waiting = Ret ETIMEDOUT w'
    ∧ trace w' = trace w_waiting ++ tr ++ [EvResetEvent 100]
    ∧ waits_on 100 tr = [(5, WAIT_TIMEOUT)].
Proof.
  assert (H : ∃ w', vlc_cond_timedwait env0 3 (Cond 100 CLOCK_MONOTONIC) 2 5000 w_waiting
                    = Ret ETIMEDOUT w'
                ∧ ∀ tr, trace w' = trace w_waiting ++ tr ++ [EvResetEvent 100] →
                        waits_on 100 tr = [(5, WAIT_TIMEOUT)]).
  { eexists. split; [vm_compute; reflexivity|]. intros tr Htr. cbn in Htr.
    destruct tr as [|e1 [|e2 [|e3 [|e4 tr]]]]; try discriminate Htr.
    - injection Htr as <- <- <-. reflexivity.
    - injection Htr as _ _ _ Htr. destruct tr; discriminate. }
  destruct H as (w' & H & Hw).
  assert (Hno : no_overflow (clock_reading env0 (Cond 100 CLOCK_MONOTONIC)) 5000 w_waiting).
  { split; [unfold mtime_t_ok, INT64_MIN, INT64_MAX; lia|]. intros n t _ Ht.
    vm_compute in Ht. injection Ht as <-.
    unfold mtime_t_ok, INT64_MIN, INT64_MAX; lia. }
  destruct (timedwait_timeouts env0 3 (Cond 100 CLOCK_MONOTONIC) 2 5000 w_waiting ETIMEDOUT w'
              ltac:(discriminate) ltac:(discriminate) Hno H) as (tr & Htr & _).
  exists w', tr. auto.
Defined.

Lemma trylock_result_witness :
  (∃ w', vlc_mutex_trylock env0 sys0 1 3 w_static = Ret EBUSY w'
     ∧ mutexes w' !! 3 = Some (Mutex false true 0 0))
  ∧ (∃ w', vlc_mutex_trylock env0 sys0 1 3 w_static_free = Ret 0 w'
       ∧ mutexes w' !! 3 = Some (Mutex false true 0 0)).
Proof.
  split.
  - destruct (proj1 (trylock_result env0 sys0 0 3 (Mutex false true 0 0) w_static eq_refl))
      as (w' & H & Hm & _).
    + split; [reflexivity|]. split; [reflexivity|]. split; [discriminate|].
      split; [eexists; split; reflexivity|]. intros n. reflexivity.
    + exists w'. auto.
  - destruct (proj1 (trylock_result env0 sys0 0 3 (Mutex false false 0 0) w_static_free eq_refl))
      as (w' & H & Hm & _).
    + split; [reflexivity|]. split; [reflexivity|]. split; [discriminate|].
      split; [eexists; split; reflexivity|]. intros n. reflexivity.
    + exists w'. auto.
Defined.

Lemma unlock_static_witness :
  ∃ w', vlc_mutex_unlock env0 2 3 w_static = Ret tt w'
    ∧ mutexes w' !! 3 = Some (Mutex false false 0 0)
    ∧ trace w' = [EvEnter super_mutex; EvLeave super_mutex].
Proof.
  apply (unlock_static env0 0 3 (Mutex false true 0 0) w_static).
  - split; [reflexivity|]. split; [reflexivity|]. split; [discriminate|].
    split; [eexists; split; reflexivity|]. intros n. reflexivity.
  - discriminate.
  - reflexivity.
Defined.

Lemma lock_unlock_static_witness :
  ∃ w', (vlc_mutex_lock env0 3 3;; vlc_mutex_unlock env0 3 3) w_static_free = Ret tt w'
    ∧ mutexes w' !! 3 = Some (Mutex false false 0 0)
    ∧ trace w' = [EvEnter super_mutex; EvLeave super_mutex;
                  EvEnter super_mutex; EvLeave super_mutex]
    ∧ events w' = events w_static_free ∧ tls w' = tls w_static_free
    ∧ threads w' = threads w_static_free.
Proof.
  apply (lock_unlock_static env0 3 3 (Mutex false false 0 0) w_static_free).
  - split; [reflexivity|]. split; [reflexivity|]. split; [discriminate|].
    split; [eexists; split; reflexivity|]. intros n. reflexivity.
  - reflexivity.
  - reflexivity.
  - left. reflexivity.
  - lia.
Defined.

Lemma threadvar_create_result_witness :
  ∃ w', vlc_threadvar_create env0 1 33 w_main = Ret (0, Some (Threadvar 101 33)) w'
    ∧ vlc_threadvar_last w' = [Threadvar 101 33; Threadvar 0 NULL]
    ∧ tls w' = <[101 := NULL]> (tls w_main)
    ∧ vlc_threadvar_get (Threadvar 101 33) w' = Ret NULL w'
    ∧ trace w' = [EvEnter super_mutex; EvLeave super_mutex].
Proof.
  apply (proj2 (proj2 (threadvar_create_result env0 1 33 w_main
                         ltac:(eexists; split; reflexivity) ltac:(lia)))).
  - discriminate.
  - discriminate.
Defined.

Lemma threadvar_delete_unlinks_witness :
  ∃ w', vlc_threadvar_delete env0 1 (Threadvar 2 22) w_worker = Ret tt w'
    ∧ vlc_threadvar_last w' = [Threadvar 3 33; Threadvar 1 11; Threadvar 0 NULL]
    ∧ tls w' = delete 2 (tls w_worker)
    ∧ pending (tls w') (vlc_threadvar_last w') = [Threadvar 3 33; Threadvar 1 11].
Proof.
  destruct (threadvar_delete_unlinks env0 1 (Threadvar 2 22) w_worker)
    as (w' & H & Hk & Ht & Hp & _).
  - eexists. split; reflexivity.
  - lia.
  - apply (bool_decide_unpack _). vm_compute. exact I.
  - apply (bool_decide_unpack _). vm_compute. exact I.
  - exists w'. split; [exact H|]. split; [exact Hk|]. split; [exact Ht|].
    rewrite Hp. vm_compute. reflexivity.
Defined.

Lemma threadvar_create_delete_witness :
  ∃ key w1 w2,
    vlc_threadvar_create env0 1 33 w_main = Ret (0, Some key) w1
    ∧ vlc_threadvar_delete env0 1 key w1 = Ret tt w2
    ∧ vlc_threadvar_last w2 = vlc_threadvar_last w_main
    ∧ tls w2 = tls w_main.
Proof.
  apply (threadvar_create_delete env0 1 33 w_main).
  - eexists. split; reflexivity.
  - lia.
  - discriminate.
  - discriminate.
  - reflexivity.
Defined.

Lemma join_result_witness :
  ∃ w', vlc_join env0 2 500 true w_joiner = Ret (Some 5) w'
    ∧ threads w' = delete 500 (threads w_joiner)
    ∧ events w' = delete 77 (events w_joiner)
    ∧ trace w' = [EvWait [77] INFINITE WAIT_OBJECT_0; EvCloseHandle 77; EvFree 500]
    ∧ vlc_join env0 2 500 true w' = Abort.
Proof.
  apply (proj1 (join_result env0 2 500 true w_joiner (Thread 77 false true false [] 0 5) true
                  eq_refl eq_refl ltac:(discriminate) ltac:(lia))).
  - left. reflexivity.
  - discriminate.
Defined.


Lemma cancel_deferred_witness :
  (let! state := vlc_savecancel in
   vlc_cancel_self 500;;
   vlc_testcancel env0 1;;
   vlc_restorecancel state) w_waiting
    = Ret tt (set_threads <[500 := Thread 77 false true true [Cleanup 41 1; Cleanup 42 2] 0 5]>
                w_waiting)
  ∧ ∀ a w', vlc_testcancel env0 1
              (set_threads <[500 := Thread 77 false true true [Cleanup 41 1; Cleanup 42 2] 0 5]>
                 w_waiting) ≠ Ret a w'.
Proof.
  apply (cancel_deferred env0 0 w_waiting 500
           (Thread 77 false true false [Cleanup 41 1; Cleanup 42 2] 0 5));
    first [reflexivity | discriminate].
Defined.

Lemma timer_lifecycle_witness :
  ∃ timer w',
    (let! r := vlc_timer_create env0 61 7 in
     match r.2 with
     | Some timer => timer_run env0 [(false, 50001, 0); (true, 20000, 1000); (false, 0, 0);
                                     (false, 1, 1)] timer
     | None => abort
     end) w_main = Ret timer w'
    ∧ queue_timers (trace w') = armed timer
    ∧ armed timer = [104]
    ∧ ∃ w'', vlc_timer_destroy timer w' = Ret tt w'' ∧ queue_timers (trace w'') = [].
Proof.
  pose proof (timer_lifecycle env0 ltac:(intros n; unfold INVALID_HANDLE_VALUE; cbn; lia) 61 7
                [(false, 50001, 0); (true, 20000, 1000); (false, 0, 0); (false, 1, 1)]
                w_main ltac:(discriminate)) as [_ H].
  assert (Hrun : ∃ timer w',
    (let! r := vlc_timer_create env0 61 7 in
     match r.2 with
     | Some timer => timer_run env0 [(false, 50001, 0); (true, 20000, 1000); (false, 0, 0);
                                     (false, 1, 1)] timer
     | None => abort
     end) w_main = Ret timer w' ∧ armed timer = [104])
    by (eexists _, _; split; vm_compute; reflexivity).
  destruct Hrun as (timer & w' & Hrun & Ha). cbv zeta in H. rewrite Hrun in H.
  destruct H as (Hq & _ & _ & Hd & _). exists timer, w'.
  split; [exact Hrun|]. split; [rewrite Hq; apply app_nil_r|]. split; [exact Ha | exact Hd].
Defined.

Lemma rwlock_exclusion_witness :
  vlc_rwlock_rdlock (RWLock 3 (Cond 100 CLOCK_MONOTONIC) 0 7) w_main = Ret Waiting w_main
  ∧ vlc_rwlock_wrlock 8 (RWLock 3 (Cond 100 CLOCK_MONOTONIC) 0 7) w_main = Ret Waiting w_main
  ∧ vlc_rwlock_unlock 8 (RWLock 3 (Cond 100 CLOCK_MONOTONIC) 0 7) w_main = Abort.
Proof.
  destruct (proj1 (rwlock_exclusion 8 (RWLock 3 (Cond 100 CLOCK_MONOTONIC) 0 7) w_main
                     ltac:(split; [reflexivity | cbn; lia])
                     ltac:(unfold ULONG_MAX; cbn; lia))
                  ltac:(discriminate)) as (Hr & Hw & Hu & _).
  split; [exact Hr|]. split; [exact Hw|]. apply Hu. discriminate.
Defined.

Lemma rwlock_round_trip_witness :
  (∃ l1 w', vlc_rwlock_rdlock (RWLock 3 (Cond 99 CLOCK_MONOTONIC) 0 0) w_main
              = Ret (Done l1) w_main
     ∧ vlc_rwlock_unlock 8 l1 w_main
       = Ret (Done (RWLock 3 (Cond 99 CLOCK_MONOTONIC) 0 0)) w'
     ∧ trace w' = [EvSetEvent 99])
  ∧ (∃ l1 w', vlc_rwlock_wrlock 8 (RWLock 3 (Cond 99 CLOCK_MONOTONIC) 0 0) w_main
                = Ret (Done l1) w_main
       ∧ vlc_rwlock_unlock 8 l1 w_main
         = Ret (Done (RWLock 3 (Cond 99 CLOCK_MONOTONIC) 0 0)) w'
       ∧ trace w' = [EvSetEvent 99]).
Proof.
  destruct (rwlock_round_trip 8 (RWLock 3 (Cond 99 CLOCK_MONOTONIC) 0 0) w_main
              eq_refl ltac:(unfold ULONG_MAX; cbn; lia) ltac:(discriminate)
              ltac:(discriminate))
    as [(l1 & w1 & Hr & _ & _ & Hu & Ht) Hw].
  destruct (proj1 (Hw eq_refl)) as (l2 & w2 & Hw2 & _ & _ & Hu2 & Ht2).
  split; [exists l1, w1 | exists l2, w2]; auto.
Defined.

Lemma mdate_counter_exact_witness :
  mdate_counter 3579545 (2 ^ 62) = (2 ^ 62 * 1000000) / 3579545
  ∧ mtime_t_ok (Z.quot (2 ^ 62) 3579545 * 1000000)
  ∧ mtime_t_ok (Z.rem (2 ^ 62) 3579545 * 1000000)
  ∧ ¬ mtime_t_ok (2 ^ 62 * 1000000).
Proof.
  destruct (mdate_counter_exact 3579545 (2 ^ 62)) as (_ & _ & Hq & Hr & _ & _ & He & _).
  - lia.
  - unfold INT64_MAX. lia.
  - unfold INT64_MAX. lia.
  - vm_compute. discriminate.
  - split; [exact He|]. split; [exact Hq|]. split; [exact Hr|].
    unfold mtime_t_ok, INT64_MIN, INT64_MAX. lia.
Defined.

Lemma DllMain_attach_detach_witness :
  ∃ cl ml w1 w2,
    DllMain env_small 1 DLL_PROCESS_ATTACH
      (RWLock 5 (Cond NULL CLOCK_MONOTONIC) 0 0) (RWLock 6 (Cond NULL CLOCK_MONOTONIC) 0 0)
      w_load = Ret (TRUE, (cl, ml)) w1
    ∧ super_ready w1
    ∧ thread_self w1 = NULL
    ∧ DllMain env_small 1 DLL_PROCESS_DETACH cl ml w1 = Ret (TRUE, (cl, ml)) w2
    ∧ mutexes w2 !! super_mutex = None
    ∧ vlc_threadvar_last w2 = [].
Proof.
  destruct (proj2 (DllMain_attach_detach env_small
                     ltac:(intros n; unfold NULL; cbn; lia)
                     ltac:(intros n; unfold to_DWORD, TLS_OUT_OF_INDEXES; cbn;
                           pose proof (Nat.mod_upper_bound n 1000 ltac:(lia));
                           rewrite Z.mod_small; lia)
                     1 DLL_PROCESS_ATTACH
                     (RWLock 5 (Cond NULL CLOCK_MONOTONIC) 0 0)
                     (RWLock 6 (Cond NULL CLOCK_MONOTONIC) 0 0) w_load
                     ltac:(lia) ltac:(discriminate) ltac:(discriminate) ltac:(discriminate)))
    as (cl & ml & w1 & H1 & Hs & _ & _ & _ & _ & Hself & _ & _ & _ & _ & _ & _ & _ & _ & _ & _
        & w2 & H2 & Hm & _ & _ & _ & _ & _ & Hk & _).
  exists cl, ml, w1, w2. auto 10.
Defined.

Lemma delete_unlinks_witness :
  ∃ s', KeyList.vlc_threadvar_delete 20
          (KeyList.State {[ 10 := KeyList.Node 0 0 NULL 20;
                            20 := KeyList.Node 1 11 10 30;
                            30 := KeyList.Node 2 22 20 NULL ]} 30) = Some s'
    ∧ KeyList.keys s' [30; 10]
    ∧ KeyList.walk (KeyList.heap s') 3 (KeyList.vlc_threadvar_last s') = [30; 10]
    ∧ KeyList.heap s' !! 20 = None.
Proof.
  destruct (KeyListFacts.delete_unlinks 20
              (KeyList.State {[ 10 := KeyList.Node 0 0 NULL 20;
                                20 := KeyList.Node 1 11 10 30;
                                30 := KeyList.Node 2 22 20 NULL ]} 30) [30; 20; 10])
    as (s' & H & Hk & Hw & Hf & _).
  - split.
    + cbn. split; [reflexivity|]. split; [discriminate|]. eexists.
      split; [reflexivity|]. split; [reflexivity|].
      split; [reflexivity|]. split; [discriminate|]. eexists.
      split; [reflexivity|]. split; [reflexivity|].
      split; [reflexivity|]. split; [discriminate|]. eexists.
      split; [reflexivity|]. split; reflexivity.
    + apply (bool_decide_unpack _). vm_compute. exact I.
  - apply (bool_decide_unpack _). vm_compute. exact I.
  - exists s'. auto.
Defined.

Lemma create_links_witness :
  ∃ s', KeyList.vlc_threadvar_create 20 1 11
          (KeyList.State {[ 10 := KeyList.Node 0 0 NULL NULL ]} 10) = Some s'
    ∧ KeyList.keys s' [20; 10]
    ∧ KeyList.key_at s' 20 = Some (Threadvar 1 11)
    ∧ KeyList.vlc_threadvar_delete 20 s'
      = Some (KeyList.State {[ 10 := KeyList.Node 0 0 NULL NULL ]} 10).
Proof.
  destruct (KeyListFacts.create_links 20 1 11
              (KeyList.State {[ 10 := KeyList.Node 0 0 NULL NULL ]} 10) [10])
    as (s' & H & Hk & Ha & _ & Hd).
  - split.
    + cbn. split; [reflexivity|]. split; [discriminate|]. eexists.
      split; [reflexivity|]. split; reflexivity.
    + apply (bool_decide_unpack _). vm_compute. exact I.
  - discriminate.
  - reflexivity.
  - exists s'. auto.
Defined.

Lemma mutex_init_destroy_witness :
  vlc_mutex_destroy 3 w_static = Abort
  ∧ ∃ w1 w3, vlc_mutex_init 4 w_static = Ret tt w1
      ∧ vlc_mutex_destroy 4 w1 = Ret tt w3
      ∧ mutexes w3 = mutexes w_static.
Proof.
  destruct (mutex_init_destroy env0 1 3 w_static) as (_ & Ha & _).
  destruct (mutex_init_destroy env0 1 4 w_static)
    as (_ & _ & w1 & Hi & _ & _ & _ & w3 & Hd & _ & Hm).
  split; [exact (Ha _ eq_refl eq_refl)|].
  exists w1, w3. split; [exact Hi|]. split; [exact Hd|]. apply Hm. reflexivity.
Defined.

Lemma cond_init_destroy_witness :
  ∃ c w1 w2, vlc_cond_init env0 w_main = Ret c w1
    ∧ handle c = 100 ∧ clock c = CLOCK_MONOTONIC
    ∧ events w1 !! 100 = Some false
    ∧ vlc_cond_destroy c w1 = Ret tt w2
    ∧ events w2 = events w_main.
Proof.
  destruct (cond_init_destroy env0 CLOCK_MONOTONIC w_main) as (Hi & _ & _ & H).
  destruct (H ltac:(discriminate)) as (c & w1 & Hc & Hh & Hk & He & _ & _ & w2 & Hd & _ & Hev).
  exists c, w1, w2. rewrite Hi. split; [exact Hc|]. split; [exact Hh|]. split; [exact Hk|].
  split; [rewrite <- Hh at 1; exact He|]. split; [exact Hd|]. apply Hev.
  rewrite Hh. reflexivity.
Defined.

Lemma threadvar_set_get_witness :
  ∃ w', (vlc_threadvar_set (Threadvar 2 22) 8;; vlc_threadvar_get (Threadvar 2 22)) w_worker
        = Ret 8 w'
    ∧ vlc_threadvar_get (Threadvar 3 33) w' = Ret 9 w'.
Proof.
  destruct (threadvar_set_get (Threadvar 2 22) 8 w_worker ltac:(eexists; reflexivity))
    as (w' & Hs & Ho).
  exists w'. split; [exact Hs|].
  exact (Ho (Threadvar 3 33) 9 ltac:(discriminate) eq_refl).
Defined.

Lemma clone_result_witness :
  ∃ w', vlc_clone env0 sys0 true 0 5 0 w_main = Ret (0, Some 100) w'
    ∧ threads w' = <[100 := Thread 201 false false false [] 0 5]> (threads w_main)
    ∧ events w' = <[201 := false]> (events w_main).
Proof.
  destruct (clone_result env0 sys0 true false 0 5 0 w_main) as (_ & _ & H & Hc & _).
  destruct (H ltac:(discriminate) ltac:(discriminate)) as (w' & Hr & Ht & He & _).
  exists w'. rewrite Hc. split; [exact Hr|]. split; [exact Ht | exact He].
Defined.

Lemma cleanup_push_pop_witness :
  (vlc_control_cancel (VLC_CLEANUP_PUSH (Cleanup 43 3));; vlc_control_cancel VLC_CLEANUP_POP)
    w_worker = Ret tt w_worker
  ∧ vlc_control_cancel VLC_CLEANUP_POP w_joiner = Ret tt w_joiner.
Proof.
  split.
  - apply (proj1 (cleanup_push_pop (Cleanup 43 3) VLC_CLEANUP_POP w_worker)).
    right. eexists. reflexivity.
  - apply (proj2 (proj2 (cleanup_push_pop (Cleanup 43 3) VLC_CLEANUP_POP w_joiner))).
    reflexivity.
Defined.

Lemma wait_outcomes_witness :
  vlc_WaitForSingleObject env0 98 5 w_main = Abort
  ∧ ∃ w', vlc_WaitForSingleObject env0 99 5 w_main = Ret WAIT_TIMEOUT w'
      ∧ trace w' = [EvWait [99] 5 WAIT_TIMEOUT].
Proof.
  destruct (wait_outcomes env0 98 5 w_main) as (_ & Ha & _).
  split; [exact (Ha eq_refl)|].
  assert (H : ∃ w', vlc_WaitForSingleObject env0 99 5 w_main = Ret WAIT_TIMEOUT w')
    by (eexists; vm_compute; reflexivity).
  destruct H as (w' & H). exists w'. split; [exact H|].
  exact (proj2 (proj1 (wait_outcomes env0 99 5 w_main) _ _ H)).
Defined.
